(** * File integrity monitoring: alert throttling, baseline creation, event filter

    A shallow embedding of the three scripts of the repository:
    - [fim_alert.py]  (module [FimAlert]): e-mail alerts with per-file throttling;
    - [project.py]    (module [Project]):  SHA-256 baseline of a directory tree;
    - [WatchDog.py]   (module [WatchDog]): watchdog handler that logs file events.

    Conventions of the embedding.
    - Python [int] is [Z]; [str] is [string], a character being the code
      point of its number (code points below 256); [dict] used as a map is a
      [gmap], or an insertion-ordered association list where it is serialised.
    - Python [float] is the primitive [float] (IEEE 754 binary64, rounding to
      nearest even): a POSIX timestamp ([datetime.now().timestamp()]) is a
      [float], timestamps are subtracted as floats, and a float is compared
      with an [int] by exact value, as Python does.
    - What a call reads from outside the program (the clock, the outcome of
      the SMTP session, the content of a file) is an explicit argument.
    - A Python exception is [Raise e]; code that can raise lives in a state and
      error monad whose state survives a raise, as the effects of a Python
      [try] block survive its [except]. *)

From Stdlib Require Import Ascii String ZArith Lia Bool Floats.
From stdpp Require Import base gmap strings list fin_maps pretty.

Set Warnings "-register-all,-inexact-float".

Local Open Scope string_scope.
Local Open Scope Z_scope.

(** ** Python prelude *)

Module Py.

(** An exception object: its class and [str(e)]. Every class modelled here
    derives from [Exception]. *)
Record Exn := { exn_class : string; exn_str : string }.

Inductive Outcome (A : Type) : Type :=
| Ret (a : A)
| Raise (e : Exn).
Arguments Ret {A} a.
Arguments Raise {A} e.

Definition obind {A B} (o : Outcome A) (k : A -> Outcome B) : Outcome B :=
  match o with
  | Ret a => k a
  | Raise e => Raise e
  end.

(** The computation returns, it does not raise. *)
Definition returns {A} (o : Outcome A) : bool :=
  match o with
  | Ret _ => true
  | Raise _ => false
  end.

(** State and error monad; the state is returned on both exits. *)
Definition M (S A : Type) : Type := S -> Outcome A * S.

Definition ret {S A} (a : A) : M S A := fun s => (Ret a, s).
Definition raise {S A} (e : Exn) : M S A := fun s => (Raise e, s).
Definition bind {S A B} (m : M S A) (k : A -> M S B) : M S B :=
  fun s => match m s with
           | (Ret a, s') => k a s'
           | (Raise e, s') => (Raise e, s')
           end.
Definition lift {S A} (o : Outcome A) : M S A := fun s => (o, s).
Definition get {S} : M S S := fun s => (Ret s, s).
Definition modify {S} (f : S -> S) : M S unit := fun s => (Ret tt, f s).

(** [try: body except Exception as e: handler e]. *)
Definition try_except {S A} (body : M S A) (handler : Exn -> M S A) : M S A :=
  fun s => match body s with
           | (Ret a, s') => (Ret a, s')
           | (Raise e, s') => handler e s'
           end.

(** [try: body except classes as e: handler e]: an exception the clause
    does not name, [caught e = false], goes on to the caller. *)
Definition try_except_of {S A} (caught : Exn -> bool) (body : M S A) (handler : Exn -> M S A)
  : M S A :=
  fun s => match body s with
           | (Ret a, s') => (Ret a, s')
           | (Raise e, s') => if caught e then handler e s' else (Raise e, s')
           end.

Declare Scope py_scope.
Delimit Scope py_scope with py.
Notation "x <- m ;; k" := (bind m (fun x => k))
  (at level 100, m at next level, right associativity) : py_scope.
Notation "m ;; k" := (bind m (fun _ => k))
  (at level 100, right associativity) : py_scope.

(** *** Built-in exception classes *)

(** [OSError] and the built-in classes that derive from it. *)
Definition OSError_classes : list string :=
  ["OSError"; "BlockingIOError"; "ChildProcessError"; "ConnectionError"; "BrokenPipeError";
   "ConnectionAbortedError"; "ConnectionRefusedError"; "ConnectionResetError";
   "FileExistsError"; "FileNotFoundError"; "InterruptedError"; "IsADirectoryError";
   "NotADirectoryError"; "PermissionError"; "ProcessLookupError"; "TimeoutError"].

(** [isinstance(e, OSError)] for an exception of a built-in class. *)
Definition is_OSError (e : Exn) : bool := existsb (String.eqb (exn_class e)) OSError_classes.

Definition ValueError (m : string) : Exn := {| exn_class := "ValueError"; exn_str := m |}.

Definition TypeError (m : string) : Exn := {| exn_class := "TypeError"; exn_str := m |}.

(** *** logging *)

Inductive Level := DEBUG | INFO | WARNING | ERROR | CRITICAL.

Record LogRecord := { levelname : Level; message : string }.

(** *** str *)

Definition nl : string := String "010"%char EmptyString.

(** [c.lower()]: the letters A to Z, and the capital letters of the range
    192 to 222 (215, the multiplication sign, is no letter). *)
Definition ascii_lower (c : ascii) : ascii :=
  let n := nat_of_ascii c in
  if (((65 <=? n)%nat && (n <=? 90)%nat)
      || ((192 <=? n)%nat && (n <=? 222)%nat && negb (n =? 215)%nat))%bool
  then ascii_of_nat (n + 32) else c.

(** [s.lower()]. *)
Fixpoint lower (s : string) : string :=
  match s with
  | EmptyString => EmptyString
  | String c r => String (ascii_lower c) (lower r)
  end.

(** [sep.join(l)] for a list of [str]. *)
Fixpoint join (sep : string) (l : list string) : string :=
  match l with
  | [] => ""
  | [x] => x
  | x :: r => x ++ sep ++ join sep r
  end.

(** [c in s] for a character [c]. *)
Definition contains (c : ascii) (s : string) : bool :=
  existsb (Ascii.eqb c) (list_ascii_of_string s).

(** [s[:n]]. *)
Fixpoint truncate (n : nat) (s : string) : string :=
  match n, s with
  | S n', String c r => String c (truncate n' r)
  | _, _ => ""
  end.

(** *** repr(str)

    The string between quotes: single quotes, unless it holds a single
    quote and no double quote.  The quote in use and the backslash are
    escaped with a backslash; tab, line feed and carriage return are written
    [\t], [\n], [\r]; any other character that is not printable -- below 32,
    from 127 to 160, and 173 -- is written [\xhh]. *)

Definition squote : ascii := "'"%char.
Definition dquote : ascii := "034"%char.
Definition backslash : ascii := "\"%char.

Definition hex_char (n : nat) : ascii :=
  ascii_of_nat (if (n <? 10)%nat then 48 + n else 87 + n).

Definition is_printable (c : ascii) : bool :=
  let n := nat_of_ascii c in
  (((32 <=? n)%nat && (n <? 127)%nat) || ((161 <=? n)%nat && negb (n =? 173)%nat))%bool.

Definition repr_char (quote c : ascii) : string :=
  let n := nat_of_ascii c in
  if (Ascii.eqb c quote || Ascii.eqb c backslash)%bool then String backslash (String c "")
  else if (n =? 9)%nat then "\t"
  else if (n =? 10)%nat then "\n"
  else if (n =? 13)%nat then "\r"
  else if is_printable c then String c ""
  else String backslash
         (String "x" (String (hex_char (n / 16)) (String (hex_char (n mod 16)) ""))).

Fixpoint repr_chars (quote : ascii) (s : string) : string :=
  match s with
  | EmptyString => String quote ""
  | String c r => repr_char quote c ++ repr_chars quote r
  end.

Definition repr (s : string) : string :=
  let quote := if (contains squote s && negb (contains dquote s))%bool then dquote else squote in
  String quote (repr_chars quote s).

(** *** int(str)

    Base-10 literal: surrounding whitespace (space, the characters 9 to 13,
    and the two spaces above 127, 133 and 160), an optional sign, then
    digits with single underscores allowed between digits.  The limit that
    recent interpreters put on the number of digits (4300, configurable) is
    not modelled. *)

Definition is_space (c : ascii) : bool :=
  let n := nat_of_ascii c in
  ((n =? 32)%nat || ((9 <=? n)%nat && (n <=? 13)%nat) || (n =? 133)%nat || (n =? 160)%nat)%bool.

Definition is_digit (c : ascii) : bool :=
  let n := nat_of_ascii c in ((48 <=? n)%nat && (n <=? 57)%nat)%bool.

Definition digit_val (c : ascii) : Z := Z.of_nat (nat_of_ascii c) - 48.

Fixpoint lstrip (s : list ascii) : list ascii :=
  match s with
  | c :: r => if is_space c then lstrip r else s
  | [] => []
  end.

Definition strip (s : list ascii) : list ascii := rev (lstrip (rev (lstrip s))).

Fixpoint digits_value (s : list ascii) (acc : Z) (after_digit : bool) : option Z :=
  match s with
  | [] => if after_digit then Some acc else None
  | c :: r =>
      if is_digit c then digits_value r (10 * acc + digit_val c) true
      else if (Ascii.eqb c "_"%char && after_digit)%bool then digits_value r acc false
      else None
  end.

Definition int_of_str (s : string) : option Z :=
  match strip (list_ascii_of_string s) with
  | c :: r =>
      if Ascii.eqb c "-"%char then Z.opp <$> digits_value r 0 false
      else if Ascii.eqb c "+"%char then digits_value r 0 false
      else digits_value (c :: r) 0 false
  | [] => None
  end.

(** The error of [int(s)]: the literal is shown by [repr], cut at 200
    characters. *)
Definition invalid_literal (s : string) : Exn :=
  ValueError ("invalid literal for int() with base 10: " ++ truncate 200 (repr s)).

Definition int (s : string) : Outcome Z :=
  match int_of_str s with
  | Some n => Ret n
  | None => Raise (invalid_literal s)
  end.

(** *** float

    [x < n] and [x >= n] for a float [x] and an int [n]: Python compares the
    exact values, without converting [n] to a float; every comparison with
    a NaN is false. *)

Definition sf_lt_int (x : spec_float) (n : Z) : bool :=
  match x with
  | S754_nan => false
  | S754_infinity s => s
  | S754_zero _ => 0 <? n
  | S754_finite s m e =>
      let v := if s then Z.neg m else Z.pos m in
      if 0 <=? e then v * 2 ^ e <? n else v <? n * 2 ^ (- e)
  end.

Definition sf_ge_int (x : spec_float) (n : Z) : bool :=
  match x with
  | S754_nan => false
  | S754_infinity s => negb s
  | S754_zero _ => n <=? 0
  | S754_finite s m e =>
      let v := if s then Z.neg m else Z.pos m in
      if 0 <=? e then n <=? v * 2 ^ e else n * 2 ^ (- e) <=? v
  end.

Definition float_lt_int (x : float) (n : Z) : bool := sf_lt_int (Prim2SF x) n.

Definition float_ge_int (x : float) (n : Z) : bool := sf_ge_int (Prim2SF x) n.

(** *** posixpath *)

(** [os.path.basename(p)]: what follows the last slash. *)
Fixpoint basename_from (cur : string) (p : string) : string :=
  match p with
  | EmptyString => cur
  | String c r =>
      if Ascii.eqb c "/"%char then basename_from "" r
      else basename_from (cur ++ String c EmptyString) r
  end.

Definition basename (p : string) : string := basename_from "" p.

Definition startswith_slash (p : string) : bool :=
  match p with
  | String c _ => Ascii.eqb c "/"%char
  | EmptyString => false
  end.

Fixpoint endswith_slash (p : string) : bool :=
  match p with
  | EmptyString => false
  | String c EmptyString => Ascii.eqb c "/"%char
  | String _ r => endswith_slash r
  end.

(** [os.path.join(a, b)]. *)
Definition path_join (a b : string) : string :=
  if startswith_slash b then b
  else if (String.eqb a "" || endswith_slash a)%bool then a ++ b
  else a ++ "/" ++ b.

(** *** Values produced by [json.loads] *)

Inductive PyVal :=
| PNone
| PBool (b : bool)
| PInt (n : Z)
| PFloat (text : string)
| PStr (s : string)
| PList (l : list PyVal)
| PDict (d : list (string * PyVal)).

Definition type_name (v : PyVal) : string :=
  match v with
  | PNone => "NoneType"
  | PBool _ => "bool"
  | PInt _ => "int"
  | PFloat _ => "float"
  | PStr _ => "str"
  | PList _ => "list"
  | PDict _ => "dict"
  end.

(** The items of a list as strings, or the error [join] raises at the first
    item, of index [i], that is not a [str]. *)
Fixpoint all_str (i : nat) (l : list PyVal) : Outcome (list string) :=
  match l with
  | [] => Ret []
  | PStr s :: r => obind (all_str (S i) r) (fun r' => Ret (s :: r'))
  | v :: _ =>
      Raise (TypeError ("sequence item " ++ pretty i ++ ": expected str instance, "
                        ++ type_name v ++ " found"))
  end.

Fixpoint chars (s : string) : list string :=
  match s with
  | EmptyString => []
  | String c r => String c EmptyString :: chars r
  end.

(** [sep.join(v)] for an arbitrary value: a [str] is iterated by character,
    a [dict] by key, a [list] must hold only [str]; nothing else iterates. *)
Definition join_val (sep : string) (v : PyVal) : Outcome string :=
  match v with
  | PStr s => Ret (join sep (chars s))
  | PList l => obind (all_str 0 l) (fun l' => Ret (join sep l'))
  | PDict d => Ret (join sep (d.*1))
  | _ => Raise (TypeError "can only join an iterable")
  end.

End Py.

(** ** Exact arithmetic behind the float subtraction

    The notions used to reason about [PrimFloat.sub]: a finite float is an
    integer number of units of 2^-1074, and a subtraction returns the float
    nearest to the exact difference. *)

Module FloatArith.

(** [N / 2^j] rounded to the nearest integer, a tie going to the even
    one. *)
Definition rne (N j : Z) : Z :=
  let q := N / 2 ^ j in
  let r := N mod 2 ^ j in
  match 2 * r ?= 2 ^ j with
  | Lt => q
  | Eq => if Z.even q then q else q + 1
  | Gt => q + 1
  end.

(** The number of binary digits of a positive integer. *)
Definition zdigits (N : Z) : Z := Z.log2 N + 1.

(** The exponent at which a value of [N] units is rounded: 53 digits are
    kept. *)
Definition rexp (N : Z) : Z := Z.max (zdigits N - 53) 0.

(** The value, in units of 2^-1074, that [N] units round to. *)
Definition Rv (N : Z) : Z := rne N (rexp N) * 2 ^ rexp N.

(** The first value that is too large for a finite float: 2^1024. *)
Definition top : Z := 2 ^ 2098.

(** The value of a finite float in units of 2^-1074. *)
Definition sval (x : spec_float) : Z :=
  match x with
  | S754_finite s m e => (if s then Z.neg m else Z.pos m) * 2 ^ (e + 1074)
  | _ => 0
  end.

Definition is_fin (x : spec_float) : bool :=
  match x with
  | S754_zero _ | S754_finite _ _ _ => true
  | _ => false
  end.

(** [x < n] for the float nearest to [D] units. *)
Definition lt_diff (D n : Z) : bool :=
  match D with
  | Z0 => 0 <? n
  | Zpos _ => (Rv D <? top) && (Rv D <? n * 2 ^ 1074)
  | Zneg _ => (top <=? Rv (- D)) || (- Rv (- D) <? n * 2 ^ 1074)
  end.

(** What the round and sticky bits [r], [s] of a shift by [j] places say
    of the bits [rem] shifted out. *)
Definition loc_ok (r s : bool) (rem j : Z) : Prop :=
  match r, s with
  | false, false => rem = 0
  | false, true => 0 < 2 * rem < 2 ^ j
  | true, false => 2 * rem = 2 ^ j
  | true, true => 2 ^ j < 2 * rem
  end.

(** The record [mrs] is [m0] shifted right by [j] places. *)
Definition shr_inv (m0 : Z) (j : Z) (mrs : shr_record) : Prop :=
  0 <= shr_m mrs /\
  exists rem, 0 <= rem < 2 ^ j /\ m0 = shr_m mrs * 2 ^ j + rem
              /\ loc_ok (shr_r mrs) (shr_s mrs) rem j.

End FloatArith.

(** ** fim_alert.py *)

Module FimAlert.
Import Py.
Local Open Scope py_scope.

(** *** configparser.ConfigParser

    Option names go through [optionxform] (lower-casing) on every access;
    section names are case sensitive.  Values are stored as read and
    interpolated when they are got ([BasicInterpolation]): [%%] stands for
    a percent sign, [%(name)s] for the value of option [name] of the same
    section or of [DEFAULT], itself interpolated, to a depth of 10; any
    other use of [%] is an error. *)

Record ConfigParser := {
  defaults : gmap string string;
  sections : gmap string (gmap string string) }.

Definition empty_config : ConfigParser := {| defaults := ∅; sections := ∅ |}.

Definition NoSectionError (section : string) : Exn :=
  {| exn_class := "NoSectionError"; exn_str := "No section: " ++ repr section |}.

Definition NoOptionError (option section : string) : Exn :=
  {| exn_class := "NoOptionError";
     exn_str := "No option " ++ repr option ++ " in section: " ++ repr section |}.

Definition InterpolationSyntaxError (m : string) : Exn :=
  {| exn_class := "InterpolationSyntaxError"; exn_str := m |}.

Definition InterpolationMissingOptionError (option section rawval reference : string) : Exn :=
  {| exn_class := "InterpolationMissingOptionError";
     exn_str := "Bad value substitution: option " ++ repr option ++ " in section "
                ++ repr section ++ " contains an interpolation key " ++ repr reference
                ++ " which is not a valid option name. Raw value: " ++ repr rawval |}.

Definition MAX_INTERPOLATION_DEPTH : nat := 10.

Definition InterpolationDepthError (option section rawval : string) : Exn :=
  {| exn_class := "InterpolationDepthError";
     exn_str := "Recursion limit exceeded in value substitution: option " ++ repr option
                ++ " in section " ++ repr section
                ++ " contains an interpolation key which cannot be substituted in "
                ++ pretty MAX_INTERPOLATION_DEPTH ++ " steps. Raw value: " ++ repr rawval |}.

Definition bad_reference (rest : string) : Exn :=
  InterpolationSyntaxError ("bad interpolation variable reference " ++ repr rest).

Definition bad_percent (rest : string) : Exn :=
  InterpolationSyntaxError
    ("'%' must be followed by '%' or '(', found: " ++ repr rest).

(** Where the loop of [_interpolate_some] stands in the text: outside a
    reference, after a [%], inside the name of [%(name], after its [)]. *)
Inductive Scan :=
| Text
| Percent
| Name (name : string)
| Close (name : string).

Section Interpolation.

(** The option got, its section, its raw value, and the options in reach:
    those of the section, then those of [DEFAULT]. *)
Variables (option section rawval : string) (map : gmap string string).

(** The loop of [_interpolate_some] over [rest], a character at a time.
    [from] is the text from the last [%] on, which the errors show;
    [value v] interpolates the value of a reference that holds a [%], one
    level deeper. *)
Fixpoint scan (value : string -> Outcome string) (st : Scan) (from rest accum : string)
  : Outcome string :=
  match rest with
  | EmptyString =>
      match st with
      | Text => Ret accum
      | Percent => Raise (bad_percent from)
      | Name _ | Close _ => Raise (bad_reference from)
      end
  | String c r =>
      match st with
      | Text =>
          if Ascii.eqb c "%"%char then scan value Percent rest r accum
          else scan value Text from r (accum ++ String c "")
      | Percent =>
          if Ascii.eqb c "%"%char then scan value Text from r (accum ++ "%")
          else if Ascii.eqb c "("%char then scan value (Name "") from r accum
          else Raise (bad_percent from)
      | Name name =>
          if Ascii.eqb c ")"%char then
            if String.eqb name "" then Raise (bad_reference from)
            else scan value (Close name) from r accum
          else scan value (Name (name ++ String c "")) from r accum
      | Close name =>
          if Ascii.eqb c "s"%char then
            match map !! lower name with
            | None =>
                Raise (InterpolationMissingOptionError option section rawval (lower name))
            | Some v =>
                obind (if contains "%"%char v then value v else Ret v)
                      (fun text => scan value Text from r (accum ++ text))
            end
          else Raise (bad_reference from)
      end
  end.

(** [_interpolate_some] at a depth that leaves [depth_left] levels. *)
Fixpoint interpolate_some (depth_left : nat) (rest : string) : Outcome string :=
  match depth_left with
  | O => Raise (InterpolationDepthError option section rawval)
  | S d => scan (interpolate_some d) Text "" rest ""
  end.

End Interpolation.

(** [BasicInterpolation.before_get]. *)
Definition before_get (section option value : string) (d : gmap string string) : Outcome string :=
  interpolate_some option section value d MAX_INTERPOLATION_DEPTH value.

(** The section's own options, then those of [DEFAULT]. *)
Definition unify_values (c : ConfigParser) (section : string) : option (gmap string string) :=
  match sections c !! section with
  | Some d => Some (d ∪ defaults c)
  | None => if String.eqb section "DEFAULT" then Some (defaults c) else None
  end.

(** [config.get(section, option)]. *)
Definition cfg_get (c : ConfigParser) (section option : string) : Outcome string :=
  match unify_values c section with
  | None => Raise (NoSectionError section)
  | Some d =>
      match d !! lower option with
      | Some value => before_get section (lower option) value d
      | None => Raise (NoOptionError (lower option) section)
      end
  end.

(** [config.get(section, option, fallback=fb)]: the fallback replaces a
    missing section or option; a value that is there is interpolated, and
    an error of the interpolation is raised. *)
Definition cfg_get_fallback (c : ConfigParser) (section option fb : string) : Outcome string :=
  match unify_values c section with
  | None => Ret fb
  | Some d =>
      match d !! lower option with
      | Some value => before_get section (lower option) value d
      | None => Ret fb
      end
  end.

(** [config.getint(section, option)]: a missing section or option raises,
    and so does a value that [int] rejects. *)
Definition cfg_getint (c : ConfigParser) (section option : string) : Outcome Z :=
  obind (cfg_get c section option) int.

(** [config.getint(section, option, fallback=fb)]: the fallback replaces a
    missing section or option only; an error of the interpolation and a
    value that [int] rejects still raise. *)
Definition cfg_getint_fallback (c : ConfigParser) (section option : string) (fb : Z) : Outcome Z :=
  match unify_values c section with
  | None => Ret fb
  | Some d =>
      match d !! lower option with
      | Some value => obind (before_get section (lower option) value d) int
      | None => Ret fb
      end
  end.

(** [config[section] = d] for a dict literal [d] whose keys stay distinct
    once lower-cased and whose values hold no [%]: the section is replaced
    by the items of [d]. *)
Definition cfg_set_section (c : ConfigParser) (section : string) (d : list (string * string)) : ConfigParser :=
  {| defaults := defaults c;
     sections := <[section := foldl (fun m kv => <[lower kv.1 := kv.2]> m) ∅ d]> (sections c) |}.

(** *** The manager object and what it acts on *)

Record EmailConfig := {
  smtp_server : string;
  smtp_port : Z;
  sender_email : string;
  sender_password : string;
  recipient_emails : PyVal }.

(** [alert_history] maps a path to [(last_alert_time, alert_count)]. *)
Record FIMAlertManager := {
  config : ConfigParser;
  email_config : EmailConfig;
  alert_history : gmap string (float * Z);
  throttle_period : Z }.

Definition set_alert_history (self : FIMAlertManager) (h : gmap string (float * Z)) : FIMAlertManager :=
  {| config := config self; email_config := email_config self;
     alert_history := h; throttle_period := throttle_period self |}.

(** A message handed to the SMTP session. *)
Record Email := { msg_from : string; msg_to : string; msg_subject : string; msg_body : string }.

(** What [ConfigParser.read] makes of a file that exists: it parses, the
    parser raises, or the file cannot be opened (which [read] ignores). *)
Inductive IniFile :=
| Parsed (c : ConfigParser)
| Unparsable (e : Exn)
| Unopenable.

(** Outside the manager: the records written through [logging], the
    messages for which an SMTP session was opened, and the configuration
    files on disk. *)
Record World := {
  log : list LogRecord;
  outbox : list Email;
  fs : gmap string IniFile }.

(** The manager object [self] is mutated in place by its methods. *)
Record State := { self : FIMAlertManager; world : World }.

Definition add_log (lvl : Level) (m : string) (w : World) : World :=
  {| log := log w ++ [{| levelname := lvl; message := m |}]; outbox := outbox w; fs := fs w |}.

Definition add_outbox (m : Email) (w : World) : World :=
  {| log := log w; outbox := outbox w ++ [m]; fs := fs w |}.

Definition logging_w (lvl : Level) (m : string) : M World unit := modify (add_log lvl m).

Definition push_outbox (m : Email) : M World unit := modify (add_outbox m).

Definition write_file (path : string) (f : IniFile) : M World unit :=
  modify (fun w => {| log := log w; outbox := outbox w; fs := <[path := f]> (fs w) |}).

Definition in_world {A} (m : M World A) : M State A :=
  fun s => let (r, w') := m (world s) in (r, {| self := self s; world := w' |}).

Definition logging (lvl : Level) (m : string) : M State unit := in_world (logging_w lvl m).

Definition set_self (f : FIMAlertManager -> FIMAlertManager) : M State unit :=
  modify (fun s => {| self := f (self s); world := world s |}).

(** *** Throttling *)

(** [_should_send_alert(self, file_path)], the clock reading made explicit. *)
Definition _should_send_alert (self : FIMAlertManager) (current_time : float) (file_path : string)
  : Outcome bool :=
  obind (cfg_getint_fallback (config self) "Throttling" "max_alerts_per_file" 3) (fun max_alerts =>
  match alert_history self !! file_path with
  | Some (last_alert_time, alert_count) =>
      if float_lt_int (current_time - last_alert_time) (throttle_period self) then
        if alert_count <? max_alerts then Ret true else Ret false
      else Ret true
  | None => Ret true
  end).

(** [_update_alert_history(self, file_path)], the clock reading made explicit. *)
Definition _update_alert_history (self : FIMAlertManager) (current_time : float) (file_path : string)
  : FIMAlertManager :=
  match alert_history self !! file_path with
  | Some (last_time, count) =>
      if float_lt_int (current_time - last_time) (throttle_period self) then
        set_alert_history self (<[file_path := (current_time, count + 1)]> (alert_history self))
      else
        set_alert_history self (<[file_path := (current_time, 1)]> (alert_history self))
  | None =>
      set_alert_history self (<[file_path := (current_time, 1)]> (alert_history self))
  end.

(** *** Sending *)

(** What one call of [send_alert] reads from outside: the clock in
    [_should_send_alert], the formatted clock for the body, the outcome of
    the SMTP session ([None]: connect, starttls, login and send_message all
    complete) and the clock in [_update_alert_history]. *)
Record Env := {
  t_check : float;
  t_stamp : string;
  smtp_result : option Exn;
  t_update : float }.

(** [_send_email(self, subject, body)]. *)
Definition _send_email (smtp_result : option Exn) (subject body : string) : M State unit :=
  s <- get ;;
  let ec := email_config (self s) in
  to <- lift (join_val ", " (recipient_emails ec)) ;;
  in_world (push_outbox {| msg_from := sender_email ec; msg_to := to;
                           msg_subject := subject; msg_body := body |}) ;;
  match smtp_result with
  | None => ret tt
  | Some e => raise e
  end.

Definition alert_subject (alert_level event_type file_path : string) : string :=
  "FIM ALERT [" ++ alert_level ++ "]: File " ++ event_type ++ " - " ++ basename file_path.

Definition alert_body (alert_level event_type timestamp file_path : string)
    (details : list (string * string)) : string :=
  let body :=
    nl ++ "        File Integrity Monitoring Alert" ++
    nl ++ "        ==============================" ++
    nl ++ "        Event Type: " ++ event_type ++
    nl ++ "        Alert Level: " ++ alert_level ++
    nl ++ "        Timestamp: " ++ timestamp ++
    nl ++ "        File Path: " ++ file_path ++
    nl ++ "        " in
  match details with
  | [] => body
  | _ => foldl (fun b kv => b ++ kv.1 ++ ": " ++ kv.2 ++ nl) (body ++ nl ++ "Additional Details:" ++ nl) details
  end.

(** The alert level of an event type: [config.get('AlertLevels',
    event_type.lower(), fallback='MEDIUM')]. *)
Definition alert_level_of (c : ConfigParser) (event_type : string) : Outcome string :=
  cfg_get_fallback c "AlertLevels" (lower event_type) "MEDIUM".

(** [send_alert(self, event_type, file_path, details)]; [details] is the
    list of items of the dict, empty for [None] and for an empty dict. *)
Definition send_alert (env : Env) (event_type file_path : string)
    (details : list (string * string)) : M State bool :=
  s <- get ;;
  ok <- lift (_should_send_alert (self s) (t_check env) file_path) ;;
  if negb ok then
    (logging INFO ("Alert throttled for " ++ file_path) ;;
     ret false)
  else
    alert_level <- lift (alert_level_of (config (self s)) event_type) ;;
    let subject := alert_subject alert_level event_type file_path in
    let body := alert_body alert_level event_type (t_stamp env) file_path details in
    try_except
      (_send_email (smtp_result env) subject body ;;
       logging INFO ("Alert sent for " ++ event_type ++ " on " ++ file_path) ;;
       set_self (fun self => _update_alert_history self (t_update env) file_path) ;;
       ret true)
      (fun e =>
         logging ERROR ("Failed to send alert: " ++ exn_str e) ;;
         ret false).

(** *** Construction *)

(** The JSON text of the default recipients: a list of two addresses. *)
Definition default_recipients_text : string :=
  "[" ++ String "034"%char "admin@example.com" ++ String "034"%char ", "
      ++ String "034"%char "security@example.com" ++ String "034"%char "]".

Definition default_config : ConfigParser :=
  let config := empty_config in
  let config := cfg_set_section config "Email"
    [("smtp_server", "smtp.gmail.com");
     ("smtp_port", "587");
     ("sender_email", "your_email@gmail.com");
     ("sender_password", "your_app_password");
     ("recipient_emails", default_recipients_text)] in
  let config := cfg_set_section config "Throttling"
    [("throttle_period_seconds", "300");
     ("max_alerts_per_file", "3")] in
  let config := cfg_set_section config "AlertLevels"
    [("file_modified", "MEDIUM");
     ("file_created", "LOW");
     ("file_deleted", "HIGH")] in
  config.

(** [_load_config(self, config_file)].  [write_result] is the outcome of
    opening the file for writing when the defaults are generated. *)
Definition _load_config (write_result : option Exn) (config_file : string) : M World ConfigParser :=
  w <- get ;;
  match fs w !! config_file with
  | None =>
      let config := default_config in
      match write_result with
      | None => write_file config_file (Parsed config)
      | Some e => raise e
      end ;;
      logging_w INFO ("Created default configuration file: " ++ config_file) ;;
      ret config
  | Some (Parsed c) => ret c
  | Some (Unparsable e) => raise e
  | Some Unopenable => ret empty_config
  end.

Section Init.

(** [json.loads], a library function taken as given. *)
Variable json_loads : string -> Outcome PyVal.

(** [FIMAlertManager(config_file)]. *)
Definition __init__ (write_result : option Exn) (config_file : string) : M World FIMAlertManager :=
  config <- _load_config write_result config_file ;;
  smtp_server <- lift (cfg_get config "Email" "smtp_server") ;;
  smtp_port <- lift (cfg_getint config "Email" "smtp_port") ;;
  sender_email <- lift (cfg_get config "Email" "sender_email") ;;
  sender_password <- lift (cfg_get config "Email" "sender_password") ;;
  recipients <- lift (cfg_get config "Email" "recipient_emails") ;;
  recipient_emails <- lift (json_loads recipients) ;;
  throttle_period <- lift (cfg_getint_fallback config "Throttling" "throttle_period_seconds" 300) ;;
  logging_w INFO "FIM Alert Manager initialized" ;;
  ret {| config := config;
         email_config := {| smtp_server := smtp_server; smtp_port := smtp_port;
                            sender_email := sender_email; sender_password := sender_password;
                            recipient_emails := recipient_emails |};
         alert_history := ∅;
         throttle_period := throttle_period |}.

End Init.

(** *** The fixed-window gate of the specification

    Modelled on the words of the specification (section 4.4), to be
    compared with the code above: the state of a path is
    [(windowStart, countInWindow)]; the window start moves only on a reset. *)
Definition spec_fixed_window (throttleWindowSeconds maxAlertsPerWindow : Z)
    (st : gmap string (float * Z)) (path : string) (now : float)
  : bool * gmap string (float * Z) :=
  match st !! path with
  | None => (true, <[path := (now, 1)]> st)
  | Some (windowStart, count) =>
      if float_ge_int (now - windowStart) throttleWindowSeconds then
        (true, <[path := (now, 1)]> st)
      else
        (count + 1 <=? maxAlertsPerWindow, <[path := (windowStart, count + 1)]> st)
  end.

Fixpoint spec_run (window maxn : Z) (st : gmap string (float * Z)) (path : string)
    (times : list float) : list bool :=
  match times with
  | [] => []
  | now :: rest =>
      let (b, st') := spec_fixed_window window maxn st path now in
      b :: spec_run window maxn st' path rest
  end.

(** Successive calls of [send_alert] on one manager. *)
Fixpoint run_alerts (envs : list Env) (event_type file_path : string) (s : State)
    : list (Outcome bool) * State :=
  match envs with
  | [] => ([], s)
  | env :: rest =>
      let (r, s') := send_alert env event_type file_path [] s in
      let (rs, s'') := run_alerts rest event_type file_path s' in
      (r :: rs, s'')
  end.

(** A call at clock reading [t] whose delivery succeeds. *)
Definition delivered_at (t : float) : Env :=
  {| t_check := t; t_stamp := ""; smtp_result := None; t_update := t |}.

(** *** Sample objects: a configuration with a 60 second period and at
    most 3 alerts, and the manager built from it. *)

(** The value of the default recipients text. *)
Definition default_recipients : PyVal :=
  PList [PStr "admin@example.com"; PStr "security@example.com"].

(** A stand-in for [json.loads] that knows the text of the default
    recipients only. *)
Definition sample_json_loads (s : string) : Outcome PyVal :=
  if String.eqb s default_recipients_text then Ret default_recipients
  else Raise {| exn_class := "JSONDecodeError"; exn_str := "Expecting value" |}.

Definition config_60_3 : ConfigParser :=
  cfg_set_section
    (cfg_set_section default_config "Throttling"
       [("throttle_period_seconds", "60"); ("max_alerts_per_file", "3")])
    "AlertLevels" [("modified", "MEDIUM"); ("created", "LOW"); ("deleted", "HIGH")].

(** The sample configuration as a file would give it with a percent sign
    in the level of deletions: [deleted = HIGH 100%]. *)
Definition config_percent : ConfigParser :=
  {| defaults := defaults config_60_3;
     sections := <["AlertLevels" := {[ "deleted" := "HIGH 100%" ]}]> (sections config_60_3) |}.

Definition empty_world : World := {| log := []; outbox := []; fs := ∅ |}.

(** A world whose only file is [path]. *)
Definition world_with (path : string) (f : IniFile) : World :=
  {| log := []; outbox := []; fs := {[ path := f ]} |}.

Definition parse_error : Exn :=
  {| exn_class := "MissingSectionHeaderError";
     exn_str := "File contains no section headers." |}.

Definition smtp_down : Exn :=
  {| exn_class := "ConnectionRefusedError"; exn_str := "[Errno 111] Connection refused" |}.

Definition manager_of (c : ConfigParser) (period : Z) (h : gmap string (float * Z)) : FIMAlertManager :=
  {| config := c;
     email_config := {| smtp_server := "smtp.gmail.com"; smtp_port := 587;
                        sender_email := "your_email@gmail.com";
                        sender_password := "your_app_password";
                        recipient_emails := default_recipients |};
     alert_history := h;
     throttle_period := period |}.

Definition state_60_3 (h : gmap string (float * Z)) : State :=
  {| self := manager_of config_60_3 60 h; world := empty_world |}.

(** *** Abbreviations used in the statements *)

(** The settings of a manager that no method changes. *)
Definition same_settings (m m' : FIMAlertManager) : Prop :=
  config m' = config m /\ email_config m' = email_config m
  /\ throttle_period m' = throttle_period m.

(** Both clock readings of a call are, by the subtraction and the
    comparison of the code, less than [period] seconds after [last]. *)
Definition reads_within (period : Z) (last : float) (env : Env) : bool :=
  float_lt_int (t_check env - last) period && float_lt_int (t_update env - last) period.

(** A burst of calls: every delivery succeeds, and the clock readings of a
    call are less than [period] seconds after the update reading of every
    earlier call. *)
Fixpoint burst (period : Z) (envs : list Env) : bool :=
  match envs with
  | [] => true
  | env :: rest =>
      bool_decide (smtp_result env = None)
      && forallb (reads_within period (t_update env)) rest
      && burst period rest
  end.

(** The value stored for the alert level of an event type: that of
    section [AlertLevels], or of [DEFAULT], under the lower-cased event
    type. *)
Definition stored_level (c : ConfigParser) (event_type : string) : option string :=
  match sections c !! "AlertLevels" with
  | Some d => (d ∪ defaults c) !! lower event_type
  | None => None
  end.

(** The message [_send_email] builds. *)
Definition email_of (self : FIMAlertManager) (to subject body : string) : Email :=
  {| msg_from := sender_email (email_config self); msg_to := to;
     msg_subject := subject; msg_body := body |}.

(** The alert of a call, at a given level. *)
Definition alert_of (self : FIMAlertManager) (env : Env) (alert_level event_type file_path to : string)
    (details : list (string * string)) : Email :=
  email_of self to (alert_subject alert_level event_type file_path)
    (alert_body alert_level event_type (t_stamp env) file_path details).

Definition in_state (s : State) (f : World -> World) : State :=
  {| self := self s; world := f (world s) |}.

End FimAlert.

(** ** hashlib.sha256 *)

Module Sha256.

Local Open Scope N_scope.

Definition mask32 (x : N) : N := N.land x 0xffffffff.
Definition add32 (a b : N) : N := mask32 (a + b).
Definition rotr (n x : N) : N := mask32 (N.lor (N.shiftr x n) (N.shiftl x (32 - n))).
Definition not32 (x : N) : N := N.lxor x 0xffffffff.

Definition Ch (x y z : N) : N := N.lxor (N.land x y) (N.land (not32 x) z).
Definition Maj (x y z : N) : N := N.lxor (N.lxor (N.land x y) (N.land x z)) (N.land y z).
Definition Sigma0 (x : N) : N := N.lxor (N.lxor (rotr 2 x) (rotr 13 x)) (rotr 22 x).
Definition Sigma1 (x : N) : N := N.lxor (N.lxor (rotr 6 x) (rotr 11 x)) (rotr 25 x).
Definition sigma0 (x : N) : N := N.lxor (N.lxor (rotr 7 x) (rotr 18 x)) (N.shiftr x 3).
Definition sigma1 (x : N) : N := N.lxor (N.lxor (rotr 17 x) (rotr 19 x)) (N.shiftr x 10).

(** The round constants (FIPS 180-4, section 4.2.2), in decimal. *)
Definition K : list N :=
  [1116352408; 1899447441; 3049323471; 3921009573; 961987163; 1508970993; 2453635748; 2870763221;
   3624381080; 310598401; 607225278; 1426881987; 1925078388; 2162078206; 2614888103; 3248222580;
   3835390401; 4022224774; 264347078; 604807628; 770255983; 1249150122; 1555081692; 1996064986;
   2554220882; 2821834349; 2952996808; 3210313671; 3336571891; 3584528711; 113926993; 338241895;
   666307205; 773529912; 1294757372; 1396182291; 1695183700; 1986661051; 2177026350; 2456956037;
   2730485921; 2820302411; 3259730800; 3345764771; 3516065817; 3600352804; 4094571909; 275423344;
   430227734; 506948616; 659060556; 883997877; 958139571; 1322822218; 1537002063; 1747873779;
   1955562222; 2024104815; 2227730452; 2361852424; 2428436474; 2756734187; 3204031479; 3329325298].

(** The eight working words. *)
Record Words := { wa : N; wb : N; wc : N; wd : N; we : N; wf : N; wg : N; wh : N }.

Definition H0 : Words :=
  {| wa := 0x6a09e667; wb := 0xbb67ae85; wc := 0x3c6ef372; wd := 0xa54ff53a;
     we := 0x510e527f; wf := 0x9b05688c; wg := 0x1f83d9ab; wh := 0x5be0cd19 |}.

(** Message padding: a [0x80] byte, zeros up to 56 modulo 64, and the bit
    length on 8 bytes, big endian. *)
Definition be_bytes (n : nat) (x : N) : list N :=
  rev (map (fun i => N.land (N.shiftr x (8 * N.of_nat i)) 0xff) (seq 0 n)).

Definition pad (msg : list N) : list N :=
  let len := N.of_nat (length msg) in
  let zeros := N.to_nat ((119 - len mod 64) mod 64) in
  (msg ++ [0x80] ++ repeat 0 zeros ++ be_bytes 8 (8 * len))%list.

Fixpoint be_words (bs : list N) : list N :=
  match bs with
  | b0 :: b1 :: b2 :: b3 :: r =>
      (N.shiftl b0 24 + N.shiftl b1 16 + N.shiftl b2 8 + b3) :: be_words r
  | _ => []
  end.

(** The message schedule, most recent word first. *)
Fixpoint schedule (n : nat) (w_rev : list N) : list N :=
  match n with
  | O => w_rev
  | S n' =>
      let w := add32 (add32 (sigma1 (nth 1 w_rev 0)) (nth 6 w_rev 0))
                     (add32 (sigma0 (nth 14 w_rev 0)) (nth 15 w_rev 0)) in
      schedule n' (w :: w_rev)
  end.

Definition round (s : Words) (kw : N * N) : Words :=
  let t1 := add32 (add32 (add32 (wh s) (Sigma1 (we s))) (Ch (we s) (wf s) (wg s)))
                  (add32 kw.1 kw.2) in
  let t2 := add32 (Sigma0 (wa s)) (Maj (wa s) (wb s) (wc s)) in
  {| wa := add32 t1 t2; wb := wa s; wc := wb s; wd := wc s;
     we := add32 (wd s) t1; wf := we s; wg := wf s; wh := wg s |}.

Definition compress (h : Words) (block : list N) : Words :=
  let w := rev (schedule 48 (rev block)) in
  let s := fold_left round (combine K w) h in
  {| wa := add32 (wa h) (wa s); wb := add32 (wb h) (wb s);
     wc := add32 (wc h) (wc s); wd := add32 (wd h) (wd s);
     we := add32 (we h) (we s); wf := add32 (wf h) (wf s);
     wg := add32 (wg h) (wg s); wh := add32 (wh h) (wh s) |}.

(** Blocks of 16 words. *)
Fixpoint blocks (n : nat) (ws : list N) : list (list N) :=
  match n with
  | O => []
  | S n' =>
      match ws with
      | [] => []
      | _ => firstn 16 ws :: blocks n' (skipn 16 ws)
      end
  end.

Definition digest_words (msg : list N) : Words :=
  let ws := be_words (pad msg) in
  fold_left compress (blocks (length ws) ws) H0.

Definition hex_digit (x : N) : ascii :=
  if x <? 10 then ascii_of_N (48 + x) else ascii_of_N (87 + x).

Definition hex8 (x : N) (rest : string) : string :=
  String (hex_digit (N.land (N.shiftr x 28) 15))
 (String (hex_digit (N.land (N.shiftr x 24) 15))
 (String (hex_digit (N.land (N.shiftr x 20) 15))
 (String (hex_digit (N.land (N.shiftr x 16) 15))
 (String (hex_digit (N.land (N.shiftr x 12) 15))
 (String (hex_digit (N.land (N.shiftr x 8) 15))
 (String (hex_digit (N.land (N.shiftr x 4) 15))
 (String (hex_digit (N.land x 15)) rest))))))).

Definition hex_of_words (s : Words) : string :=
  hex8 (wa s) (hex8 (wb s) (hex8 (wc s) (hex8 (wd s)
    (hex8 (we s) (hex8 (wf s) (hex8 (wg s) (hex8 (wh s) ""))))))).

(** [hashlib.sha256(data).hexdigest()]. *)
Definition hexdigest (data : list Byte.byte) : string :=
  hex_of_words (digest_words (map Byte.to_N data)).

End Sha256.


(** ** project.py *)

Module Project.
Import Py.
Local Open Scope py_scope.

(** *** The file system as the script meets it *)

(** What [os.walk] yields for a directory: the names of its
    sub-directories, each with its own listing, and the names of its other
    entries. *)
Inductive Tree :=
| Listing (dirs : list (string * Tree)) (files : list string).

(** What reading a path gives: [open] raises, or the file opens and the
    successive [f.read(4096)] return these blocks, after which a read either
    returns [b""] (end of file) or raises ([fault]). *)
Inductive FileNode :=
| OpenFails (e : Exn)
| Opened (reads : list (list Byte.byte)) (fault : option Exn).

(** What a snapshot file holds: the whole text of a JSON document, or, when
    the write failed on the way, some part of that text from its start. *)
Inductive Snapshot :=
| Complete (doc : PyVal)
| Partial (doc : PyVal).

(** The records written through [logging] and the snapshot files on disk,
    by path. *)
Record World := {
  log : list LogRecord;
  written : gmap string Snapshot }.

Definition add_log (lvl : Level) (m : string) (w : World) : World :=
  {| log := log w ++ [{| levelname := lvl; message := m |}]; written := written w |}.

Definition logging (lvl : Level) (m : string) : M World unit := modify (add_log lvl m).

Definition write_file (path : string) (content : Snapshot) : M World unit :=
  modify (fun w => {| log := log w; written := <[path := content]> (written w) |}).

(** What one run reads from outside: the walk, the files, the outcome of
    making the directory [baselines], the formatted clock, the outcome of
    opening the snapshot file for writing, and that of writing the document
    to it. *)
Record Env := {
  tree : Tree;
  disk : string -> FileNode;
  makedirs_result : option Exn;
  timestamp : string;
  open_result : option Exn;
  dump_result : option Exn }.

(** *** dict with insertion order, as [json.dump] sees it *)

Fixpoint dict_set (d : list (string * string)) (k v : string) : list (string * string) :=
  match d with
  | [] => [(k, v)]
  | (k', v') :: r => if String.eqb k' k then (k', v) :: r else (k', v') :: dict_set r k v
  end.

Fixpoint dict_get (d : list (string * string)) (k : string) : option string :=
  match d with
  | [] => None
  | (k', v') :: r => if String.eqb k' k then Some v' else dict_get r k
  end.

(** *** The functions of the script *)

(** [open(file_path, "rb")]: a path that holds a NUL character is refused
    with a [ValueError] before the file system is asked. *)
Definition open_rb (disk : string -> FileNode) (file_path : string) : FileNode :=
  if contains "000"%char file_path then OpenFails (ValueError "embedded null byte")
  else disk file_path.

(** The loop [for byte_block in iter(lambda: f.read(4096), b""):
    sha256_hash.update(byte_block)]; the hash object is the bytes fed to it
    so far. *)
Fixpoint read_blocks (reads : list (list Byte.byte)) (fault : option Exn)
    (sha256_hash : list Byte.byte) : Outcome (list Byte.byte) :=
  match reads with
  | [] =>
      match fault with
      | Some e => Raise e
      | None => Ret sha256_hash
      end
  | [] :: _ => Ret sha256_hash
  | byte_block :: rest => read_blocks rest fault (sha256_hash ++ byte_block)
  end.

(** The body of the [try] of [calculate_hash], on what [open] gave. *)
Definition hash_file (f : FileNode) : Outcome string :=
  match f with
  | OpenFails e => Raise e
  | Opened reads fault =>
      obind (read_blocks reads fault []) (fun sha256_hash => Ret (Sha256.hexdigest sha256_hash))
  end.

(** [calculate_hash(file_path)]; [None] is Python's [None].  The clause
    [except (OSError, PermissionError)] catches an [OSError] of any class
    and nothing else. *)
Definition calculate_hash (disk : string -> FileNode) (file_path : string)
  : M World (option string) :=
  try_except_of is_OSError
    (h <- lift (hash_file (open_rb disk file_path)) ;; ret (Some h))
    (fun e =>
       logging ERROR ("Failed to read " ++ file_path ++ ": " ++ exn_str e) ;;
       ret None).

(** [find_files(directory)]: [os.walk] yields a directory, then its
    sub-directories in turn. *)
Fixpoint find_files (directory : string) (t : Tree) : list string :=
  match t with
  | Listing dirs files =>
      (path_join directory <$> files)
      ++ flat_map (fun d => find_files (path_join directory d.1) d.2) dirs
  end.

(** The loop of [create_baseline]; [if file_hash:] holds for a string that
    is not empty. *)
Fixpoint hash_files (disk : string -> FileNode) (files : list string)
    (baseline : list (string * string)) : M World (list (string * string)) :=
  match files with
  | [] => ret baseline
  | file :: rest =>
      file_hash <- calculate_hash disk file ;;
      match file_hash with
      | Some h =>
          if String.eqb h "" then hash_files disk rest baseline
          else hash_files disk rest (dict_set baseline file h)
      | None => hash_files disk rest baseline
      end
  end.

(** The document [json.dump(baseline, f, indent=4)] writes: one member per
    key, the digest as a JSON string. *)
Definition json_of (baseline : list (string * string)) : PyVal :=
  PDict (prod_map id PStr <$> baseline).

(** [create_baseline(directory)].  [open(baseline_file, 'w')] creates the
    file, or empties the one that is there, before [json.dump] writes: a
    write that fails leaves a part of the document behind. *)
Definition create_baseline (env : Env) (directory : string) : M World string :=
  match makedirs_result env with
  | None => ret tt
  | Some e => raise e
  end ;;
  let files := find_files directory (tree env) in
  baseline <- hash_files (disk env) files [] ;;
  let baseline_file := path_join "baselines" ("baseline_" ++ timestamp env ++ ".json") in
  match open_result env with
  | None => ret tt
  | Some e => raise e
  end ;;
  match dump_result env with
  | None => write_file baseline_file (Complete (json_of baseline))
  | Some e => write_file baseline_file (Partial (json_of baseline)) ;; raise e
  end ;;
  logging INFO ("Baseline created with " ++ pretty (length baseline)
                ++ " files. Saved to " ++ baseline_file) ;;
  ret baseline_file.

(** *** Abbreviations used in the statements *)

(** The name of the snapshot a run writes. *)
Definition baseline_file_of (env : Env) : string :=
  path_join "baselines" ("baseline_" ++ timestamp env ++ ".json").

(** [p] is the path [os.walk] gives to a non-directory entry under
    [directory]. *)
Inductive listed : string -> Tree -> string -> Prop :=
| listed_here directory dirs files file :
    file ∈ files -> listed directory (Listing dirs files) (path_join directory file)
| listed_below directory dirs files name sub p :
    (name, sub) ∈ dirs -> listed (path_join directory name) sub p ->
    listed directory (Listing dirs files) p.

(** Every file of the list can be hashed, or fails with an [OSError]. *)
Definition os_failures (disk : string -> FileNode) (files : list string) : bool :=
  forallb (fun file => match hash_file (open_rb disk file) with
                       | Ret _ => true
                       | Raise e => is_OSError e
                       end) files.

(** The record [calculate_hash] logs for a file it cannot read. *)
Definition read_failure (file_path : string) (e : Exn) : LogRecord :=
  {| levelname := ERROR; message := "Failed to read " ++ file_path ++ ": " ++ exn_str e |}.

(** One turn of the loop of [create_baseline], without the log. *)
Definition add_hashed (disk : string -> FileNode) (baseline : list (string * string))
    (file : string) : list (string * string) :=
  match hash_file (open_rb disk file) with
  | Ret h => if String.eqb h "" then baseline else dict_set baseline file h
  | Raise _ => baseline
  end.

(** The records one pass over [files] logs. *)
Definition read_failures (disk : string -> FileNode) (files : list string) : list LogRecord :=
  flat_map (fun file => match hash_file (open_rb disk file) with
                        | Ret _ => []
                        | Raise e => [read_failure file e]
                        end) files.

(** Member [k] of a JSON object; [None] for a value that is not an object
    or has no such member. *)
Definition member (v : PyVal) (k : string) : option PyVal :=
  match v with
  | PDict d => snd <$> find (fun kv => String.eqb kv.1 k) d
  | _ => None
  end.

(** *** Sample runs *)

Definition permission_denied : Exn :=
  {| exn_class := "PermissionError"; exn_str := "[Errno 13] Permission denied" |}.

Definition vanished : Exn :=
  {| exn_class := "FileNotFoundError"; exn_str := "[Errno 2] No such file or directory" |}.

(** [root/a.txt] holds "hello", [root/b.txt] cannot be opened,
    [root/sub/c.txt] holds "world" read in two blocks; any other path has
    vanished. *)
Definition sample_env : Env :=
  {| tree := Listing [("sub", Listing [] ["c.txt"])] ["a.txt"; "b.txt"];
     disk := fun p =>
       if String.eqb p "root/a.txt" then Opened [list_byte_of_string "hello"] None
       else if String.eqb p "root/b.txt" then OpenFails permission_denied
       else if String.eqb p "root/sub/c.txt"
            then Opened [list_byte_of_string "wor"; list_byte_of_string "ld"] None
       else OpenFails vanished;
     makedirs_result := None;
     timestamp := "20240101_000000";
     open_result := None;
     dump_result := None |}.

Definition empty_world : World := {| log := []; written := ∅ |}.

End Project.

(** ** WatchDog.py *)

Module WatchDog.
Import Py.
Local Open Scope py_scope.

(** *** posixpath.abspath *)

(** [path.split('/')]. *)
Fixpoint split_slash (cur : string) (p : string) : list string :=
  match p with
  | EmptyString => [cur]
  | String c r =>
      if Ascii.eqb c "/"%char then cur :: split_slash "" r
      else split_slash (cur ++ String c EmptyString) r
  end.

(** The loop of [normpath] over the components, [new_comps] kept with its
    last component first. *)
Fixpoint norm_comps (initial_slashes : bool) (comps : list string) (new_comps : list string)
  : list string :=
  match comps with
  | [] => rev new_comps
  | comp :: rest =>
      if (String.eqb comp "" || String.eqb comp ".")%bool then
        norm_comps initial_slashes rest new_comps
      else if negb (String.eqb comp "..") then
        norm_comps initial_slashes rest (comp :: new_comps)
      else
        match new_comps with
        | [] =>
            if initial_slashes then norm_comps initial_slashes rest new_comps
            else norm_comps initial_slashes rest (comp :: new_comps)
        | last :: before =>
            if String.eqb last ".." then norm_comps initial_slashes rest (comp :: new_comps)
            else norm_comps initial_slashes rest before
        end
  end.

(** The number of leading slashes [normpath] keeps: two when the path
    starts with exactly two, one when it starts with one or with more. *)
Definition initial_slashes (p : string) : string :=
  match p with
  | String "/" (String "/" (String "/" _)) => "/"
  | String "/" (String "/" _) => "//"
  | String "/" _ => "/"
  | _ => ""
  end.

Definition normpath (p : string) : string :=
  if String.eqb p "" then "."
  else
    let lead := initial_slashes p in
    let path := lead ++ join "/" (norm_comps (negb (String.eqb lead "")) (split_slash "" p) []) in
    if String.eqb path "" then "." else path.

(** [os.path.abspath(path)] with the working directory [cwd]. *)
Definition posix_abspath (cwd : string) (path : string) : string :=
  normpath (if startswith_slash path then path else path_join cwd path).

(** *** The handler *)

(** The kinds of event [watchdog] dispatches; the handler overrides the
    first four methods, the base class does nothing for the others. *)
Inductive EventType := Created | Modified | Deleted | Moved | Closed | Opened.

Record FileSystemEvent := {
  event_type : EventType;
  src_path : string;
  dest_path : string;
  is_directory : bool }.

Record CustomLoggingEventHandler := { log_file : string; user : string }.

Definition logging_info (m : string) : M (list LogRecord) unit :=
  modify (fun log : list LogRecord => (log ++ [{| levelname := INFO; message := m |}])%list).

Definition kind_of (event : FileSystemEvent) : string :=
  if is_directory event then "directory" else "file".

Section Handler.

(** [os.path.abspath], which depends on the platform and on the working
    directory. *)
Variable abspath : string -> string.

Definition __init__ (log_file user : string) : CustomLoggingEventHandler :=
  {| log_file := abspath log_file; user := user |}.

Definition should_ignore (self : CustomLoggingEventHandler) (path : string) : bool :=
  String.eqb (abspath path) (log_file self).

Definition on_created (self : CustomLoggingEventHandler) (event : FileSystemEvent)
  : M (list LogRecord) unit :=
  if should_ignore self (src_path event) then ret tt
  else logging_info ("Created " ++ kind_of event ++ ": " ++ src_path event
                     ++ " - userid:" ++ user self).

Definition on_modified (self : CustomLoggingEventHandler) (event : FileSystemEvent)
  : M (list LogRecord) unit :=
  if should_ignore self (src_path event) then ret tt
  else logging_info ("Modified " ++ kind_of event ++ ": " ++ src_path event
                     ++ " - userid:" ++ user self).

Definition on_deleted (self : CustomLoggingEventHandler) (event : FileSystemEvent)
  : M (list LogRecord) unit :=
  if should_ignore self (src_path event) then ret tt
  else logging_info ("Deleted " ++ kind_of event ++ ": " ++ src_path event
                     ++ " - userid:" ++ user self).

Definition on_moved (self : CustomLoggingEventHandler) (event : FileSystemEvent)
  : M (list LogRecord) unit :=
  if (should_ignore self (src_path event) || should_ignore self (dest_path event))%bool
  then ret tt
  else logging_info ("Renamed " ++ kind_of event ++ ": to " ++ basename (dest_path event)
                     ++ " - userid:" ++ user self).

(** [FileSystemEventHandler.dispatch]: the method of the event's kind. *)
Definition dispatch (self : CustomLoggingEventHandler) (event : FileSystemEvent)
  : M (list LogRecord) unit :=
  match event_type event with
  | Created => on_created self event
  | Modified => on_modified self event
  | Deleted => on_deleted self event
  | Moved => on_moved self event
  | Closed | Opened => ret tt
  end.

End Handler.

End WatchDog.

(** ** fim_alert.py and test_fim_alerts.py: the callers of the manager *)

Module FimAlertExt.
Import Py FimAlert.
Local Open Scope py_scope.

(** Truth value of an argument that is [None] or a [str]. *)
Definition truthy (o : option string) : bool :=
  match o with
  | Some s => negb (String.eqb s "")
  | None => false
  end.

(** The [details] dict of [handle_watchdog_event]. *)
Definition hash_details (old_hash new_hash : option string) : list (string * string) :=
  match old_hash, new_hash with
  | Some o, Some n =>
      if (truthy old_hash && truthy new_hash)%bool
      then [("Previous Hash", o); ("Current Hash", n)]
      else []
  | _, _ => []
  end.

(** A method call on the manager [mgr], a local of the caller: the object
    is dropped when the caller returns. *)
Definition with_manager {A} (mgr : FIMAlertManager) (m : M State A) : M World A :=
  fun w => let (r, s') := m {| self := mgr; world := w |} in (r, world s').

Section Callers.

Variable json_loads : string -> Outcome PyVal.

(** The configuration reads of [__init__] once the configuration is
    loaded. *)
Definition manager_from (config : ConfigParser) : Outcome FIMAlertManager :=
  obind (cfg_get config "Email" "smtp_server") (fun smtp_server =>
  obind (cfg_getint config "Email" "smtp_port") (fun smtp_port =>
  obind (cfg_get config "Email" "sender_email") (fun sender_email =>
  obind (cfg_get config "Email" "sender_password") (fun sender_password =>
  obind (cfg_get config "Email" "recipient_emails") (fun recipients =>
  obind (json_loads recipients) (fun recipient_emails =>
  obind (cfg_getint_fallback config "Throttling" "throttle_period_seconds" 300)
    (fun throttle_period =>
  Ret {| config := config;
         email_config := {| smtp_server := smtp_server; smtp_port := smtp_port;
                            sender_email := sender_email; sender_password := sender_password;
                            recipient_emails := recipient_emails |};
         alert_history := ∅;
         throttle_period := throttle_period |}))))))).

(** [handle_watchdog_event(event_type, file_path, old_hash, new_hash)]. *)
Definition handle_watchdog_event (write_result : option Exn) (env : Env)
    (event_type file_path : string) (old_hash new_hash : option string) : M World unit :=
  alert_manager <- __init__ json_loads write_result "alert_config.ini" ;;
  let details := hash_details old_hash new_hash in
  with_manager alert_manager (send_alert env event_type file_path details) ;;
  ret tt.

(** One event handed to [handle_watchdog_event], with what the call reads
    from outside. *)
Record Event := {
  ev_write : option Exn;
  ev_env : Env;
  ev_type : string;
  ev_path : string;
  ev_old : option string;
  ev_new : option string }.

(** Successive calls of [handle_watchdog_event]. *)
Fixpoint handle_events (events : list Event) (w : World) : list (Outcome unit) * World :=
  match events with
  | [] => ([], w)
  | ev :: rest =>
      let (r, w') := handle_watchdog_event (ev_write ev) (ev_env ev) (ev_type ev) (ev_path ev)
                       (ev_old ev) (ev_new ev) w in
      let (rs, w'') := handle_events rest w' in
      (r :: rs, w'')
  end.

(** *** test_fim_alerts.py *)

(** The namespace [parse_args] returns. *)
Record Args := {
  arg_event_type : string;
  arg_file_path : string;
  arg_old_hash : string;
  arg_new_hash : string;
  arg_details : bool }.

(** What [main] prints, and the world of the alert module. *)
Record Console := { stdout : list string; fim : World }.

Definition print (line : string) : M Console unit :=
  modify (fun c => {| stdout := stdout c ++ [line]; fim := fim c |}).

Definition in_fim {A} (m : M World A) : M Console A :=
  fun c => let (r, w') := m (fim c) in (r, {| stdout := stdout c; fim := w' |}).

(** What [main] reads when [--details] is given: the environment variable
    [USER], the formatted clock and the process id. *)
Record DetailsEnv := { env_user : option string; env_now : string; env_pid : string }.

(** [main()] after [parse_args]; the dict [details] is built and not
    used. *)
Definition main (args : Args) (denv : DetailsEnv) (write_result : option Exn) (env : Env)
  : M Console unit :=
  print ("Testing FIM Alert System with " ++ arg_event_type args ++ " event on "
         ++ arg_file_path args) ;;
  let details :=
    if arg_details args
    then Some [("Previous Hash", arg_old_hash args);
               ("Current Hash", arg_new_hash args);
               ("User", default "unknown" (env_user denv));
               ("Timestamp", env_now denv);
               ("Process ID", env_pid denv)]
    else None in
  in_fim (handle_watchdog_event write_result env (arg_event_type args) (arg_file_path args)
            (Some (arg_old_hash args)) (Some (arg_new_hash args))) ;;
  print "Test alert sent. Check your email and the log file.".

End Callers.

(** *** Runs of the manager over any calls *)

(** One call of [send_alert] with what it reads from outside. *)
Record Call := {
  call_env : Env;
  call_type : string;
  call_path : string;
  call_details : list (string * string) }.

Fixpoint run_calls (calls : list Call) (s : State) : list (Outcome bool) * State :=
  match calls with
  | [] => ([], s)
  | c :: rest =>
      let (r, s') := send_alert (call_env c) (call_type c) (call_path c) (call_details c) s in
      let (rs, s'') := run_calls rest s' in
      (r :: rs, s'')
  end.

(** Every count of the history lies between 1 and the limit (1 when the
    limit is smaller). *)
Definition counts_bounded (maxn : Z) (h : gmap string (float * Z)) : Prop :=
  forall p last c, h !! p = Some (last, c) -> 1 <= c <= Z.max 1 maxn.

(** The results of the calls on [path], in order. *)
Definition results_on (path : string) (calls : list Call) (results : list (Outcome bool))
  : list (Outcome bool) :=
  (filter (fun cr => call_path cr.1 = path) (zip calls results)).*2.

(** A configuration whose [max_alerts_per_file] is not a number. *)
Definition config_bad_max : ConfigParser :=
  cfg_set_section config_60_3 "Throttling"
    [("throttle_period_seconds", "60"); ("max_alerts_per_file", "three")].

(** A configuration without a [Throttling] section. *)
Definition config_no_throttling : ConfigParser :=
  {| defaults := ∅; sections := delete "Throttling" (sections default_config) |}.

Definition permission_error : Exn :=
  {| exn_class := "PermissionError"; exn_str := "[Errno 13] Permission denied" |}.

Definition call_at (t : float) (path : string) : Call :=
  {| call_env := delivered_at t; call_type := "modified"; call_path := path;
     call_details := [] |}.

Definition failing_at (t : float) (path : string) : Call :=
  {| call_env := {| t_check := t; t_stamp := ""; smtp_result := Some smtp_down;
                    t_update := t |};
     call_type := "modified"; call_path := path; call_details := [] |}.

Definition event_at (t : float) (path : string) : Event :=
  {| ev_write := None; ev_env := delivered_at t; ev_type := "modified"; ev_path := path;
     ev_old := Some "abc123"; ev_new := Some "def456" |}.

End FimAlertExt.

(** ** project.py and WatchDog.py: abbreviations for further statements *)

Module ProjectExt.
Import Py Project.

(** A lower-case hexadecimal digit. *)
Definition is_hex (c : ascii) : bool :=
  let n := nat_of_ascii c in
  (((48 <=? n)%nat && (n <=? 57)%nat) || ((97 <=? n)%nat && (n <=? 102)%nat))%bool.

(** The files of a list that can be hashed, each with its digest, in the
    order of the list. *)
Definition hashed (disk : string -> FileNode) (files : list string) : list (string * string) :=
  omap (fun file => match hash_file (open_rb disk file) with
                    | Ret h => Some (file, h)
                    | Raise _ => None
                    end) files.

(** The sample run a second later. *)
Definition sample_env_later : Env :=
  {| tree := tree sample_env; disk := disk sample_env; makedirs_result := None;
     timestamp := "20240101_000001"; open_result := None; dump_result := None |}.

Definition no_space : Exn :=
  {| exn_class := "OSError"; exn_str := "[Errno 28] No space left on device" |}.

(** The sample run when the snapshot file opens and the write fails. *)
Definition sample_env_full_disk : Env :=
  {| tree := tree sample_env; disk := disk sample_env; makedirs_result := None;
     timestamp := "20240101_000000"; open_result := None; dump_result := Some no_space |}.

(** The sample run when the snapshot file cannot be opened. *)
Definition sample_env_read_only : Env :=
  {| tree := tree sample_env; disk := disk sample_env; makedirs_result := None;
     timestamp := "20240101_000000"; open_result := Some permission_denied;
     dump_result := None |}.

(** A world that holds an earlier snapshot under the name the sample run
    writes. *)
Definition earlier_snapshot : World :=
  {| log := [];
     written := {[ "baselines/baseline_20240101_000000.json" := Complete (json_of []) ]} |}.

(** A path with a NUL character in it. *)
Definition nul_path : string := "a" ++ String "000"%char "b".

End ProjectExt.

Module WatchDogExt.
Import WatchDog.

(** The word a handler starts its record with. *)
Definition verb_of (k : EventType) : string :=
  match k with
  | Created => "Created"
  | Modified => "Modified"
  | Deleted => "Deleted"
  | _ => "Renamed"
  end.

End WatchDogExt.


(** ** Facts about the prelude *)

Module PyFacts.
Import Py.

(** The library functions of the prelude on inputs whose Python results
    are known. *)
Example int_examples :
  int "300" = Ret 300 /\ int " -1_000 " = Ret (-1000) /\ int "007" = Ret 7
  /\ int_of_str "1__0" = None /\ int_of_str "" = None
  /\ int_of_str "+ 5" = None /\ int_of_str "5_" = None
  /\ int "three"
     = Raise (ValueError "invalid literal for int() with base 10: 'three'")
  /\ int "it's 3"
     = Raise (ValueError ("invalid literal for int() with base 10: "
                          ++ String dquote ("it's 3" ++ String dquote ""))).
Proof. repeat split; reflexivity. Qed.

Example repr_examples :
  repr "" = "''" /\ repr "HIGH 100%" = "'HIGH 100%'"
  /\ repr "it's" = String dquote ("it's" ++ String dquote "")
  /\ repr ("a" ++ String dquote "b") = "'a" ++ String dquote "b'"
  /\ repr ("it's " ++ String dquote "") = "'it\'s " ++ String dquote "'"
  /\ repr "a\b" = "'a\\b'"
  /\ repr (String "009"%char (String "010"%char (String "000"%char (String "127"%char "")))) 
     = "'\t\n\x00\x7f'"
  /\ String.length (exn_str (invalid_literal (string_of_list_ascii (repeat "x"%char 300))))
     = 240%nat.
Proof. repeat split; vm_compute; reflexivity. Qed.

(** The subtraction rounds: 60.3 - 0.3 is 60 exactly, though the floats
    written 60.3 and 0.3 are less than 60 apart; the comparisons with an
    int are exact, and false on a NaN. *)
Example float_examples :
  (60.3 - 0.3)%float = 60%float
  /\ float_lt_int (60.3 - 0.3) 60 = false /\ float_ge_int (60.3 - 0.3) 60 = true
  /\ float_lt_int (60.2 - 0.3) 60 = true /\ float_ge_int (60.2 - 0.3) 60 = false
  /\ float_lt_int 9007199254740992 9007199254740993 = true
  /\ float_lt_int (50 - 100) 0 = true
  /\ float_lt_int (0 - 0) 0 = false /\ float_ge_int (0 - 0) 0 = true
  /\ float_lt_int nan 60 = false /\ float_ge_int nan 60 = false
  /\ float_lt_int infinity (10 ^ 400) = false /\ float_lt_int neg_infinity (- 10 ^ 400) = true.
Proof. repeat split; vm_compute; reflexivity. Qed.

Example lower_examples :
  lower "Deleted" = "deleted" /\ lower "file_MODIFIED" = "file_modified"
  /\ lower (String "201"%char "") = String "233"%char ""
  /\ lower (String "215"%char "") = String "215"%char "".
Proof. repeat split; reflexivity. Qed.

Example path_examples :
  basename "/etc/passwd" = "passwd" /\ basename "a/b/" = "" /\ basename "abc" = "abc"
  /\ path_join "baselines" "baseline_x.json" = "baselines/baseline_x.json"
  /\ path_join "root/" "a.txt" = "root/a.txt" /\ path_join "root" "/abs" = "/abs".
Proof. repeat split; reflexivity. Qed.

Example normpath_examples :
  WatchDog.normpath <$> [""; "//"; "///"; "a/b/../c"; "/../a"; "../a"; "a/../.."; "//a//b/"]
  = ["."; "//"; "/"; "a/c"; "/a"; "../a"; ".."; "//a/b"].
Proof. reflexivity. Qed.

Example join_examples :
  join_val ", " (PList [PStr "a@x"; PStr "b@x"]) = Ret "a@x, b@x"
  /\ join_val ", " (PStr "ab") = Ret "a, b"
  /\ join_val ", " (PList [PInt 1])
     = Raise (TypeError "sequence item 0: expected str instance, int found")
  /\ join_val ", " PNone = Raise (TypeError "can only join an iterable").
Proof. repeat split; reflexivity. Qed.

Example OSError_examples :
  is_OSError {| exn_class := "PermissionError"; exn_str := "" |} = true
  /\ is_OSError {| exn_class := "FileNotFoundError"; exn_str := "" |} = true
  /\ is_OSError (ValueError "embedded null byte") = false.
Proof. repeat split; reflexivity. Qed.

End PyFacts.

(** ** Facts about the float subtraction *)

Module FloatFacts.
Import Py FloatArith.

Lemma digits2_size (m : positive) : digits2_pos m = Pos.size m.
Proof. induction m; cbn; congruence. Qed.

Lemma digits2_log2 (m : positive) : Zpos (digits2_pos m) = Z.log2 (Zpos m) + 1.
Proof.
  rewrite digits2_size. destruct m; cbn [Z.log2 Pos.size]; lia.
Qed.

Lemma digits2_bounds (m : positive) :
  2 ^ (Zpos (digits2_pos m) - 1) <= Zpos m < 2 ^ Zpos (digits2_pos m).
Proof.
  rewrite digits2_log2. replace (Z.log2 (Z.pos m) + 1 - 1) with (Z.log2 (Z.pos m)) by lia.
  replace (Z.log2 (Z.pos m) + 1) with (Z.succ (Z.log2 (Z.pos m))) by lia.
  apply Z.log2_spec. lia.
Qed.

Lemma nat_iter_add {A} (f : A -> A) (n m : nat) (x : A) :
  Nat.iter (n + m) f x = Nat.iter n f (Nat.iter m f x).
Proof. unfold Nat.iter. induction n as [|n IH]; cbn; [reflexivity | now rewrite IH]. Qed.

Lemma nat_iter_shift {A} (f : A -> A) (n : nat) (x : A) :
  Nat.iter n f (f x) = f (Nat.iter n f x).
Proof. unfold Nat.iter. induction n as [|n IH]; cbn; [reflexivity | now rewrite IH]. Qed.

Lemma iter_pos_nat {A} (f : A -> A) (p : positive) (x : A) :
  SpecFloat.iter_pos f p x = Nat.iter (Pos.to_nat p) f x.
Proof.
  revert x. induction p as [p IH|p IH|]; intros x; cbn [SpecFloat.iter_pos].
  - rewrite !IH, Pos2Nat.inj_xI.
    replace (S (2 * Pos.to_nat p)) with (Pos.to_nat p + S (Pos.to_nat p))%nat by lia.
    rewrite nat_iter_add. change (Nat.iter (S (Pos.to_nat p)) f x)
      with (f (Nat.iter (Pos.to_nat p) f x)). now rewrite nat_iter_shift.
  - rewrite !IH, Pos2Nat.inj_xO.
    replace (2 * Pos.to_nat p)%nat with (Pos.to_nat p + Pos.to_nat p)%nat by lia.
    now rewrite nat_iter_add.
  - reflexivity.
Qed.

Lemma shr_1_inv (m0 j : Z) (mrs : shr_record) :
  0 <= j -> shr_inv m0 j mrs -> shr_inv m0 (j + 1) (shr_1 mrs).
Proof.
  intros Hj (Hm & rem & Hrem & Hm0 & Hloc).
  assert (2 ^ (j + 1) = 2 * 2 ^ j) as Hp by (rewrite Z.pow_add_r by lia; lia).
  assert (0 < 2 ^ j) as Hpos by (apply Z.pow_pos_nonneg; lia).
  destruct mrs as [m r s]. cbn [shr_m shr_r shr_s] in *.
  unfold shr_inv.
  destruct m as [|[p|p|]|p]; try lia; cbn [shr_1 shr_m shr_r shr_s]; (split; [lia|]);
    [exists rem | exists (2 ^ j + rem) | exists rem | exists (2 ^ j + rem)];
    rewrite Hp; destruct r, s; unfold loc_ok in *; cbn [orb]; lia.
Qed.

Lemma shr_iter_inv (m0 : Z) (n : nat) (mrs : shr_record) (j : Z) :
  0 <= j -> shr_inv m0 j mrs -> shr_inv m0 (j + Z.of_nat n) (Nat.iter n shr_1 mrs).
Proof.
  intros Hj Hinv. induction n as [|n IH].
  - cbn. now rewrite Z.add_0_r.
  - change (Nat.iter (S n) shr_1 mrs) with (shr_1 (Nat.iter n shr_1 mrs)).
    replace (j + Z.of_nat (S n)) with (j + Z.of_nat n + 1) by lia.
    apply shr_1_inv; [lia | exact IH].
Qed.

Lemma rne_of_inv (m0 j : Z) (mrs : shr_record) :
  0 <= j -> shr_inv m0 j mrs ->
  round_nearest_even (shr_m mrs) (loc_of_shr_record mrs) = rne m0 j.
Proof.
  intros Hj (Hm & rem & Hrem & Hm0 & Hloc).
  assert (0 < 2 ^ j) as Hpos by (apply Z.pow_pos_nonneg; lia).
  unfold rne.
  assert (m0 / 2 ^ j = shr_m mrs) as Hq.
  { symmetry. apply (Z.div_unique_pos m0 (2 ^ j) (shr_m mrs) rem); lia. }
  assert (m0 mod 2 ^ j = rem) as Hr.
  { symmetry. apply (Z.mod_unique_pos m0 (2 ^ j) (shr_m mrs) rem); lia. }
  rewrite Hq, Hr.
  destruct mrs as [m r s]. cbn [shr_m shr_r shr_s] in *.
  unfold loc_ok in Hloc.
  destruct r, s; cbn [loc_of_shr_record round_nearest_even];
    destruct (Z.compare_spec (2 * rem) (2 ^ j)); try lia; reflexivity.
Qed.

(** [rne] is exact on multiples, monotone, and invariant under scaling. *)

Lemma pow2_pos (j : Z) : 0 <= j -> 0 < 2 ^ j.
Proof. intros. apply Z.pow_pos_nonneg; lia. Qed.

Lemma rne_exact (c j : Z) : 0 <= j -> rne (c * 2 ^ j) j = c.
Proof.
  intros Hj. pose proof (pow2_pos j Hj). unfold rne.
  rewrite Z.div_mul, Z.mod_mul by lia.
  destruct (Z.compare_spec (2 * 0) (2 ^ j)); lia.
Qed.

Lemma rne_mono (N N' j : Z) : 0 <= j -> N <= N' -> rne N j <= rne N' j.
Proof.
  intros Hj Hle. pose proof (pow2_pos j Hj) as Hp. unfold rne.
  pose proof (Z.div_mod N (2 ^ j) ltac:(lia)) as HN.
  pose proof (Z.div_mod N' (2 ^ j) ltac:(lia)) as HN'.
  pose proof (Z.mod_pos_bound N (2 ^ j) Hp) as Hr.
  pose proof (Z.mod_pos_bound N' (2 ^ j) Hp) as Hr'.
  set (q := N / 2 ^ j) in *. set (r := N mod 2 ^ j) in *.
  set (q' := N' / 2 ^ j) in *. set (r' := N' mod 2 ^ j) in *.
  assert (q <= q') as Hq by (subst q q'; apply Z.div_le_mono; lia).
  destruct (Z.eq_dec q q') as [Heq|Hne].
  - assert (r <= r') by nia.
    rewrite <- Heq.
    destruct (Z.compare_spec (2 * r) (2 ^ j)), (Z.compare_spec (2 * r') (2 ^ j));
      try lia; destruct (Z.even q); lia.
  - assert (q + 1 <= q') by lia.
    destruct (Z.compare_spec (2 * r) (2 ^ j)), (Z.compare_spec (2 * r') (2 ^ j));
      try lia; destruct (Z.even q), (Z.even q'); lia.
Qed.

Lemma rne_scale (N j c : Z) : 0 <= j -> 0 <= c -> rne (N * 2 ^ c) (j + c) = rne N j.
Proof.
  intros Hj Hc. pose proof (pow2_pos j Hj). pose proof (pow2_pos c Hc).
  unfold rne. rewrite Z.pow_add_r by lia.
  rewrite Z.div_mul_cancel_r by lia.
  rewrite Z.mul_mod_distr_r by lia.
  replace (2 * (N mod 2 ^ j * 2 ^ c) ?= 2 ^ j * 2 ^ c)
    with (2 * (N mod 2 ^ j) ?= 2 ^ j); [reflexivity|].
  destruct (Z.compare_spec (2 * (N mod 2 ^ j)) (2 ^ j)) as [He|Hl|Hg]; symmetry.
  - apply Z.compare_eq_iff. nia.
  - apply Z.compare_lt_iff. nia.
  - apply Z.compare_gt_iff. nia.
Qed.

Lemma rne_bounds (a b N j : Z) :
  0 <= j -> a * 2 ^ j <= N <= b * 2 ^ j -> a <= rne N j <= b.
Proof.
  intros Hj [Ha Hb]. split.
  - rewrite <- (rne_exact a j Hj). now apply rne_mono.
  - rewrite <- (rne_exact b j Hj). now apply rne_mono.
Qed.

Lemma zdigits_bounds (N : Z) : 0 < N -> 2 ^ (zdigits N - 1) <= N < 2 ^ zdigits N.
Proof.
  intros HN. unfold zdigits.
  replace (Z.log2 N + 1 - 1) with (Z.log2 N) by lia.
  replace (Z.log2 N + 1) with (Z.succ (Z.log2 N)) by lia.
  now apply Z.log2_spec.
Qed.

Lemma zdigits_pos (N : Z) : 0 < N -> 0 < zdigits N.
Proof. intros. unfold zdigits. pose proof (Z.log2_nonneg N). lia. Qed.

Lemma zdigits_mono (N N' : Z) : 0 < N -> N <= N' -> zdigits N <= zdigits N'.
Proof. intros. unfold zdigits. pose proof (Z.log2_le_mono N N'). lia. Qed.

Lemma rexp_nonneg (N : Z) : 0 <= rexp N.
Proof. unfold rexp. lia. Qed.

Lemma pow2_le (a b : Z) : 0 <= a <= b -> 2 ^ a <= 2 ^ b.
Proof. intros. apply Z.pow_le_mono_r; lia. Qed.

Lemma pow2_split (a b : Z) : 0 <= a -> 0 <= b -> 2 ^ (a + b) = 2 ^ a * 2 ^ b.
Proof. intros. apply Z.pow_add_r; lia. Qed.

(** The rounded value lies between the powers of two around [N]. *)
Lemma Rv_bounds (N : Z) : 0 < N -> 2 ^ (zdigits N - 1) <= Rv N <= 2 ^ zdigits N.
Proof.
  intros HN. pose proof (zdigits_bounds N HN) as [Hlo Hhi].
  pose proof (zdigits_pos N HN) as Hd. pose proof (rexp_nonneg N) as He.
  assert (rexp N <= zdigits N - 1) as Hle by (unfold rexp; lia).
  pose proof (pow2_pos (rexp N) He) as Hp.
  unfold Rv.
  assert (2 ^ (zdigits N - 1) = 2 ^ (zdigits N - 1 - rexp N) * 2 ^ rexp N) as E1.
  { rewrite <- pow2_split by lia. f_equal. lia. }
  assert (2 ^ zdigits N = 2 ^ (zdigits N - rexp N) * 2 ^ rexp N) as E2.
  { rewrite <- pow2_split by lia. f_equal. lia. }
  pose proof (rne_bounds (2 ^ (zdigits N - 1 - rexp N)) (2 ^ (zdigits N - rexp N)) N (rexp N) He
                ltac:(lia)) as [Ha Hb].
  rewrite E1, E2. nia.
Qed.

Lemma Rv_pos (N : Z) : 0 < N -> 0 < Rv N.
Proof.
  intros HN. pose proof (Rv_bounds N HN) as [Hlo _].
  pose proof (zdigits_pos N HN). pose proof (pow2_pos (zdigits N - 1) ltac:(lia)). lia.
Qed.

Lemma Rv_mono (N N' : Z) : 0 < N -> N <= N' -> Rv N <= Rv N'.
Proof.
  intros HN Hle.
  pose proof (zdigits_mono N N' HN Hle) as Hd.
  destruct (Z.eq_dec (rexp N) (rexp N')) as [Heq|Hne].
  - unfold Rv. rewrite <- Heq. pose proof (rexp_nonneg N) as He.
    pose proof (pow2_pos _ He). pose proof (rne_mono N N' (rexp N) He Hle). nia.
  - assert (zdigits N < zdigits N') as Hlt by (unfold rexp in Hne; lia).
    pose proof (Rv_bounds N HN) as [_ Hhi].
    pose proof (Rv_bounds N' ltac:(lia)) as [Hlo _].
    pose proof (zdigits_pos N HN).
    pose proof (pow2_le (zdigits N) (zdigits N' - 1) ltac:(lia)). lia.
Qed.

(** [binary_round] in terms of [Rv]. *)

Lemma fexp64 (k : Z) : fexp prec emax k = Z.max (k - 53) (-1074).
Proof. reflexivity. Qed.

Lemma iter_xO (m d : positive) : Zpos (Pos.iter xO m d) = Zpos m * 2 ^ Zpos d.
Proof.
  induction d as [|d IH] using Pos.peano_ind.
  - cbn. lia.
  - rewrite Pos.iter_succ, Pos2Z.inj_succ, Z.pow_succ_r by lia.
    rewrite Pos2Z.inj_xO, IH. lia.
Qed.

Lemma zdigits_pos_eq (m : positive) : Zpos (digits2_pos m) = zdigits (Zpos m).
Proof. apply digits2_log2. Qed.

Lemma zdigits_scale (N c : Z) : 0 < N -> 0 <= c -> zdigits (N * 2 ^ c) = zdigits N + c.
Proof. intros. unfold zdigits. rewrite Z.log2_mul_pow2 by lia. lia. Qed.

(** The mantissa [rne N (rexp N)] is normal: at most 2^53, and at least
    2^52 unless the exponent is the least one. *)
Lemma rne_norm (N : Z) :
  0 < N ->
  0 < rne N (rexp N) <= 2 ^ 53 /\ (0 < rexp N -> 2 ^ 52 <= rne N (rexp N)).
Proof.
  intros HN. pose proof (zdigits_bounds N HN) as [Hlo Hhi].
  pose proof (zdigits_pos N HN) as Hd. pose proof (rexp_nonneg N) as He.
  destruct (Z.eq_dec (rexp N) 0) as [H0|Hne].
  - rewrite H0. replace N with (N * 2 ^ 0) at 1 2 by (cbn; lia). rewrite rne_exact by lia.
    assert (zdigits N <= 53) by (unfold rexp in H0; lia).
    pose proof (pow2_le (zdigits N) 53 ltac:(lia)). split; [lia|]. lia.
  - assert (rexp N = zdigits N - 53) as Hr by (unfold rexp in *; lia).
    assert (2 ^ (zdigits N - 1) = 2 ^ 52 * 2 ^ rexp N) as E1.
    { rewrite <- pow2_split by lia. f_equal. lia. }
    assert (2 ^ zdigits N = 2 ^ 53 * 2 ^ rexp N) as E2.
    { rewrite <- pow2_split by lia. f_equal. lia. }
    pose proof (rne_bounds (2 ^ 52) (2 ^ 53) N (rexp N) He ltac:(lia)) as [Ha Hb].
    split; [|intros _; exact Ha]. split; [|exact Hb].
    assert (0 < 2 ^ 52) by (apply pow2_pos; lia). lia.
Qed.

Lemma round_finish (s : bool) (m1 E : Z) :
  -1074 <= E -> 0 < m1 <= 2 ^ 53 -> (-1074 < E -> 2 ^ 52 <= m1) ->
  let r := (let '(mrs, e) := shr_fexp prec emax m1 E loc_Exact in
            match shr_m mrs with
            | Z0 => S754_zero s
            | Zpos m => if e <=? emax - prec then S754_finite s m e else S754_infinity s
            | _ => S754_nan
            end) in
  (m1 * 2 ^ (E + 1074) < top
   /\ exists m' e', r = S754_finite s m' e' /\ -1074 <= e'
                    /\ Zpos m' * 2 ^ (e' + 1074) = m1 * 2 ^ (E + 1074))
  \/ (top <= m1 * 2 ^ (E + 1074) /\ r = S754_infinity s).
Proof.
  intros HE Hm1 Hnorm r. subst r.
  pose proof (pow2_pos (E + 1074) ltac:(lia)) as Hp.
  destruct (Z.eq_dec m1 (2 ^ 53)) as [->|Hne].
  - (* the mantissa carried into 2^53: one more shift *)
    unfold shr_fexp. change (Zdigits2 (2 ^ 53)) with 54. rewrite fexp64.
    replace (Z.max (54 + E - 53) (-1074) - E) with 1 by lia.
    cbn [shr shr_record_of_loc SpecFloat.iter_pos]. change (2 ^ 53) with (Zpos (xO (Z.to_pos (2 ^ 52)))).
    cbn [shr_1 shr_m]. change (emax - prec) with 971.
    assert (2 ^ 53 * 2 ^ (E + 1074) = 2 ^ (E + 1127)) as Ev.
    { rewrite <- pow2_split by lia. f_equal. lia. }
    change (Z.pos (Z.to_pos (2 ^ 52))~0) with (2 ^ 53). rewrite Ev. unfold top.
    destruct (Z.leb_spec (E + 1) 971).
    + left. split. { apply Z.pow_lt_mono_r; lia. }
      eexists _, _. split; [reflexivity|]. split; [lia|].
      change (Z.pos (Z.to_pos (2 ^ 52))) with (2 ^ 52).
      rewrite <- pow2_split by lia. f_equal. lia.
    + right. split; [|reflexivity]. apply pow2_le. lia.
  - destruct m1 as [|p|p]; try lia.
    pose proof (digits2_bounds p) as [Hlo Hhi].
    set (d := Zpos (digits2_pos p)) in *.
    assert (0 < d) by (subst d; lia).
    assert (d <= 53) as Hd.
    { destruct (Z.le_gt_cases d 53); [assumption|].
      pose proof (pow2_le 53 (d - 1) ltac:(lia)). lia. }
    assert (-1074 < E -> d = 53) as Hd'.
    { intros HE'. specialize (Hnorm HE').
      destruct (Z.le_gt_cases 53 d); [lia|].
      pose proof (pow2_le d 52 ltac:(lia)). lia. }
    unfold shr_fexp. cbn [Zdigits2]. fold d. rewrite fexp64.
    replace (Z.max (d + E - 53) (-1074) - E) with 0 by lia.
    cbn [shr shr_record_of_loc shr_m]. change (emax - prec) with 971.
    unfold top.
    destruct (Z.leb_spec E 971).
    + left. split.
      * apply Z.lt_le_trans with (2 ^ 53 * 2 ^ (E + 1074)); [nia|].
        rewrite <- pow2_split by lia. apply pow2_le. lia.
      * eexists _, _. split; [reflexivity|]. split; [lia|reflexivity].
    + right. split; [|reflexivity].
      specialize (Hnorm ltac:(lia)).
      apply Z.le_trans with (2 ^ 52 * 2 ^ (E + 1074)); [|nia].
      rewrite <- pow2_split by lia. apply pow2_le. lia.
Qed.

Lemma binary_round_spec (s : bool) (m : positive) (e : Z) :
  -1074 <= e ->
  let N := Zpos m * 2 ^ (e + 1074) in
  (Rv N < top
   /\ exists m' e', binary_round prec emax s m e = S754_finite s m' e' /\ -1074 <= e'
                    /\ Zpos m' * 2 ^ (e' + 1074) = Rv N)
  \/ (top <= Rv N /\ binary_round prec emax s m e = S754_infinity s).
Proof.
  intros He N.
  assert (0 < N) as HN by (subst N; pose proof (pow2_pos (e + 1074) ltac:(lia)); nia).
  set (k := Zpos (digits2_pos m) + e).
  assert (zdigits N = k + 1074) as HdN.
  { subst N k. rewrite zdigits_scale by lia. rewrite zdigits_pos_eq. lia. }
  set (E := fexp prec emax k).
  assert (rexp N = E + 1074) as HrN.
  { unfold rexp. rewrite HdN. subst E. rewrite fexp64. lia. }
  assert (-1074 <= E) as HE by (subst E; rewrite fexp64; lia).
  pose proof (rne_norm N HN) as [Hm1 Hnorm]. rewrite HrN in Hm1, Hnorm.
  assert (binary_round prec emax s m e
          = (let '(mrs, e'') := shr_fexp prec emax (rne N (E + 1074)) E loc_Exact in
             match shr_m mrs with
             | Z0 => S754_zero s
             | Zpos m => if e'' <=? emax - prec then S754_finite s m e'' else S754_infinity s
             | _ => S754_nan
             end)) as Hround.
  { unfold binary_round. fold k. fold E. unfold shl_align.
    destruct (E - e) as [|n|d] eqn:Hn.
    - (* E = e: no shift *)
      unfold binary_round_aux, shr_fexp at 1. cbn [Zdigits2]. fold k. fold E. rewrite Hn.
      cbn [shr shr_record_of_loc loc_of_shr_record round_nearest_even shr_m].
      replace e with E by lia.
      replace (rne N (E + 1074)) with (Zpos m); [reflexivity|].
      subst N. replace e with E by lia. now rewrite rne_exact by lia.
    - (* E > e: the mantissa is shifted right and rounded *)
      unfold binary_round_aux, shr_fexp at 1. cbn [Zdigits2]. fold k. fold E. rewrite Hn.
      cbn [shr shr_record_of_loc]. rewrite iter_pos_nat.
      assert (shr_inv (Zpos m) (Zpos n)
                (Nat.iter (Pos.to_nat n) shr_1
                   {| shr_m := Zpos m; shr_r := false; shr_s := false |})) as Hinv.
      { replace (Zpos n) with (0 + Z.of_nat (Pos.to_nat n)) by lia.
        apply shr_iter_inv; [lia|]. split; [cbn; lia|]. exists 0. cbn. lia. }
      rewrite (rne_of_inv (Zpos m) (Zpos n) _ ltac:(lia) Hinv).
      replace (e + Zpos n) with E by lia.
      replace (rne (Zpos m) (Zpos n)) with (rne N (E + 1074)); [reflexivity|].
      subst N. replace (E + 1074) with (Zpos n + (e + 1074)) by lia.
      apply rne_scale; lia.
    - (* E < e: the mantissa is shifted left, exactly *)
      unfold binary_round_aux, shr_fexp at 1. cbn [Zdigits2].
      assert (Zpos (digits2_pos (Pos.iter xO m d)) + E = k) as Hk.
      { rewrite zdigits_pos_eq, iter_xO, zdigits_scale by lia.
        rewrite <- zdigits_pos_eq. subst k. lia. }
      rewrite Hk. fold E. rewrite Z.sub_diag.
      cbn [shr shr_record_of_loc loc_of_shr_record round_nearest_even shr_m].
      replace (rne N (E + 1074)) with (Zpos (Pos.iter xO m d)); [reflexivity|].
      assert (N = Zpos (Pos.iter xO m d) * 2 ^ (E + 1074)) as ->; [|now rewrite rne_exact by lia].
      subst N. rewrite iter_xO. rewrite <- Z.mul_assoc, <- pow2_split by lia.
      f_equal. f_equal. lia. }
  rewrite Hround.
  pose proof (round_finish s (rne N (E + 1074)) E HE Hm1 ltac:(intros; apply Hnorm; lia)) as Hfin.
  cbv zeta in Hfin. unfold Rv. rewrite HrN. exact Hfin.
Qed.


Lemma sf_lt_scaled (s : bool) (m : positive) (e n : Z) :
  -1074 <= e ->
  sf_lt_int (S754_finite s m e) n = (sval (S754_finite s m e) <? n * 2 ^ 1074).
Proof.
  intros He. cbn [sf_lt_int sval]. set (v := if s then Z.neg m else Z.pos m).
  assert (0 < 2 ^ 1074) as H1 by (apply pow2_pos; lia).
  destruct (Z.leb_spec 0 e) as [Hpos|Hneg].
  - rewrite pow2_split by lia. pose proof (pow2_pos e Hpos).
    destruct (Z.ltb_spec (v * 2 ^ e) n), (Z.ltb_spec (v * (2 ^ e * 2 ^ 1074)) (n * 2 ^ 1074));
      try reflexivity; nia.
  - assert (2 ^ 1074 = 2 ^ (- e) * 2 ^ (e + 1074)) as E1.
    { rewrite <- pow2_split by lia. f_equal. lia. }
    pose proof (pow2_pos (- e) ltac:(lia)). pose proof (pow2_pos (e + 1074) ltac:(lia)).
    rewrite E1.
    destruct (Z.ltb_spec v (n * 2 ^ (- e))),
      (Z.ltb_spec (v * 2 ^ (e + 1074)) (n * (2 ^ (- e) * 2 ^ (e + 1074))));
      try reflexivity; nia.
Qed.

Lemma lt_diff_anti (D D' n : Z) : D <= D' -> lt_diff D' n = true -> lt_diff D n = true.
Proof.
  intros Hle. assert (0 < 2 ^ 1074) as H1 by (apply pow2_pos; lia).
  destruct D' as [|p'|p']; destruct D as [|p|p]; try lia; unfold lt_diff;
    rewrite ?andb_true_iff, ?orb_true_iff, ?Z.ltb_lt, ?Z.leb_le.
  - auto.
  - intros H0. right. pose proof (Rv_pos (- Z.neg p) ltac:(lia)). nia.
  - intros [Ha Hb]. pose proof (Rv_pos (Z.pos p') ltac:(lia)). nia.
  - intros [Ha Hb]. pose proof (Rv_mono (Z.pos p) (Z.pos p') ltac:(lia) Hle). lia.
  - intros [Ha Hb]. right. pose proof (Rv_pos (Z.pos p') ltac:(lia)).
    pose proof (Rv_pos (- Z.neg p) ltac:(lia)). lia.
  - pose proof (Rv_mono (- Z.neg p') (- Z.neg p) ltac:(lia) ltac:(lia)). intros [Ha|Hb]; lia.
Qed.

Lemma lt_diff_neg (D n : Z) : D < 0 -> 0 <= n -> lt_diff D n = true.
Proof.
  intros HD Hn. destruct D as [|p|p]; try lia. unfold lt_diff.
  apply orb_true_iff. right. apply Z.ltb_lt.
  pose proof (Rv_pos (- Z.neg p) ltac:(lia)). assert (0 < 2 ^ 1074) by (apply pow2_pos; lia). nia.
Qed.

(** What validity says of a finite float. *)
Lemma valid_finite (s : bool) (m : positive) (e : Z) :
  valid_binary (S754_finite s m e) = true ->
  -1074 <= e <= 971 /\ fexp prec emax (Zpos (digits2_pos m) + e) = e.
Proof.
  cbn [SpecFloat.valid_binary]. unfold bounded, canonical_mantissa.
  rewrite andb_true_iff, Z.eqb_eq, Z.leb_le. change (emax - prec) with 971.
  intros [Hc Hb]. split; [|exact Hc]. rewrite fexp64 in Hc. lia.
Qed.

Lemma valid_mantissa (s : bool) (m : positive) (e : Z) :
  valid_binary (S754_finite s m e) = true ->
  Zpos m < 2 ^ 53 /\ (-1074 < e -> 2 ^ 52 <= Zpos m).
Proof.
  intros Hv. apply valid_finite in Hv as [He Hc]. rewrite fexp64 in Hc.
  pose proof (digits2_bounds m) as [Hlo Hhi]. set (d := Zpos (digits2_pos m)) in *.
  assert (0 < d) by (subst d; lia). split.
  - pose proof (pow2_le d 53 ltac:(lia)). lia.
  - intros He'. assert (d = 53) as Hd by lia. rewrite Hd in Hlo. exact Hlo.
Qed.

(** A valid float is what rounding its own value gives. *)
Lemma round_valid (s : bool) (m : positive) (e : Z) :
  valid_binary (S754_finite s m e) = true ->
  binary_round prec emax s m e = S754_finite s m e.
Proof.
  intros Hv. apply valid_finite in Hv as [He Hc].
  unfold binary_round. rewrite Hc. unfold shl_align. rewrite Z.sub_diag.
  unfold binary_round_aux, shr_fexp. cbn [Zdigits2]. rewrite Hc, Z.sub_diag.
  cbn [shr shr_record_of_loc loc_of_shr_record round_nearest_even shr_m Zdigits2].
  rewrite Hc, Z.sub_diag. cbn [shr shr_m]. change (emax - prec) with 971.
  destruct (Z.leb_spec e 971); [reflexivity | lia].
Qed.

Lemma sf_lt_round (s : bool) (m : positive) (e n : Z) :
  -1074 <= e ->
  sf_lt_int (binary_round prec emax s m e) n
  = lt_diff ((if s then Z.neg m else Z.pos m) * 2 ^ (e + 1074)) n.
Proof.
  intros He. pose proof (pow2_pos (e + 1074) ltac:(lia)) as Hp.
  destruct (binary_round_spec s m e He) as [(Hlt & m' & e' & -> & He' & Hval)|(Hge & ->)].
  - rewrite sf_lt_scaled by assumption. cbn [sval].
    destruct s.
    + assert (exists p, Z.neg m * 2 ^ (e + 1074) = Z.neg p
                        /\ Z.pos p = Z.pos m * 2 ^ (e + 1074)) as (p & Ep & Ep').
      { destruct (Z.neg m * 2 ^ (e + 1074)) as [|p|p] eqn:E; try lia. exists p. split; lia. }
      rewrite Ep. cbn [lt_diff]. change (- Z.neg p) with (Z.pos p). rewrite Ep'.
      replace (Z.neg m' * 2 ^ (e' + 1074)) with (- Rv (Z.pos m * 2 ^ (e + 1074))) by lia.
      destruct (Z.leb_spec top (Rv (Z.pos m * 2 ^ (e + 1074)))); [lia | reflexivity].
    + assert (exists p, Z.pos m * 2 ^ (e + 1074) = Z.pos p) as (p & Ep).
      { destruct (Z.pos m * 2 ^ (e + 1074)) as [|p|p] eqn:E; try lia. now exists p. }
      rewrite Hval. rewrite Ep in *. cbn [lt_diff].
      destruct (Z.ltb_spec (Rv (Z.pos p)) top); [reflexivity | lia].
  - cbn [sf_lt_int]. destruct s.
    + assert (exists p, Z.neg m * 2 ^ (e + 1074) = Z.neg p
                        /\ Z.pos p = Z.pos m * 2 ^ (e + 1074)) as (p & Ep & Ep').
      { destruct (Z.neg m * 2 ^ (e + 1074)) as [|p|p] eqn:E; try lia. exists p. split; lia. }
      rewrite Ep. cbn [lt_diff]. change (- Z.neg p) with (Z.pos p). rewrite Ep'.
      destruct (Z.leb_spec top (Rv (Z.pos m * 2 ^ (e + 1074)))); [reflexivity | lia].
    + assert (exists p, Z.pos m * 2 ^ (e + 1074) = Z.pos p) as (p & Ep).
      { destruct (Z.pos m * 2 ^ (e + 1074)) as [|p|p] eqn:E; try lia. now exists p. }
      rewrite Ep in *. cbn [lt_diff].
      destruct (Z.ltb_spec (Rv (Z.pos p)) top); [lia | reflexivity].
Qed.

(** Valid floats compare as their values do. *)
Lemma canonical_lt (s1 s2 : bool) (m1 m2 : positive) (e1 e2 : Z) :
  valid_binary (S754_finite s1 m1 e1) = true ->
  valid_binary (S754_finite s2 m2 e2) = true ->
  e1 < e2 -> Zpos m1 * 2 ^ (e1 + 1074) < Zpos m2 * 2 ^ (e2 + 1074).
Proof.
  intros H1 H2 Hlt.
  pose proof (valid_finite _ _ _ H1) as [He1 _]. pose proof (valid_finite _ _ _ H2) as [He2 _].
  apply valid_mantissa in H1 as [Hm1 _]. apply valid_mantissa in H2 as [_ Hm2].
  specialize (Hm2 ltac:(lia)).
  pose proof (pow2_pos (e1 + 1074) ltac:(lia)). pose proof (pow2_pos (e2 + 1074) ltac:(lia)).
  assert (2 ^ 53 * 2 ^ (e1 + 1074) <= 2 ^ 52 * 2 ^ (e2 + 1074)) as Hle.
  { rewrite <- !pow2_split by lia. apply pow2_le. lia. }
  nia.
Qed.

Lemma compare_cont_spec (m1 m2 : positive) :
  Pos.compare_cont Eq m1 m2 = (Zpos m1 ?= Zpos m2).
Proof. reflexivity. Qed.

Lemma SFcompare_sval (x y : spec_float) (c : comparison) :
  valid_binary x = true -> valid_binary y = true ->
  is_fin x = true -> is_fin y = true ->
  SFcompare x y = Some c -> (sval x ?= sval y) = c.
Proof.
  intros Hx Hy Fx Fy.
  destruct x as [sx|sx| |sx mx ex], y as [sy|sy| |sy my ey]; try discriminate Fx;
    try discriminate Fy; cbn [SFcompare sval]; intros [= <-].
  - reflexivity.
  - pose proof (valid_finite _ _ _ Hy) as [He _].
    pose proof (pow2_pos (ey + 1074) ltac:(lia)).
    destruct sy; [apply Z.compare_gt_iff | apply Z.compare_lt_iff]; nia.
  - pose proof (valid_finite _ _ _ Hx) as [He _].
    pose proof (pow2_pos (ex + 1074) ltac:(lia)).
    destruct sx; [apply Z.compare_lt_iff | apply Z.compare_gt_iff]; nia.
  - pose proof (valid_finite _ _ _ Hx) as [Hex _]. pose proof (valid_finite _ _ _ Hy) as [Hey _].
    pose proof (pow2_pos (ex + 1074) ltac:(lia)). pose proof (pow2_pos (ey + 1074) ltac:(lia)).
    destruct sx, sy.
    + destruct (Z.compare_spec ex ey) as [->|Hlt|Hgt].
      * rewrite compare_cont_spec.
        destruct (Z.compare_spec (Zpos mx) (Zpos my)); cbn [CompOpp];
          [apply Z.compare_eq_iff | apply Z.compare_gt_iff | apply Z.compare_lt_iff]; nia.
      * pose proof (canonical_lt _ _ _ _ _ _ Hx Hy Hlt). apply Z.compare_gt_iff. lia.
      * pose proof (canonical_lt _ _ _ _ _ _ Hy Hx ltac:(lia)). apply Z.compare_lt_iff. lia.
    + apply Z.compare_lt_iff. nia.
    + apply Z.compare_gt_iff. nia.
    + destruct (Z.compare_spec ex ey) as [->|Hlt|Hgt].
      * rewrite compare_cont_spec.
        destruct (Z.compare_spec (Zpos mx) (Zpos my));
          [apply Z.compare_eq_iff | apply Z.compare_lt_iff | apply Z.compare_gt_iff]; nia.
      * pose proof (canonical_lt _ _ _ _ _ _ Hx Hy Hlt). apply Z.compare_lt_iff. lia.
      * pose proof (canonical_lt _ _ _ _ _ _ Hy Hx ltac:(lia)). apply Z.compare_gt_iff. lia.
Qed.

(** The aligned mantissa [shl_align] gives for an exponent not above the
    float's own. *)
Lemma shl_align_fst (m : positive) (e ez : Z) :
  ez <= e -> Zpos (fst (shl_align m e ez)) = Zpos m * 2 ^ (e - ez).
Proof.
  intros Hle. unfold shl_align. destruct (ez - e) as [|p|p] eqn:E; try lia; cbn [fst].
  - replace (e - ez) with 0 by lia. cbn. lia.
  - rewrite iter_xO. f_equal. f_equal. lia.
Qed.

(** The difference of two finite floats, compared with an integer. *)
Lemma sf_lt_sub (x y : spec_float) (n : Z) :
  valid_binary x = true -> valid_binary y = true ->
  is_fin x = true -> is_fin y = true ->
  sf_lt_int (SFsub prec emax x y) n = lt_diff (sval x - sval y) n.
Proof.
  intros Hx Hy Fx Fy.
  destruct x as [sx|sx| |sx mx ex], y as [sy|sy| |sy my ey]; try discriminate Fx;
    try discriminate Fy; cbn [SFsub sval].
  - destruct sx, sy; reflexivity.
  - pose proof (valid_finite _ _ _ Hy) as [He _].
    assert (valid_binary (S754_finite (negb sy) my ey) = true) as Hy' by exact Hy.
    rewrite <- (round_valid _ _ _ Hy'), sf_lt_round by lia. f_equal. destruct sy; cbn [negb]; lia.
  - pose proof (valid_finite _ _ _ Hx) as [He _].
    rewrite <- (round_valid _ _ _ Hx), sf_lt_round by lia. f_equal. lia.
  - pose proof (valid_finite _ _ _ Hx) as [Hex _]. pose proof (valid_finite _ _ _ Hy) as [Hey _].
    set (ez := Z.min ex ey).
    assert (ez <= ex /\ ez <= ey /\ -1074 <= ez) as (Hz1 & Hz2 & Hz3) by (unfold ez; lia).
    clearbody ez.
    rewrite !shl_align_fst by lia.
    set (M := cond_Zopp sx (Z.pos mx * 2 ^ (ex - ez)) - cond_Zopp sy (Z.pos my * 2 ^ (ey - ez))).
    assert ((if sx then Z.neg mx else Z.pos mx) * 2 ^ (ex + 1074)
            - (if sy then Z.neg my else Z.pos my) * 2 ^ (ey + 1074)
            = M * 2 ^ (ez + 1074)) as ->.
    { subst M.
      assert (2 ^ (ex + 1074) = 2 ^ (ex - ez) * 2 ^ (ez + 1074)) as ->
        by (rewrite <- pow2_split by lia; f_equal; lia).
      assert (2 ^ (ey + 1074) = 2 ^ (ey - ez) * 2 ^ (ez + 1074)) as ->
        by (rewrite <- pow2_split by lia; f_equal; lia).
      change (Z.neg mx) with (- Z.pos mx). change (Z.neg my) with (- Z.pos my).
      destruct sx, sy; cbn [cond_Zopp]; ring. }
    unfold binary_normalize. destruct M as [|p|p].
    + reflexivity.
    + now rewrite sf_lt_round by lia.
    + now rewrite sf_lt_round by lia.
Qed.


Lemma SFltb_sval (x y : spec_float) :
  valid_binary x = true -> valid_binary y = true -> is_fin x = true -> is_fin y = true ->
  SFltb x y = true -> sval x < sval y.
Proof.
  intros Hx Hy Fx Fy. unfold SFltb. destruct (SFcompare x y) as [c|] eqn:Hc; [|discriminate].
  apply (SFcompare_sval _ _ _ Hx Hy Fx Fy) in Hc. destruct c; try discriminate.
  intros _. now apply Z.compare_lt_iff.
Qed.

Lemma SFleb_sval (x y : spec_float) :
  valid_binary x = true -> valid_binary y = true -> is_fin x = true -> is_fin y = true ->
  SFleb x y = true -> sval x <= sval y.
Proof.
  intros Hx Hy Fx Fy. unfold SFleb. destruct (SFcompare x y) as [c|] eqn:Hc; [|discriminate].
  apply (SFcompare_sval _ _ _ Hx Hy Fx Fy) in Hc. destruct c; try discriminate; intros _.
  - apply Z.compare_eq_iff in Hc. now apply Z.eq_le_incl.
  - apply Z.compare_lt_iff in Hc. now apply Z.lt_le_incl.
Qed.

(** A difference that is negative is below every integer that is not. *)
Lemma float_sub_neg (a b : float) (n : Z) :
  PrimFloat.ltb a b = true -> 0 <= n -> float_lt_int (PrimFloat.sub a b) n = true.
Proof.
  unfold float_lt_int. rewrite ltb_spec, sub_spec. unfold SF64sub.
  pose proof (Prim2SF_valid a) as Ha. pose proof (Prim2SF_valid b) as Hb.
  destruct (is_fin (Prim2SF a)) eqn:Fa, (is_fin (Prim2SF b)) eqn:Fb.
  - intros Hlt Hn. rewrite sf_lt_sub by assumption.
    apply lt_diff_neg; [|assumption]. pose proof (SFltb_sval _ _ Ha Hb Fa Fb Hlt) as Hv.
    now apply Z.lt_sub_0.
  - destruct (Prim2SF a) as [sa|sa| |sa ma ea], (Prim2SF b) as [sb|[]| |sb mb eb];
      try discriminate; intros _ _; reflexivity.
  - destruct (Prim2SF a) as [sa|[]| |sa ma ea], (Prim2SF b) as [sb|sb| |sb mb eb];
      try discriminate; intros _ _; reflexivity.
  - destruct (Prim2SF a) as [sa|[]| |sa ma ea], (Prim2SF b) as [sb|[]| |sb mb eb];
      try discriminate; intros _ _; reflexivity.
Qed.

(** The float subtraction is monotone in its first argument, as far as a
    comparison with an integer can tell. *)
Lemma float_sub_mono (a b l : float) (n : Z) :
  PrimFloat.leb a b = true ->
  float_lt_int (PrimFloat.sub b l) n = true -> float_lt_int (PrimFloat.sub a l) n = true.
Proof.
  unfold float_lt_int. rewrite leb_spec, !sub_spec. unfold SF64sub.
  pose proof (Prim2SF_valid a) as Ha. pose proof (Prim2SF_valid b) as Hb.
  pose proof (Prim2SF_valid l) as Hl.
  destruct (is_fin (Prim2SF a)) eqn:Fa, (is_fin (Prim2SF b)) eqn:Fb,
    (is_fin (Prim2SF l)) eqn:Fl.
  - intros Hle. rewrite !sf_lt_sub by assumption. apply lt_diff_anti.
    pose proof (SFleb_sval _ _ Ha Hb Fa Fb Hle) as Hv.
    now apply Z.sub_le_mono_r.
  - destruct (Prim2SF a) as [sa|[]| |sa ma ea], (Prim2SF b) as [sb|[]| |sb mb eb],
      (Prim2SF l) as [sl|[]| |sl ml el]; try discriminate; intros _; trivial.
  - destruct (Prim2SF a) as [sa|[]| |sa ma ea], (Prim2SF b) as [sb|[]| |sb mb eb],
      (Prim2SF l) as [sl|[]| |sl ml el]; try discriminate; intros _; trivial.
  - destruct (Prim2SF a) as [sa|[]| |sa ma ea], (Prim2SF b) as [sb|[]| |sb mb eb],
      (Prim2SF l) as [sl|[]| |sl ml el]; try discriminate; intros _; trivial.
  - destruct (Prim2SF a) as [sa|[]| |sa ma ea], (Prim2SF b) as [sb|[]| |sb mb eb],
      (Prim2SF l) as [sl|[]| |sl ml el]; try discriminate; intros _; trivial.
  - destruct (Prim2SF a) as [sa|[]| |sa ma ea], (Prim2SF b) as [sb|[]| |sb mb eb],
      (Prim2SF l) as [sl|[]| |sl ml el]; try discriminate; intros _; trivial.
  - destruct (Prim2SF a) as [sa|[]| |sa ma ea], (Prim2SF b) as [sb|[]| |sb mb eb],
      (Prim2SF l) as [sl|[]| |sl ml el]; try discriminate; intros _; trivial.
  - destruct (Prim2SF a) as [sa|[]| |sa ma ea], (Prim2SF b) as [sb|[]| |sb mb eb],
      (Prim2SF l) as [sl|[]| |sl ml el]; try discriminate; intros _; trivial.
Qed.

End FloatFacts.

(** ** Facts about project.py *)

Module ProjectFacts.
Import Py Project.
Local Open Scope py_scope.

Lemma hexdigest_nonempty (data : list Byte.byte) : Sha256.hexdigest data <> "".
Proof. unfold Sha256.hexdigest, Sha256.hex_of_words, Sha256.hex8. discriminate. Qed.

(** The digests agree with the test vectors of FIPS 180-4: the empty
    message, one block, and a 56 byte message that pads into two blocks. *)
Example hexdigest_vectors :
  Sha256.hexdigest []
  = "e3b0c44298fc1c149afbf4c8996fb92427ae41e4649b934ca495991b7852b855"
  /\ Sha256.hexdigest (list_byte_of_string "abc")
     = "ba7816bf8f01cfea414140de5dae2223b00361a396177a9cb410ff61f20015ad"
  /\ Sha256.hexdigest
       (list_byte_of_string "abcdbcdecdefdefgefghfghighijhijkijkljklmklmnlmnomnopnopq")
     = "248d6a61d20638b8e5c026930c3e6039a33ce45964ff2167f6ecedd419db06c1".
Proof. repeat split; vm_compute; reflexivity. Qed.

Lemma hash_file_nonempty (f : FileNode) (h : string) : hash_file f = Ret h -> h <> "".
Proof.
  destruct f as [e|reads fault]; cbn; [discriminate|].
  destruct (read_blocks reads fault []); cbn; [|discriminate].
  intros [= <-]. apply hexdigest_nonempty.
Qed.

Lemma dict_get_set (d : list (string * string)) (k v k' : string) :
  dict_get (dict_set d k v) k' = if decide (k = k') then Some v else dict_get d k'.
Proof.
  induction d as [|[k0 v0] d IH]; cbn.
  - destruct (String.eqb_spec k k'), (decide (k = k')); congruence.
  - destruct (String.eqb_spec k0 k) as [->|Hne]; cbn.
    + destruct (String.eqb_spec k k'), (decide (k = k')); congruence.
    + rewrite IH. destruct (String.eqb_spec k0 k'), (decide (k = k')); congruence.
Qed.

Lemma dict_set_keys (d : list (string * string)) (k v : string) :
  (dict_set d k v).*1 = if decide (k ∈ d.*1) then d.*1 else (d.*1 ++ [k])%list.
Proof.
  induction d as [|[k0 v0] d IH]; cbn.
  - destruct (decide (k ∈ [])) as [Hin|]; [inversion Hin | reflexivity].
  - destruct (String.eqb_spec k0 k) as [->|Hne]; cbn.
    + destruct (decide (k ∈ k :: d.*1)) as [|Hn]; [reflexivity|]. exfalso. apply Hn. left.
    + rewrite IH. destruct (decide (k ∈ d.*1)), (decide (k ∈ k0 :: d.*1)) as [Hin|Hn];
        try reflexivity.
      * exfalso. apply Hn. now right.
      * apply elem_of_cons in Hin as [->|]; congruence.
Qed.

Lemma dict_set_NoDup (d : list (string * string)) (k v : string) :
  NoDup d.*1 -> NoDup (dict_set d k v).*1.
Proof.
  intros Hd. rewrite dict_set_keys. destruct (decide (k ∈ d.*1)); [assumption|].
  apply NoDup_app. repeat split; [assumption | | apply NoDup_singleton].
  intros x Hx Hk. apply list_elem_of_singleton in Hk. congruence.
Qed.

(** [calculate_hash] by cases: the digest; [None] and one ERROR record for
    an [OSError]; any other exception goes on to the caller. *)
Lemma calculate_hash_cases (disk : string -> FileNode) (file_path : string) (w : World) :
  calculate_hash disk file_path w
  = match hash_file (open_rb disk file_path) with
    | Ret h => (Ret (Some h), w)
    | Raise e =>
        if is_OSError e
        then (Ret None, {| log := log w ++ [read_failure file_path e]; written := written w |})
        else (Raise e, w)
    end.
Proof.
  unfold calculate_hash, try_except_of, bind, lift, ret, logging, modify.
  destruct (hash_file (open_rb disk file_path)) as [h|e]; [reflexivity|].
  destruct (is_OSError e); reflexivity.
Qed.

(** When no file fails but with an [OSError], the loop does not raise: it
    returns the baseline built from the files that could be hashed and logs
    one record per file that could not. *)
Lemma hash_files_run (disk : string -> FileNode) (files : list string)
    (baseline : list (string * string)) (w : World) :
  os_failures disk files = true ->
  hash_files disk files baseline w
  = (Ret (foldl (add_hashed disk) baseline files),
     {| log := log w ++ read_failures disk files; written := written w |}).
Proof.
  revert baseline w. induction files as [|file rest IH]; intros baseline w Hos.
  - cbn. unfold ret. rewrite app_nil_r. now destruct w.
  - cbn [os_failures forallb] in Hos. apply andb_prop in Hos as [Hfile Hrest].
    cbn [hash_files foldl read_failures flat_map]. unfold bind.
    rewrite calculate_hash_cases. unfold add_hashed at 2.
    destruct (hash_file (open_rb disk file)) as [h|e].
    + destruct (String.eqb h ""); rewrite (IH _ _ Hrest); reflexivity.
    + rewrite Hfile, (IH _ _ Hrest). cbn [log written]. rewrite <- app_assoc. reflexivity.
Qed.

(** An entry of the baseline is a file of the list together with its digest;
    entries present before the loop stay unless such a file replaces them. *)
Lemma baseline_lookup (disk : string -> FileNode) (files : list string)
    (baseline : list (string * string)) (f : string) :
  dict_get (foldl (add_hashed disk) baseline files) f
  = match hash_file (open_rb disk f) with
    | Ret h => if decide (f ∈ files) then Some h else dict_get baseline f
    | Raise _ => dict_get baseline f
    end.
Proof.
  revert baseline. induction files as [|file rest IH]; intros baseline; cbn [foldl].
  - destruct (hash_file (open_rb disk f)); [|reflexivity].
    destruct (decide (f ∈ [])) as [Hin|]; [inversion Hin | reflexivity].
  - rewrite IH. unfold add_hashed.
    destruct (hash_file (open_rb disk f)) as [h|e] eqn:Hf.
    + destruct (decide (f ∈ rest)) as [Hin|Hnin].
      * destruct (decide (f ∈ file :: rest)) as [|Hn]; [reflexivity|].
        exfalso. apply Hn. now right.
      * destruct (decide (f ∈ file :: rest)) as [Hin|Hn].
        -- apply elem_of_cons in Hin as [->|]; [|contradiction].
           rewrite Hf. destruct (String.eqb_spec h "") as [->|_].
           ++ now apply hash_file_nonempty in Hf.
           ++ rewrite dict_get_set. now destruct (decide (file = file)).
        -- destruct (hash_file (open_rb disk file)) as [h'|]; [|reflexivity].
           destruct (String.eqb h' ""); [reflexivity|].
           rewrite dict_get_set. destruct (decide (file = f)) as [->|]; [|reflexivity].
           exfalso. apply Hn. left.
    + destruct (hash_file (open_rb disk file)) as [h'|] eqn:Hfile; [|reflexivity].
      destruct (String.eqb h' ""); [reflexivity|].
      rewrite dict_get_set. destruct (decide (file = f)) as [->|]; [congruence|reflexivity].
Qed.

Lemma baseline_NoDup (disk : string -> FileNode) (files : list string)
    (baseline : list (string * string)) :
  NoDup baseline.*1 -> NoDup (foldl (add_hashed disk) baseline files).*1.
Proof.
  revert baseline. induction files as [|file rest IH]; intros baseline Hd; cbn [foldl].
  - assumption.
  - apply IH. unfold add_hashed. destruct (hash_file (open_rb disk file)) as [h|]; [|assumption].
    destruct (String.eqb h ""); [assumption|]. now apply dict_set_NoDup.
Qed.

Lemma read_failures_elem (disk : string -> FileNode) (files : list string) (f : string) (e : Exn) :
  f ∈ files -> hash_file (open_rb disk f) = Raise e -> read_failure f e ∈ read_failures disk files.
Proof.
  intros Hin Hf. unfold read_failures. apply list_elem_of_In, in_flat_map.
  exists f. split; [now apply list_elem_of_In|]. rewrite Hf. now left.
Qed.

(** Induction on a listing, with the hypothesis for every sub-directory. *)
Lemma Tree_nested_ind (P : Tree -> Prop) :
  (forall dirs files, Forall (fun d => P d.2) dirs -> P (Listing dirs files)) ->
  forall t, P t.
Proof.
  intros Hstep. fix IH 1. intros [dirs files]. apply Hstep.
  induction dirs as [|d dirs IHdirs]; constructor; [apply IH | exact IHdirs].
Qed.

(** [find_files] returns the listed files, all of them and nothing else. *)
Lemma find_files_listed (directory : string) (t : Tree) (p : string) :
  p ∈ find_files directory t <-> listed directory t p.
Proof.
  split.
  - revert directory. induction t as [dirs files IH] using Tree_nested_ind.
    intros directory. cbn [find_files]. rewrite elem_of_app. intros [Hhere|Hbelow].
    + apply list_elem_of_fmap in Hhere as (file & -> & Hfile). now constructor.
    + apply list_elem_of_In, in_flat_map in Hbelow as ([name sub] & Hd & Hp).
      apply list_elem_of_In in Hd, Hp.
      apply (listed_below _ _ _ name sub); [assumption|].
      rewrite Forall_forall in IH. exact (IH (name, sub) Hd _ Hp).
  - induction 1 as [directory dirs files file Hin | directory dirs files name sub p Hin _ IH];
      cbn [find_files]; apply elem_of_app.
    + left. now apply list_elem_of_fmap_2.
    + right. apply list_elem_of_In, in_flat_map. exists (name, sub).
      split; now apply list_elem_of_In.
Qed.

(** [create_baseline] when the directory [baselines] can be made, the
    snapshot can be written, and no file fails but with an [OSError]. *)
Lemma create_baseline_run (env : Env) (directory : string) (w : World) :
  makedirs_result env = None ->
  open_result env = None ->
  dump_result env = None ->
  os_failures (disk env) (find_files directory (tree env)) = true ->
  let baseline := foldl (add_hashed (disk env)) [] (find_files directory (tree env)) in
  create_baseline env directory w
  = (Ret (baseline_file_of env),
     {| log := log w ++ read_failures (disk env) (find_files directory (tree env))
               ++ [{| levelname := INFO;
                      message := "Baseline created with " ++ pretty (length baseline)
                                 ++ " files. Saved to " ++ baseline_file_of env |}];
        written := <[baseline_file_of env := Complete (json_of baseline)]> (written w) |}).
Proof.
  intros Hmk Hopen Hdump Hos baseline. unfold create_baseline. rewrite Hmk, Hopen, Hdump.
  unfold bind at 1. unfold ret at 1. unfold bind at 1. rewrite (hash_files_run _ _ _ _ Hos).
  unfold bind, write_file, logging, modify, ret, add_log. cbn [log written].
  rewrite <- app_assoc. reflexivity.
Qed.

Lemma baseline_file_name (env : Env) :
  baseline_file_of env = "baselines/baseline_" ++ timestamp env ++ ".json".
Proof. reflexivity. Qed.

Lemma dict_get_elem (d : list (string * string)) (k v : string) :
  NoDup d.*1 -> (k, v) ∈ d -> dict_get d k = Some v.
Proof.
  induction d as [|[k0 v0] d IH]; cbn; intros Hd Hin; [inversion Hin|].
  apply NoDup_cons in Hd as [Hk0 Hd].
  apply elem_of_cons in Hin as [[= -> ->]|Hin].
  - now rewrite String.eqb_refl.
  - destruct (String.eqb_spec k0 k) as [->|_]; [|now apply IH].
    exfalso. apply Hk0. apply list_elem_of_fmap. now exists (k, v).
Qed.

Lemma member_json_of (baseline : list (string * string)) (f : string) :
  member (json_of baseline) f = PStr <$> dict_get baseline f.
Proof.
  unfold json_of, member. induction baseline as [|[k v] d IH]; cbn; [reflexivity|].
  destruct (String.eqb k f); [reflexivity|]. exact IH.
Qed.

(** *** C4: files the hasher fails on *)

(** C4 as stated does not hold in one respect: the record logged for a file
    that cannot be read has level ERROR, not WARNING.  In the sample run
    [root/b.txt] cannot be opened; the log of the run holds one ERROR record
    for it and the closing INFO record, and no WARNING record. *)
Lemma C4_warning_counterexample :
  hash_file (open_rb (disk sample_env) "root/b.txt") = Raise permission_denied
  /\ log (snd (create_baseline sample_env "root" empty_world))
     = [{| levelname := ERROR;
           message := "Failed to read root/b.txt: [Errno 13] Permission denied" |};
        {| levelname := INFO;
           message := "Baseline created with 2 files. Saved to baselines/baseline_20240101_000000.json" |}]
  /\ Forall (fun r => levelname r <> WARNING)
        (log (snd (create_baseline sample_env "root" empty_world))).
Proof.
  split; [reflexivity|]. split; [vm_compute; reflexivity|].
  vm_compute. repeat constructor; discriminate.
Qed.

(** C4 (amended): provided the directory [baselines] and the snapshot can
    be written, [create_baseline] returns normally whatever files fail to
    hash with an [OSError] -- a permission error, a file that has
    disappeared.  Every file [os.walk] lists is attempted; the baseline
    written holds an entry for a path exactly when the path was listed and
    its digest was computed, with that digest; a file on which the hasher
    fails gets no entry and one record at level ERROR,
    "Failed to read <path>: <error>". *)
Theorem C4_unreadable_files_skipped (env : Env) (directory : string) (w : World) :
  makedirs_result env = None ->
  open_result env = None ->
  dump_result env = None ->
  os_failures (disk env) (find_files directory (tree env)) = true ->
  exists baseline w',
    create_baseline env directory w = (Ret (baseline_file_of env), w')
    /\ written w' !! baseline_file_of env = Some (Complete (json_of baseline))
    /\ (forall f h, dict_get baseline f = Some h
                    <-> listed directory (tree env) f
                        /\ hash_file (open_rb (disk env) f) = Ret h)
    /\ (forall f e, listed directory (tree env) f ->
                    hash_file (open_rb (disk env) f) = Raise e ->
                    dict_get baseline f = None /\ read_failure f e ∈ log w').
Proof.
  intros Hmk Hopen Hdump Hos. eexists. eexists. split; [now apply create_baseline_run|].
  cbn [written log]. split; [apply lookup_insert_eq|]. split.
  - intros f h. rewrite baseline_lookup, <- find_files_listed.
    destruct (hash_file (open_rb (disk env) f)) as [h'|e]; cbn [dict_get].
    + destruct (decide (f ∈ find_files directory (tree env))); split;
        try intros (? & ?); try split; congruence.
    + split; [discriminate|]. now intros (_ & ?).
  - intros f e Hin Hf. apply find_files_listed in Hin.
    rewrite baseline_lookup, Hf. split; [reflexivity|].
    apply elem_of_app. right. apply elem_of_app. left. now apply read_failures_elem.
Qed.

Lemma C4_unreadable_files_skipped_witness :
  exists baseline w',
    create_baseline sample_env "root" empty_world
    = (Ret "baselines/baseline_20240101_000000.json", w')
    /\ written w' !! "baselines/baseline_20240101_000000.json"
       = Some (Complete (json_of baseline))
    /\ (forall f h, dict_get baseline f = Some h
                    <-> listed "root" (tree sample_env) f
                        /\ hash_file (open_rb (disk sample_env) f) = Ret h)
    /\ (forall f e, listed "root" (tree sample_env) f ->
                    hash_file (open_rb (disk sample_env) f) = Raise e ->
                    dict_get baseline f = None /\ read_failure f e ∈ log w').
Proof.
  exact (C4_unreadable_files_skipped sample_env "root" empty_world
           eq_refl eq_refl eq_refl eq_refl).
Defined.

(** *** C7: the persisted baseline *)

(** C7 as stated does not hold: in the snapshot of the sample run the
    record of [root/a.txt] is the digest alone, a JSON string with no
    [recordedAt] member, and the monitored file [root/b.txt], which could not
    be read, has no record. *)
Lemma C7_record_counterexample :
  written (snd (create_baseline sample_env "root" empty_world))
    !! "baselines/baseline_20240101_000000.json"
  = Some (Complete
            (PDict
               [("root/a.txt",
                 PStr "2cf24dba5fb0a30e26e83b2ac5b9e29e1b161e5c1fa7425e73043362938b9824");
                ("root/sub/c.txt",
                 PStr "486ea46224d1bb4fb680f34f7c9ad96a8f24ec88be73ea8e5a6c65260e9cb8a7")]))
  /\ member (PStr "2cf24dba5fb0a30e26e83b2ac5b9e29e1b161e5c1fa7425e73043362938b9824")
        "recordedAt" = None
  /\ listed "root" (tree sample_env) "root/b.txt"
  /\ member (PDict
               [("root/a.txt",
                 PStr "2cf24dba5fb0a30e26e83b2ac5b9e29e1b161e5c1fa7425e73043362938b9824");
                ("root/sub/c.txt",
                 PStr "486ea46224d1bb4fb680f34f7c9ad96a8f24ec88be73ea8e5a6c65260e9cb8a7")])
        "root/b.txt" = None.
Proof.
  split; [vm_compute; reflexivity|]. split; [reflexivity|]. split; [|reflexivity].
  apply (listed_here "root" [("sub", Listing [] ["c.txt"])] ["a.txt"; "b.txt"] "b.txt").
  right. left.
Qed.

(** C7 (amended): the snapshot is one JSON object written to
    [baselines/baseline_<timestamp>.json], the timestamp being read once
    the files are hashed.  It has one member per file whose digest was
    computed, no path twice: the key is the path and the value is the
    digest, a string of 64 hexadecimal characters.  A record carries no
    timestamp of its own, and a file that could not be hashed has none. *)
Theorem C7_snapshot_document (env : Env) (directory : string) (w : World) :
  makedirs_result env = None ->
  open_result env = None ->
  dump_result env = None ->
  os_failures (disk env) (find_files directory (tree env)) = true ->
  exists baseline w',
    create_baseline env directory w
    = (Ret ("baselines/baseline_" ++ timestamp env ++ ".json"), w')
    /\ written w' !! ("baselines/baseline_" ++ timestamp env ++ ".json")
       = Some (Complete (PDict (prod_map id PStr <$> baseline)))
    /\ NoDup baseline.*1
    /\ (forall f h, (f, h) ∈ baseline ->
           listed directory (tree env) f
           /\ hash_file (open_rb (disk env) f) = Ret h /\ String.length h = 64%nat)
    /\ (forall f h, listed directory (tree env) f ->
           hash_file (open_rb (disk env) f) = Ret h ->
           member (PDict (prod_map id PStr <$> baseline)) f = Some (PStr h))
    /\ (forall f v, member (PDict (prod_map id PStr <$> baseline)) f = Some v ->
           exists h, v = PStr h /\ hash_file (open_rb (disk env) f) = Ret h).
Proof.
  intros Hmk Hopen Hdump Hos.
  set (baseline := foldl (add_hashed (disk env)) [] (find_files directory (tree env))).
  assert (NoDup baseline.*1) as Hnd by (apply baseline_NoDup; constructor).
  assert (forall f h, dict_get baseline f = Some h
                      <-> listed directory (tree env) f
                          /\ hash_file (open_rb (disk env) f) = Ret h) as Hget.
  { intros f h. unfold baseline. rewrite baseline_lookup, <- find_files_listed.
    destruct (hash_file (open_rb (disk env) f)) as [h'|e]; cbn [dict_get].
    - destruct (decide (f ∈ find_files directory (tree env))); split;
        try intros (? & ?); try split; congruence.
    - split; [discriminate|]. now intros (_ & ?). }
  exists baseline. eexists. split; [now apply create_baseline_run|].
  cbn [written]. split; [apply lookup_insert_eq|]. split; [exact Hnd|].
  fold (json_of baseline). split; [|split].
  - intros f h Hin. apply (dict_get_elem _ _ _ Hnd), Hget in Hin as [Hf Hh].
    repeat split; try assumption.
    destruct (open_rb (disk env) f) as [e|reads fault]; cbn in Hh; [discriminate|].
    destruct (read_blocks reads fault []); cbn in Hh; [|discriminate].
    injection Hh as <-. reflexivity.
  - intros f h Hf Hh. rewrite member_json_of.
    now rewrite (proj2 (Hget f h) (conj Hf Hh)).
  - intros f v. rewrite member_json_of.
    destruct (dict_get baseline f) as [h|] eqn:Hd; cbn; [|discriminate].
    intros [= <-]. exists h. split; [reflexivity|]. now apply Hget in Hd.
Qed.

Lemma C7_snapshot_document_witness :
  exists baseline w',
    create_baseline sample_env "root" empty_world
    = (Ret "baselines/baseline_20240101_000000.json", w')
    /\ written w' !! "baselines/baseline_20240101_000000.json"
       = Some (Complete (PDict (prod_map id PStr <$> baseline)))
    /\ NoDup baseline.*1
    /\ (forall f h, (f, h) ∈ baseline ->
           listed "root" (tree sample_env) f
           /\ hash_file (open_rb (disk sample_env) f) = Ret h /\ String.length h = 64%nat)
    /\ (forall f h, listed "root" (tree sample_env) f ->
           hash_file (open_rb (disk sample_env) f) = Ret h ->
           member (PDict (prod_map id PStr <$> baseline)) f = Some (PStr h))
    /\ (forall f v, member (PDict (prod_map id PStr <$> baseline)) f = Some v ->
           exists h, v = PStr h /\ hash_file (open_rb (disk sample_env) f) = Ret h).
Proof.
  exact (C7_snapshot_document sample_env "root" empty_world eq_refl eq_refl eq_refl eq_refl).
Defined.

End ProjectFacts.

(** ** Facts about fim_alert.py *)

Module FimAlertFacts.
Import Py FimAlert.
Local Open Scope py_scope.

Lemma append_nil_r (s : string) : s ++ "" = s.
Proof.
  induction s as [|c s IH]; [reflexivity|].
  change (String c (s ++ "") = String c s). now rewrite IH.
Qed.

Lemma append_assoc (a b c : string) : (a ++ b) ++ c = a ++ (b ++ c).
Proof.
  induction a as [|x a IH]; [reflexivity|].
  change (String x ((a ++ b) ++ c) = String x (a ++ (b ++ c))). now rewrite IH.
Qed.

(** *** Interpolation *)

(** A text without [%] is left as it is. *)
Lemma scan_plain (option section rawval : string) (map : gmap string string)
    (value : string -> Outcome string) (from v accum : string) :
  contains "%"%char v = false ->
  scan option section rawval map value Text from v accum = Ret (accum ++ v).
Proof.
  revert from accum. induction v as [|c v IH]; intros from accum Hv; cbn [scan].
  - now rewrite append_nil_r.
  - unfold contains in Hv. cbn [list_ascii_of_string existsb] in Hv.
    apply orb_false_elim in Hv as [Hc Hv]. rewrite Ascii.eqb_sym in Hc. rewrite Hc.
    rewrite (IH _ _ Hv), append_assoc. reflexivity.
Qed.

Lemma before_get_plain (section option v : string) (d : gmap string string) :
  contains "%"%char v = false -> before_get section option v d = Ret v.
Proof.
  intros Hv. unfold before_get, MAX_INTERPOLATION_DEPTH. cbn [interpolate_some].
  now rewrite scan_plain.
Qed.

(** Values the interpolation changes, and values it refuses. *)
Example interpolation_examples :
  let d : gmap string string :=
    {[ "dir" := "/srv"; "deep" := "%(dir)s/x"; "loop" := "%(loop)s" ]} in
  before_get "S" "o" "HIGH 100%%" d = Ret "HIGH 100%"
  /\ before_get "S" "o" "%(DIR)s/log and %(deep)s" d = Ret "/srv/log and /srv/x"
  /\ before_get "S" "o" "HIGH 100%" d = Raise (bad_percent "%")
  /\ before_get "S" "o" "a %d b" d = Raise (bad_percent "%d b")
  /\ before_get "S" "o" "%(dir" d = Raise (bad_reference "%(dir")
  /\ before_get "S" "o" "%()s" d = Raise (bad_reference "%()s")
  /\ before_get "S" "o" "%(dir)t" d = Raise (bad_reference "%(dir)t")
  /\ before_get "S" "o" "%(nope)s y" d
     = Raise (InterpolationMissingOptionError "o" "S" "%(nope)s y" "nope")
  /\ before_get "S" "loop" "%(loop)s" d = Raise (InterpolationDepthError "loop" "S" "%(loop)s")
  /\ exn_str (bad_percent "%") = "'%' must be followed by '%' or '(', found: '%'"
  /\ exn_str (InterpolationMissingOptionError "o" "S" "%(nope)s y" "nope")
     = "Bad value substitution: option 'o' in section 'S' contains an interpolation key 'nope' which is not a valid option name. Raw value: '%(nope)s y'"
  /\ exn_str (InterpolationDepthError "loop" "S" "%(loop)s")
     = "Recursion limit exceeded in value substitution: option 'loop' in section 'S' contains an interpolation key which cannot be substituted in 10 steps. Raw value: '%(loop)s'".
Proof. cbv zeta. repeat split; vm_compute; reflexivity. Qed.

(** *** [send_alert] by cases *)

(** [_send_email] by cases: recipients that cannot be joined raise before
    any SMTP session; otherwise one session is opened and its outcome is the
    outcome of the call. *)
Lemma _send_email_cases (r : option Exn) (subject body : string) (s : State) :
  _send_email r subject body s =
  match join_val ", " (recipient_emails (email_config (self s))) with
  | Raise e => (Raise e, s)
  | Ret to =>
      (match r with None => Ret tt | Some e => Raise e end,
       in_state s (add_outbox (email_of (self s) to subject body)))
  end.
Proof.
  unfold _send_email, bind, get, lift, in_world, push_outbox, modify, ret, raise, in_state.
  destruct (join_val _ _); [|reflexivity].
  destruct r; reflexivity.
Qed.

(** [send_alert] by cases, following its control flow. *)
Lemma send_alert_cases (env : Env) (event_type file_path : string)
    (details : list (string * string)) (s : State) :
  send_alert env event_type file_path details s =
  match _should_send_alert (self s) (t_check env) file_path with
  | Raise e => (Raise e, s)
  | Ret false => (Ret false, in_state s (add_log INFO ("Alert throttled for " ++ file_path)))
  | Ret true =>
      match alert_level_of (config (self s)) event_type with
      | Raise e => (Raise e, s)
      | Ret level =>
          match join_val ", " (recipient_emails (email_config (self s))) with
          | Raise e =>
              (Ret false, in_state s (add_log ERROR ("Failed to send alert: " ++ exn_str e)))
          | Ret to =>
              let sent :=
                add_outbox (alert_of (self s) env level event_type file_path to details) in
              match smtp_result env with
              | Some e =>
                  (Ret false,
                   in_state s (fun w => add_log ERROR ("Failed to send alert: " ++ exn_str e)
                                          (sent w)))
              | None =>
                  (Ret true,
                   {| self := _update_alert_history (self s) (t_update env) file_path;
                      world := add_log INFO ("Alert sent for " ++ event_type ++ " on "
                                             ++ file_path)
                                 (sent (world s)) |})
              end
          end
      end
  end.
Proof.
  unfold send_alert. unfold bind at 1. unfold get at 1. unfold bind at 1. unfold lift at 1.
  destruct (_should_send_alert _ _ _) as [[|]|e]; [| reflexivity | reflexivity].
  cbn [negb]. unfold bind at 1. unfold lift at 1.
  destruct (alert_level_of _ _) as [level|e]; [|reflexivity].
  unfold try_except, bind at 1.
  rewrite _send_email_cases.
  destruct (join_val _ _) as [to|e]; [|reflexivity].
  destruct (smtp_result env); reflexivity.
Qed.

(** The alert level by cases: the fallback when nothing is stored for the
    event type, the stored value when it holds no [%]. *)
Lemma alert_level_missing (c : ConfigParser) (event_type : string) :
  stored_level c event_type = None -> alert_level_of c event_type = Ret "MEDIUM".
Proof.
  unfold stored_level, alert_level_of, cfg_get_fallback, unify_values.
  destruct (sections c !! "AlertLevels") as [d|]; cbn [String.eqb]; [|reflexivity].
  assert (lower (lower event_type) = lower event_type) as ->.
  { induction event_type as [|ch r IH]; cbn [lower]; [reflexivity|]. rewrite IH. f_equal.
    destruct ch as [[] [] [] [] [] [] [] []]; reflexivity. }
  now intros ->.
Qed.

Lemma lower_idem (s : string) : lower (lower s) = lower s.
Proof.
  induction s as [|ch r IH]; cbn [lower]; [reflexivity|]. rewrite IH. f_equal.
  destruct ch as [[] [] [] [] [] [] [] []]; reflexivity.
Qed.

Lemma alert_level_stored (c : ConfigParser) (event_type v : string) :
  stored_level c event_type = Some v ->
  contains "%"%char v = false ->
  alert_level_of c event_type = Ret v.
Proof.
  unfold stored_level, alert_level_of, cfg_get_fallback, unify_values.
  destruct (sections c !! "AlertLevels") as [d|]; [|discriminate].
  rewrite lower_idem. intros -> Hv. now apply before_get_plain.
Qed.

(** The clock reading of [_should_send_alert] and that of
    [_update_alert_history] are two readings; each statement below
    quantifies over its own. *)

(** The check when the path has no history. *)
Lemma should_send_first (self : FIMAlertManager) (now : float) (path : string) (maxn : Z) :
  cfg_getint_fallback (config self) "Throttling" "max_alerts_per_file" 3 = Ret maxn ->
  alert_history self !! path = None ->
  _should_send_alert self now path = Ret true.
Proof.
  intros Hmax Hnone. unfold _should_send_alert. rewrite Hmax. cbn [obind]. now rewrite Hnone.
Qed.

(** The check once the float difference is no longer below the period. *)
Lemma should_send_expired (self : FIMAlertManager) (now last : float) (c : Z) (path : string)
    (maxn : Z) :
  cfg_getint_fallback (config self) "Throttling" "max_alerts_per_file" 3 = Ret maxn ->
  alert_history self !! path = Some (last, c) ->
  float_lt_int (now - last) (throttle_period self) = false ->
  _should_send_alert self now path = Ret true.
Proof.
  intros Hmax Hsome Hge. unfold _should_send_alert. rewrite Hmax. cbn [obind]. rewrite Hsome.
  now rewrite Hge.
Qed.

(** The check inside the period. *)
Lemma should_send_within (self : FIMAlertManager) (now last : float) (c : Z) (path : string)
    (maxn : Z) :
  cfg_getint_fallback (config self) "Throttling" "max_alerts_per_file" 3 = Ret maxn ->
  alert_history self !! path = Some (last, c) ->
  float_lt_int (now - last) (throttle_period self) = true ->
  _should_send_alert self now path = Ret (c <? maxn).
Proof.
  intros Hmax Hsome Hlt. unfold _should_send_alert. rewrite Hmax. cbn [obind]. rewrite Hsome.
  rewrite Hlt. now destruct (c <? maxn).
Qed.

Lemma update_first (self : FIMAlertManager) (now : float) (path : string) :
  alert_history self !! path = None ->
  _update_alert_history self now path
  = set_alert_history self (<[path := (now, 1)]> (alert_history self)).
Proof. intros Hnone. unfold _update_alert_history. now rewrite Hnone. Qed.

Lemma update_expired (self : FIMAlertManager) (now last : float) (c : Z) (path : string) :
  alert_history self !! path = Some (last, c) ->
  float_lt_int (now - last) (throttle_period self) = false ->
  _update_alert_history self now path
  = set_alert_history self (<[path := (now, 1)]> (alert_history self)).
Proof.
  intros Hsome Hge. unfold _update_alert_history. rewrite Hsome. now rewrite Hge.
Qed.

Lemma update_within (self : FIMAlertManager) (now last : float) (c : Z) (path : string) :
  alert_history self !! path = Some (last, c) ->
  float_lt_int (now - last) (throttle_period self) = true ->
  _update_alert_history self now path
  = set_alert_history self (<[path := (now, c + 1)]> (alert_history self)).
Proof.
  intros Hsome Hlt. unfold _update_alert_history. rewrite Hsome. now rewrite Hlt.
Qed.

(** The update writes the entry of its own path only. *)
Lemma update_other (self : FIMAlertManager) (now : float) (path p : string) :
  p <> path ->
  alert_history (_update_alert_history self now path) !! p = alert_history self !! p.
Proof.
  intros Hne. unfold _update_alert_history.
  destruct (alert_history self !! path) as [[last c]|];
    [destruct (float_lt_int _ _)|]; cbn; now rewrite lookup_insert_ne.
Qed.

(** The update leaves configuration and period alone. *)
Lemma update_keeps (self : FIMAlertManager) (now : float) (path : string) :
  config (_update_alert_history self now path) = config self
  /\ email_config (_update_alert_history self now path) = email_config self
  /\ throttle_period (_update_alert_history self now path) = throttle_period self.
Proof.
  unfold _update_alert_history.
  destruct (alert_history self !! path) as [[last c]|]; [destruct (float_lt_int _ _)|]; now cbn.
Qed.

Lemma ltb_succ_leb (c maxn : Z) : (c <? maxn) = (c + 1 <=? maxn).
Proof. destruct (Z.ltb_spec c maxn), (Z.leb_spec (c + 1) maxn); lia || reflexivity. Qed.

(** The sample manager is the one the constructor builds from the sample
    configuration file. *)
Example manager_60_3_built :
  fst (__init__ sample_json_loads None "alert_config.ini"
         {| log := []; outbox := []; fs := {[ "alert_config.ini" := Parsed config_60_3 ]} |})
  = Ret (manager_of config_60_3 60 ∅).
Proof. vm_compute. reflexivity. Qed.

(** *** C1: the throttle check *)

(** C1 as stated (a fixed window per path) does not hold: with a period of
    60 s and at most 3 alerts, alerts delivered at 0 s, 30 s and 59 s make
    the code deny a check at 61 s, since it counts the period from the last
    delivered alert (59 s); the fixed-window gate of the specification
    admits it, its window having started at 0 s.  Nor does the check create
    any state: an admitted alert whose delivery fails leaves the history
    empty. *)
Lemma C1_fixed_window_counterexample :
  fst (run_alerts (delivered_at <$> [0; 30; 59; 61]%float) "modified" "/etc/passwd"
         (state_60_3 ∅))
  = [Ret true; Ret true; Ret true; Ret false]
  /\ spec_run 60 3 ∅ "/etc/passwd" [0; 30; 59; 61]%float = [true; true; true; true]
  /\ fst (run_alerts (delivered_at <$> [0; 30; 59; 61]%float) "modified" "/etc/passwd"
            (state_60_3 ∅))
     <> Ret <$> spec_run 60 3 ∅ "/etc/passwd" [0; 30; 59; 61]%float
  /\ alert_history
       (self (snd (send_alert {| t_check := 0; t_stamp := ""; smtp_result := Some smtp_down;
                                 t_update := 0 |}
                     "modified" "/etc/passwd" [] (state_60_3 ∅))))
     = ∅.
Proof. repeat split; vm_compute; (reflexivity || discriminate). Qed.

(** The difference the code compares with the period is the difference of
    two floats, rounded: with the last alert at 0.3 s and a count of 3, a
    check at 60.3 s finds the difference to be 60 and the period over,
    though the two floats are less than 60 apart; at 60.2 s it is inside
    the period. *)
Example rounded_difference_at_the_boundary :
  _should_send_alert (manager_of config_60_3 60 {[ "/etc/passwd" := (0.3%float, 3) ]})
    60.3 "/etc/passwd" = Ret true
  /\ _should_send_alert (manager_of config_60_3 60 {[ "/etc/passwd" := (0.3%float, 3) ]})
       60.2 "/etc/passwd" = Ret false
  /\ fst (run_alerts (delivered_at <$> [0.3; 60.3; 60.3; 60.3; 60.3]%float)
            "modified" "/etc/passwd" (state_60_3 ∅))
     = [Ret true; Ret true; Ret true; Ret true; Ret false].
Proof. repeat split; vm_compute; reflexivity. Qed.

(** C1 (amended): the throttle is a counter per path whose period runs from
    the last delivered alert.  The check changes no state.  With no entry for
    the path the alert is admitted, and a delivery records [(now, 1)].  With
    an entry [(last, c)], the code subtracts the two floats and compares the
    difference with the period: if [now - last < throttle_period] does not
    hold (the difference equals the period, exceeds it, or is no number) the
    alert is admitted and a delivery records [(now, 1)]; otherwise it is
    admitted exactly when [c + 1 <= max_alerts_per_file], and a delivery
    records [(now, c + 1)], moving the start of the period to [now].  A
    denial makes [send_alert] return [False] after logging "Alert throttled"
    locally: no message is handed to SMTP and the history is not touched. *)
Theorem C1_throttle_from_last_alert (mgr : FIMAlertManager) (path : string) (maxn : Z) :
  cfg_getint_fallback (config mgr) "Throttling" "max_alerts_per_file" 3 = Ret maxn ->
  (alert_history mgr !! path = None ->
     (forall now, _should_send_alert mgr now path = Ret true)
     /\ (forall now, _update_alert_history mgr now path
                     = set_alert_history mgr (<[path := (now, 1)]> (alert_history mgr))))
  /\ (forall last c, alert_history mgr !! path = Some (last, c) ->
        (forall now, float_lt_int (now - last) (throttle_period mgr) = false ->
           _should_send_alert mgr now path = Ret true
           /\ _update_alert_history mgr now path
              = set_alert_history mgr (<[path := (now, 1)]> (alert_history mgr)))
        /\ (forall now, float_lt_int (now - last) (throttle_period mgr) = true ->
             _should_send_alert mgr now path = Ret (c + 1 <=? maxn)
             /\ _update_alert_history mgr now path
                = set_alert_history mgr (<[path := (now, c + 1)]> (alert_history mgr)))
        /\ (forall now, float_ge_int (now - last) (throttle_period mgr) = true ->
             float_lt_int (now - last) (throttle_period mgr) = false))
  /\ (forall env event_type details s,
        self s = mgr ->
        _should_send_alert mgr (t_check env) path = Ret false ->
        send_alert env event_type path details s
        = (Ret false, in_state s (add_log INFO ("Alert throttled for " ++ path)))).
Proof.
  intros Hmax. split; [|split].
  - intros Hnone. split; intros now.
    + eapply should_send_first; eassumption.
    + now apply update_first.
  - intros last c Hsome. split; [|split]; intros now Hcmp; [split|split|].
    + eapply should_send_expired; eassumption.
    + eapply update_expired; eassumption.
    + rewrite <- ltb_succ_leb. eapply should_send_within; eassumption.
    + eapply update_within; eassumption.
    + revert Hcmp. unfold float_ge_int, float_lt_int.
      destruct (Prim2SF (now - last)) as [sg|sg| |sg m e]; cbn [sf_ge_int sf_lt_int].
      * rewrite Z.leb_le. intros H. apply Z.ltb_ge. exact H.
      * now destruct sg.
      * discriminate.
      * destruct (0 <=? e); rewrite Z.leb_le; intros H; apply Z.ltb_ge; exact H.
  - intros env event_type details s Hself Hdeny.
    rewrite send_alert_cases, Hself, Hdeny. reflexivity.
Qed.

Lemma C1_throttle_from_last_alert_witness :
  cfg_getint_fallback (config (manager_of config_60_3 60 {[ "/etc/passwd" := (59%float, 3) ]}))
    "Throttling" "max_alerts_per_file" 3 = Ret 3
  /\ _should_send_alert (manager_of config_60_3 60 {[ "/etc/passwd" := (59%float, 3) ]})
       61 "/etc/passwd" = Ret false.
Proof.
  split; [reflexivity|].
  pose proof (C1_throttle_from_last_alert
                (manager_of config_60_3 60 {[ "/etc/passwd" := (59%float, 3) ]})
                "/etc/passwd" 3 eq_refl) as (_ & Hsome & _).
  destruct (Hsome 59%float 3 eq_refl) as (_ & Hin & _).
  destruct (Hin 61%float) as (Hcheck & _); [reflexivity|].
  exact Hcheck.
Defined.

(** *** C2: five checks inside one period *)

(** One delivered call on a path without history. *)
Lemma step_first (env : Env) (event_type path : string) (details : list (string * string))
    (s : State) (maxn : Z) (to level : string) :
  cfg_getint_fallback (config (self s)) "Throttling" "max_alerts_per_file" 3 = Ret maxn ->
  alert_history (self s) !! path = None ->
  alert_level_of (config (self s)) event_type = Ret level ->
  join_val ", " (recipient_emails (email_config (self s))) = Ret to ->
  smtp_result env = None ->
  exists s', send_alert env event_type path details s = (Ret true, s')
             /\ same_settings (self s) (self s')
             /\ alert_history (self s') !! path = Some (t_update env, 1).
Proof.
  intros Hmax Hnone Hlevel Hto Hsmtp. eexists. split.
  - rewrite send_alert_cases, (should_send_first _ _ _ _ Hmax Hnone), Hlevel, Hto, Hsmtp.
    reflexivity.
  - cbn [self]. split; [apply update_keeps|].
    rewrite update_first by assumption. cbn. apply lookup_insert_eq.
Qed.

(** One call inside the period of an entry [(last, c)]: delivered and
    counted when [c < maxn], denied otherwise. *)
Lemma step_within (env : Env) (event_type path : string) (details : list (string * string))
    (s : State) (maxn : Z) (to level : string) (last : float) (c : Z) :
  cfg_getint_fallback (config (self s)) "Throttling" "max_alerts_per_file" 3 = Ret maxn ->
  alert_history (self s) !! path = Some (last, c) ->
  float_lt_int (t_check env - last) (throttle_period (self s)) = true ->
  ((c <? maxn) = true -> float_lt_int (t_update env - last) (throttle_period (self s)) = true) ->
  alert_level_of (config (self s)) event_type = Ret level ->
  join_val ", " (recipient_emails (email_config (self s))) = Ret to ->
  smtp_result env = None ->
  exists s', send_alert env event_type path details s = (Ret (c <? maxn), s')
             /\ same_settings (self s) (self s')
             /\ alert_history (self s') !! path
                = Some (if c <? maxn then (t_update env, c + 1) else (last, c)).
Proof.
  intros Hmax Hsome Hc Hu Hlevel Hto Hsmtp.
  rewrite send_alert_cases, (should_send_within _ _ _ _ _ _ Hmax Hsome Hc).
  destruct (c <? maxn).
  - rewrite Hlevel, Hto, Hsmtp. eexists. split; [reflexivity|]. cbn [self in_state].
    split; [apply update_keeps|].
    rewrite (update_within _ _ _ _ _ Hsome (Hu eq_refl)). cbn. apply lookup_insert_eq.
  - eexists. split; [reflexivity|]. cbn [self in_state]. split; [repeat split|assumption].
Qed.

(** C2 as stated does not hold: with a period of 60 s and at most 3 alerts,
    five checks at 0, 10, 20, 30 and 40 s give three admissions and two
    denials, but the sixth check, 61 s after the first, is denied as well:
    only 41 s have passed since the last delivered alert (20 s). *)
Lemma C2_sixth_check_counterexample :
  fst (run_alerts (delivered_at <$> [0; 10; 20; 30; 40; 61]%float)
         "modified" "/etc/passwd" (state_60_3 ∅))
  = [Ret true; Ret true; Ret true; Ret false; Ret false; Ret false]
  /\ fst (run_alerts (delivered_at <$> [0; 10; 20; 30; 40; 61]%float)
            "modified" "/etc/passwd" (state_60_3 ∅)) !! 5%nat
     <> Some (Ret true).
Proof. split; vm_compute; (reflexivity || discriminate). Qed.

(** C2 (amended): with [max_alerts_per_file = 3] and a period of 60 s, five
    calls of [send_alert] for a path without history, every delivery
    succeeding and every clock reading being -- by the float subtraction
    and the comparison of the code -- less than 60 s after the readings of
    the earlier calls, return [True, True, True, False, False]; the history
    then holds the time of the third delivery with count 3, and a sixth
    check is admitted exactly when the code does not find it less than 60 s
    after that third delivery. *)
Theorem C2_burst_of_five (s : State) (event_type path : string)
    (e1 e2 e3 e4 e5 : Env) (to level : string) :
  throttle_period (self s) = 60 ->
  cfg_getint_fallback (config (self s)) "Throttling" "max_alerts_per_file" 3 = Ret 3 ->
  alert_history (self s) !! path = None ->
  alert_level_of (config (self s)) event_type = Ret level ->
  join_val ", " (recipient_emails (email_config (self s))) = Ret to ->
  burst 60 [e1; e2; e3; e4; e5] = true ->
  exists s',
    run_alerts [e1; e2; e3; e4; e5] event_type path s
    = ([Ret true; Ret true; Ret true; Ret false; Ret false], s')
    /\ alert_history (self s') !! path = Some (t_update e3, 3)
    /\ forall t6, _should_send_alert (self s') t6 path
                  = Ret (negb (float_lt_int (t6 - t_update e3) 60)).
Proof.
  intros Hp Hmax Hnone Hlevel Hto Hburst.
  cbn [burst forallb] in Hburst. unfold reads_within in Hburst.
  repeat match goal with
         | H : _ && _ = true |- _ => apply andb_prop in H; destruct H
         | H : bool_decide _ = true |- _ => apply bool_decide_eq_true in H
         end.
  destruct (step_first e1 event_type path [] s 3 to level)
    as (s1 & E1 & (Hc1 & He1 & Hp1) & Hh1); try assumption.
  destruct (step_within e2 event_type path [] s1 3 to level (t_update e1) 1)
    as (s2 & E2 & (Hc2 & He2 & Hp2) & Hh2);
    rewrite ?Hc1, ?He1, ?Hp1, ?Hp; auto.
  destruct (step_within e3 event_type path [] s2 3 to level (t_update e2) 2)
    as (s3 & E3 & (Hc3 & He3 & Hp3) & Hh3);
    rewrite ?Hc2, ?He2, ?Hp2, ?Hc1, ?He1, ?Hp1, ?Hp; auto.
  destruct (step_within e4 event_type path [] s3 3 to level (t_update e3) 3)
    as (s4 & E4 & (Hc4 & He4 & Hp4) & Hh4);
    rewrite ?Hc3, ?He3, ?Hp3, ?Hc2, ?He2, ?Hp2, ?Hc1, ?He1, ?Hp1, ?Hp;
    auto; try discriminate.
  destruct (step_within e5 event_type path [] s4 3 to level (t_update e3) 3)
    as (s5 & E5 & (Hc5 & He5 & Hp5) & Hh5);
    rewrite ?Hc4, ?He4, ?Hp4, ?Hc3, ?He3, ?Hp3, ?Hc2, ?He2, ?Hp2, ?Hc1, ?He1, ?Hp1, ?Hp;
    auto; try discriminate.
  exists s5. split; [|split].
  - cbn [run_alerts]. rewrite E1, E2, E3, E4, E5. reflexivity.
  - exact Hh5.
  - intros t6. unfold _should_send_alert.
    rewrite Hc5, Hc4, Hc3, Hc2, Hc1, Hmax. cbn [obind]. rewrite Hh5.
    cbn [Z.ltb Z.compare Pos.compare Pos.compare_cont].
    rewrite Hp5, Hp4, Hp3, Hp2, Hp1, Hp.
    now destruct (float_lt_int (t6 - t_update e3) 60).
Qed.

Lemma C2_burst_of_five_witness :
  exists s',
    run_alerts (delivered_at <$> [0; 10; 20; 30; 40]%float) "modified" "/etc/passwd"
      (state_60_3 ∅)
    = ([Ret true; Ret true; Ret true; Ret false; Ret false], s')
    /\ alert_history (self s') !! "/etc/passwd" = Some (20%float, 3)
    /\ forall t6, _should_send_alert (self s') t6 "/etc/passwd"
                  = Ret (negb (float_lt_int (t6 - 20) 60)).
Proof.
  exact (C2_burst_of_five (state_60_3 ∅) "modified" "/etc/passwd"
           (delivered_at 0) (delivered_at 10) (delivered_at 20)
           (delivered_at 30) (delivered_at 40)
           "admin@example.com, security@example.com" "MEDIUM"
           eq_refl eq_refl eq_refl eq_refl eq_refl eq_refl).
Defined.

(** *** C3 and C10: delivery failures and the history *)

(** Every call opens at most one SMTP session, whatever its outcome. *)
Lemma send_alert_one_session (env : Env) (event_type path : string)
    (details : list (string * string)) (s : State) :
  (length (outbox (world (snd (send_alert env event_type path details s))))
   <= S (length (outbox (world s))))%nat.
Proof.
  rewrite send_alert_cases.
  destruct (_should_send_alert _ _ _) as [[|]|e]; cbn; try lia.
  destruct (alert_level_of _ _) as [level|e]; cbn; try lia.
  destruct (join_val _ _) as [to|e]; cbn; try lia.
  destruct (smtp_result env); cbn; rewrite length_app; cbn; lia.
Qed.

(** C3: when an admitted alert cannot be delivered -- [_send_email] raises
    [e], be it from the SMTP session or from recipients that cannot be
    joined -- [send_alert] does not raise: it returns [False], appends the
    ERROR record "Failed to send alert: e" to the log, leaves the manager as
    it was, and has opened at most one SMTP session (no retry). *)
Theorem C3_delivery_failure_reported (env : Env) (event_type path : string)
    (details : list (string * string)) (s : State) (level : string) (e : Exn) :
  _should_send_alert (self s) (t_check env) path = Ret true ->
  alert_level_of (config (self s)) event_type = Ret level ->
  fst (_send_email (smtp_result env) (alert_subject level event_type path)
         (alert_body level event_type (t_stamp env) path details) s) = Raise e ->
  exists s',
    send_alert env event_type path details s = (Ret false, s')
    /\ log (world s')
       = (log (world s) ++ [{| levelname := ERROR;
                               message := "Failed to send alert: " ++ exn_str e |}])%list
    /\ self s' = self s
    /\ (length (outbox (world s')) <= S (length (outbox (world s))))%nat.
Proof.
  intros Hok Hlevel Hfail.
  pose proof (send_alert_one_session env event_type path details s) as Honce.
  rewrite send_alert_cases, Hok, Hlevel in Honce |- *.
  rewrite _send_email_cases in Hfail.
  destruct (join_val _ _) as [to|e'].
  - destruct (smtp_result env) as [e'|]; [|discriminate].
    cbn in Hfail. injection Hfail as ->.
    eexists. split; [reflexivity|]. cbn in *. auto.
  - cbn in Hfail. injection Hfail as ->.
    eexists. split; [reflexivity|]. cbn in *. auto.
Qed.

Lemma C3_delivery_failure_reported_witness :
  exists s',
    send_alert {| t_check := 0; t_stamp := "2024-01-01 00:00:00";
                  smtp_result := Some smtp_down; t_update := 0 |}
      "modified" "/etc/passwd" [] (state_60_3 ∅) = (Ret false, s')
    /\ log (world s')
       = [{| levelname := ERROR;
             message := "Failed to send alert: [Errno 111] Connection refused" |}]
    /\ self s' = manager_of config_60_3 60 ∅
    /\ (length (outbox (world s')) <= 1)%nat.
Proof.
  exact (C3_delivery_failure_reported
           {| t_check := 0; t_stamp := "2024-01-01 00:00:00";
              smtp_result := Some smtp_down; t_update := 0 |}
           "modified" "/etc/passwd" [] (state_60_3 ∅) "MEDIUM" smtp_down
           eq_refl eq_refl eq_refl).
Defined.

(** C10: a call of [send_alert] that returns [False] leaves the manager,
    hence the whole history, as it was; the history changes only when the
    call returns [True], which requires the SMTP session to have completed;
    and no call changes the entry of another path. *)
Theorem C10_false_keeps_history (env : Env) (event_type path : string)
    (details : list (string * string)) (s s' : State) (r : Outcome bool) :
  send_alert env event_type path details s = (r, s') ->
  (r = Ret false -> self s' = self s)
  /\ (alert_history (self s') <> alert_history (self s) ->
      r = Ret true /\ smtp_result env = None
      /\ self s' = _update_alert_history (self s) (t_update env) path)
  /\ (forall p, p <> path -> alert_history (self s') !! p = alert_history (self s) !! p).
Proof.
  rewrite send_alert_cases. intros Hrun.
  destruct (_should_send_alert _ _ _) as [[|]|e];
    [destruct (alert_level_of _ _) as [level|e];
     [destruct (join_val _ _) as [to|e]; [destruct (smtp_result env) as [e|]|]|]| |];
    injection Hrun as <- <-; cbn [self in_state];
    (split; [first [reflexivity | discriminate]|]);
    (split; [first [congruence | auto] | first [reflexivity | intros p Hp; now apply update_other]]).
Qed.

Lemma C10_false_keeps_history_witness :
  fst (send_alert (delivered_at 30) "modified" "/etc/passwd" []
         (state_60_3 {[ "/etc/passwd" := (20%float, 3) ]})) = Ret false
  /\ self (snd (send_alert (delivered_at 30) "modified" "/etc/passwd" []
                  (state_60_3 {[ "/etc/passwd" := (20%float, 3) ]})))
     = manager_of config_60_3 60 {[ "/etc/passwd" := (20%float, 3) ]}.
Proof.
  split; [vm_compute; reflexivity|].
  refine (proj1 (C10_false_keeps_history (delivered_at 30) "modified" "/etc/passwd" []
                   (state_60_3 {[ "/etc/passwd" := (20%float, 3) ]}) _ (Ret false) _) eq_refl).
  vm_compute. reflexivity.
Defined.

(** *** C9: a clock that goes backwards *)

(** C9 as stated does not hold: a check at 50 s for a path whose last alert
    is recorded at 100 s raises nothing; it is admitted like any check
    inside the period, and the delivery overwrites the record with the
    earlier time. *)
Lemma C9_backwards_clock_counterexample :
  _should_send_alert (manager_of config_60_3 60 {[ "/etc/passwd" := (100%float, 1) ]})
    50 "/etc/passwd" = Ret true
  /\ fst (send_alert (delivered_at 50) "modified" "/etc/passwd" []
            (state_60_3 {[ "/etc/passwd" := (100%float, 1) ]})) = Ret true
  /\ alert_history
       (self (snd (send_alert (delivered_at 50) "modified" "/etc/passwd" []
                     (state_60_3 {[ "/etc/passwd" := (100%float, 1) ]}))))
     = {[ "/etc/passwd" := (50%float, 2) ]}.
Proof. repeat split; vm_compute; reflexivity. Qed.

(** C9 (amended): a clock reading earlier than the recorded last alert is
    not detected.  With a period that is not negative the difference is
    below the period, so the check answers as inside the period --
    admitted exactly when the count is below [max_alerts_per_file] -- and
    an update stores the earlier reading with the count incremented. *)
Theorem C9_backwards_clock_absorbed (mgr : FIMAlertManager) (now last : float) (c : Z)
    (path : string) (maxn : Z) :
  cfg_getint_fallback (config mgr) "Throttling" "max_alerts_per_file" 3 = Ret maxn ->
  alert_history mgr !! path = Some (last, c) ->
  PrimFloat.ltb now last = true ->
  0 <= throttle_period mgr ->
  _should_send_alert mgr now path = Ret (c <? maxn)
  /\ alert_history (_update_alert_history mgr now path) !! path = Some (now, c + 1).
Proof.
  intros Hmax Hsome Hback Hperiod.
  pose proof (FloatFacts.float_sub_neg now last (throttle_period mgr) Hback Hperiod) as Hlt.
  split.
  - eapply should_send_within; eassumption.
  - rewrite (update_within _ _ _ _ _ Hsome Hlt). cbn. apply lookup_insert_eq.
Qed.

Lemma C9_backwards_clock_absorbed_witness :
  _should_send_alert (manager_of config_60_3 60 {[ "/etc/passwd" := (100%float, 3) ]})
    50 "/etc/passwd" = Ret false.
Proof.
  refine (proj1 (C9_backwards_clock_absorbed
                   (manager_of config_60_3 60 {[ "/etc/passwd" := (100%float, 3) ]})
                   50 100 3 "/etc/passwd" 3 eq_refl eq_refl eq_refl _)).
  vm_compute. discriminate.
Defined.

(** *** C5 and C6: alert levels and the default configuration *)

(** C5: the alert level of an alert that is sent -- it appears in the
    subject and in the body of the message -- is what [config.get] gives
    for the lower-cased event type in section [AlertLevels] (or [DEFAULT]):
    ["MEDIUM"] when the section or the key is missing; the stored value
    when it holds no [%]; in general the stored value interpolated, and
    when the interpolation fails [send_alert] raises and sends nothing. *)
Theorem C5_alert_level_from_config (env : Env) (event_type path : string)
    (details : list (string * string)) (s : State) (to : string) :
  _should_send_alert (self s) (t_check env) path = Ret true ->
  join_val ", " (recipient_emails (email_config (self s))) = Ret to ->
  let sent level :=
    outbox (world (snd (send_alert env event_type path details s)))
    = (outbox (world s)
       ++ [{| msg_from := sender_email (email_config (self s));
              msg_to := to;
              msg_subject := alert_subject level event_type path;
              msg_body := alert_body level event_type (t_stamp env) path details |}])%list in
  match stored_level (config (self s)) event_type with
  | None => sent "MEDIUM"
  | Some v =>
      (contains "%"%char v = false -> sent v)
      /\ (forall level, alert_level_of (config (self s)) event_type = Ret level -> sent level)
      /\ (forall e, alert_level_of (config (self s)) event_type = Raise e ->
            send_alert env event_type path details s = (Raise e, s))
  end.
Proof.
  intros Hok Hto sent.
  assert (forall level, alert_level_of (config (self s)) event_type = Ret level -> sent level)
    as Hsent.
  { intros level Hlevel. unfold sent. rewrite send_alert_cases, Hok, Hlevel, Hto.
    destruct (smtp_result env); reflexivity. }
  destruct (stored_level (config (self s)) event_type) as [v|] eqn:Hstored.
  - split; [|split].
    + intros Hv. apply Hsent. now apply alert_level_stored.
    + exact Hsent.
    + intros e He. now rewrite send_alert_cases, Hok, He.
  - apply Hsent. now apply alert_level_missing.
Qed.

Lemma C5_alert_level_from_config_witness :
  outbox (world (snd (send_alert (delivered_at 0) "Deleted" "/etc/passwd" [] (state_60_3 ∅))))
  = [{| msg_from := "your_email@gmail.com";
        msg_to := "admin@example.com, security@example.com";
        msg_subject := alert_subject "HIGH" "Deleted" "/etc/passwd";
        msg_body := alert_body "HIGH" "Deleted" "" "/etc/passwd" [] |}].
Proof.
  exact (proj1 (C5_alert_level_from_config (delivered_at 0) "Deleted" "/etc/passwd" []
                  (state_60_3 ∅) "admin@example.com, security@example.com" eq_refl eq_refl)
           eq_refl).
Defined.

(** A level written with a bare percent sign, [deleted = HIGH 100%], is
    refused when it is got: the alert for a deletion raises
    [InterpolationSyntaxError] outside the [try] of [send_alert], and
    nothing is sent or logged. *)
Example percent_level_raises :
  stored_level config_percent "deleted" = Some "HIGH 100%"
  /\ alert_level_of config_percent "deleted" = Raise (bad_percent "%")
  /\ send_alert (delivered_at 0) "deleted" "/etc/passwd" []
       {| self := manager_of config_percent 60 ∅; world := empty_world |}
     = (Raise (bad_percent "%"),
        {| self := manager_of config_percent 60 ∅; world := empty_world |}).
Proof. repeat split; vm_compute; reflexivity. Qed.

(** Under the generated defaults the lookup never succeeds for the event
    types the docstring of [send_alert] names: the levels are stored under
    [file_modified], [file_created] and [file_deleted], the lookup uses
    [modified], [created] and [deleted], and so every alert is MEDIUM. *)
Example default_levels_missed :
  sections default_config !! "AlertLevels"
  = Some (<[ "file_modified" := "MEDIUM" ]>
            (<[ "file_created" := "LOW" ]> (<[ "file_deleted" := "HIGH" ]> ∅)))
  /\ alert_level_of default_config "deleted" = Ret "MEDIUM"
  /\ alert_level_of default_config "created" = Ret "MEDIUM"
  /\ msg_subject <$>
       outbox (world (snd (send_alert (delivered_at 0) "deleted" "/etc/passwd" []
                             {| self := manager_of default_config 300 ∅;
                                world := empty_world |})))
     = ["FIM ALERT [MEDIUM]: File deleted - passwd"].
Proof. repeat split; vm_compute; reflexivity. Qed.

(** C6 as stated does not hold for a malformed file: a configuration file
    that exists and that the parser rejects makes the constructor raise the
    parser's error, and a file that parses but has no [Email] section (an
    empty file) makes it raise [NoSectionError]; no default is generated. *)
Lemma C6_malformed_config_counterexample :
  fst (__init__ sample_json_loads None "alert_config.ini"
         (world_with "alert_config.ini" (Unparsable parse_error)))
  = Raise parse_error
  /\ fst (__init__ sample_json_loads None "alert_config.ini"
            (world_with "alert_config.ini" (Parsed empty_config)))
     = Raise (NoSectionError "Email")
  /\ fs (snd (__init__ sample_json_loads None "alert_config.ini"
                 (world_with "alert_config.ini" (Unparsable parse_error))))
     = {[ "alert_config.ini" := Unparsable parse_error ]}.
Proof. repeat split; vm_compute; reflexivity. Qed.

Lemma default_config_values :
  cfg_get default_config "Email" "smtp_server" = Ret "smtp.gmail.com"
  /\ cfg_getint default_config "Email" "smtp_port" = Ret 587
  /\ cfg_get default_config "Email" "sender_email" = Ret "your_email@gmail.com"
  /\ cfg_get default_config "Email" "sender_password" = Ret "your_app_password"
  /\ cfg_get default_config "Email" "recipient_emails" = Ret default_recipients_text
  /\ cfg_getint_fallback default_config "Throttling" "throttle_period_seconds" 300 = Ret 300
  /\ cfg_getint_fallback default_config "Throttling" "max_alerts_per_file" 3 = Ret 3.
Proof. repeat split; vm_compute; reflexivity. Qed.

(** C6 (amended): when the configuration file does not exist (and can be
    written), the constructor writes the default configuration to it, logs
    "Created default configuration file" and uses it: the period is 300 s,
    [max_alerts_per_file] is 3, and section [AlertLevels] holds exactly
    [file_modified = MEDIUM], [file_created = LOW], [file_deleted = HIGH],
    with no entry for renames.  (A file that exists is read as it is; one
    that is malformed is not replaced by the defaults.)  [json.loads] is
    assumed to read the default recipients text as the list of its two
    addresses. *)
Theorem C6_absent_config_defaults (json_loads : string -> Outcome PyVal) (w : World)
    (config_file : string) :
  fs w !! config_file = None ->
  json_loads default_recipients_text = Ret default_recipients ->
  __init__ json_loads None config_file w
  = (Ret (manager_of default_config 300 ∅),
     {| log := (log w ++ [{| levelname := INFO;
                             message := "Created default configuration file: " ++ config_file |};
                          {| levelname := INFO; message := "FIM Alert Manager initialized" |}])%list;
        outbox := outbox w;
        fs := <[config_file := Parsed default_config]> (fs w) |})
  /\ cfg_getint_fallback default_config "Throttling" "throttle_period_seconds" 300 = Ret 300
  /\ cfg_getint_fallback default_config "Throttling" "max_alerts_per_file" 3 = Ret 3
  /\ sections default_config !! "AlertLevels"
     = Some (<[ "file_modified" := "MEDIUM" ]>
               (<[ "file_created" := "LOW" ]> (<[ "file_deleted" := "HIGH" ]> ∅))).
Proof.
  intros Habsent Hjson.
  destruct default_config_values as (H1 & H2 & H3 & H4 & H5 & H6 & H7).
  split; [|repeat split; assumption].
  unfold __init__, _load_config. unfold bind at 1. unfold bind at 1. unfold get at 1.
  rewrite Habsent. unfold bind at 1. unfold bind at 1.
  unfold write_file at 1, modify at 1. unfold logging_w at 1, modify at 1. unfold ret at 1.
  unfold bind at 1, lift at 1. rewrite H1.
  unfold bind at 1, lift at 1. rewrite H2.
  unfold bind at 1, lift at 1. rewrite H3.
  unfold bind at 1, lift at 1. rewrite H4.
  unfold bind at 1, lift at 1. rewrite H5.
  unfold bind at 1, lift at 1. rewrite Hjson.
  unfold bind at 1, lift at 1. rewrite H6.
  unfold bind at 1, logging_w, modify, ret, add_log. cbn [log outbox fs].
  rewrite <- app_assoc. reflexivity.
Qed.

Lemma C6_absent_config_defaults_witness :
  __init__ sample_json_loads None "alert_config.ini" empty_world
  = (Ret (manager_of default_config 300 ∅),
     {| log := [{| levelname := INFO;
                   message := "Created default configuration file: alert_config.ini" |};
                {| levelname := INFO; message := "FIM Alert Manager initialized" |}];
        outbox := [];
        fs := <["alert_config.ini" := Parsed default_config]> ∅ |})
  /\ cfg_getint_fallback default_config "Throttling" "throttle_period_seconds" 300 = Ret 300
  /\ cfg_getint_fallback default_config "Throttling" "max_alerts_per_file" 3 = Ret 3
  /\ sections default_config !! "AlertLevels"
     = Some (<[ "file_modified" := "MEDIUM" ]>
               (<[ "file_created" := "LOW" ]> (<[ "file_deleted" := "HIGH" ]> ∅))).
Proof.
  exact (C6_absent_config_defaults sample_json_loads empty_world "alert_config.ini"
           eq_refl eq_refl).
Defined.

End FimAlertFacts.

(** ** Facts about WatchDog.py *)

Module WatchDogFacts.
Import Py WatchDog.
Local Open Scope py_scope.

Section Handler.

Variable abspath : string -> string.

(** An event away from the log file is logged: one INFO record. *)
Lemma other_events_logged (self : CustomLoggingEventHandler) (event : FileSystemEvent)
    (log : list LogRecord) :
  event_type event = Modified ->
  should_ignore abspath self (src_path event) = false ->
  dispatch abspath self event log
  = (Ret tt, (log ++ [{| levelname := INFO;
                         message := "Modified " ++ kind_of event ++ ": " ++ src_path event
                                    ++ " - userid:" ++ user self |}])%list).
Proof.
  intros Hk Hi. unfold dispatch, on_modified. rewrite Hk, Hi. reflexivity.
Qed.

(** C8 (amended): the handler excludes one path, that of its own log file
    ([FIM_Logs.log] made absolute).  An event whose path is, once made
    absolute, that path is dropped whatever its kind -- created, modified,
    deleted or moved, and for a move the destination counts as well as the
    source: the log is left as it was.  Every other created, modified,
    deleted or moved event is logged with one INFO record, the events on
    baseline files and on the logs of the other scripts included. *)
Theorem C8_log_file_events_ignored (lf usr : string) (event : FileSystemEvent)
    (log : list LogRecord) :
  (abspath (src_path event) = abspath lf
   \/ (event_type event = Moved /\ abspath (dest_path event) = abspath lf) ->
   dispatch abspath (__init__ abspath lf usr) event log = (Ret tt, log))
  /\ (abspath (src_path event) <> abspath lf ->
      (event_type event = Moved -> abspath (dest_path event) <> abspath lf) ->
      event_type event <> Closed -> event_type event <> Opened ->
      exists m,
        dispatch abspath (__init__ abspath lf usr) event log
        = (Ret tt, (log ++ [{| levelname := INFO; message := m |}])%list)).
Proof.
  unfold dispatch, on_created, on_modified, on_deleted, on_moved, should_ignore.
  cbn [log_file __init__]. split.
  - intros [Hsrc|[Hk Hdest]].
    + rewrite Hsrc, String.eqb_refl. now destruct (event_type event).
    + rewrite Hk, Hdest, String.eqb_refl, orb_true_r. reflexivity.
  - intros Hsrc Hdest Hclosed Hopened.
    apply String.eqb_neq in Hsrc. rewrite Hsrc. cbn [orb].
    destruct (event_type event); try (eexists; reflexivity); try congruence.
    specialize (Hdest eq_refl). apply String.eqb_neq in Hdest. rewrite Hdest.
    eexists; reflexivity.
Qed.

End Handler.

Lemma C8_log_file_events_ignored_witness :
  dispatch (posix_abspath "/home/fim") (__init__ (posix_abspath "/home/fim") "FIM_Logs.log" "briana")
    {| event_type := Modified; src_path := "/home/fim/./FIM_Logs.log";
       dest_path := ""; is_directory := false |} []
  = (Ret tt, []).
Proof.
  apply (C8_log_file_events_ignored (posix_abspath "/home/fim") "FIM_Logs.log" "briana"
           {| event_type := Modified; src_path := "/home/fim/./FIM_Logs.log";
              dest_path := ""; is_directory := false |} []).
  left. vm_compute. reflexivity.
Defined.

(** C8 as stated does not hold: the exclusion does not cover the baseline.
    The handler started for [FIM_Logs.log] in [/home/fim] logs the creation,
    the modification, the deletion and the renaming of the snapshot
    [baselines/baseline_20240101_000000.json] that [create_baseline]
    writes, and a modification of the log of [project.py]. *)
Lemma C8_baseline_events_counterexample :
  let handler := __init__ (posix_abspath "/home/fim") "FIM_Logs.log" "briana" in
  let on k p :=
    dispatch (posix_abspath "/home/fim") handler
      {| event_type := k; src_path := p; dest_path := p ++ ".old"; is_directory := false |} [] in
  fst (Project.create_baseline Project.sample_env "root" Project.empty_world)
  = Ret "baselines/baseline_20240101_000000.json"
  /\ on Created "/home/fim/baselines/baseline_20240101_000000.json"
     = (Ret tt, [{| levelname := INFO;
                    message := "Created file: /home/fim/baselines/baseline_20240101_000000.json - userid:briana" |}])
  /\ on Modified "/home/fim/baselines/baseline_20240101_000000.json"
     = (Ret tt, [{| levelname := INFO;
                    message := "Modified file: /home/fim/baselines/baseline_20240101_000000.json - userid:briana" |}])
  /\ on Deleted "/home/fim/baselines/baseline_20240101_000000.json"
     = (Ret tt, [{| levelname := INFO;
                    message := "Deleted file: /home/fim/baselines/baseline_20240101_000000.json - userid:briana" |}])
  /\ on Moved "/home/fim/baselines/baseline_20240101_000000.json"
     = (Ret tt, [{| levelname := INFO;
                    message := "Renamed file: to baseline_20240101_000000.json.old - userid:briana" |}])
  /\ on Modified "/home/fim/fim_20240101.log"
     = (Ret tt, [{| levelname := INFO;
                    message := "Modified file: /home/fim/fim_20240101.log - userid:briana" |}])
  /\ on Modified "/home/fim/baselines/baseline_20240101_000000.json" <> (Ret tt, []).
Proof. cbv zeta. repeat split; vm_compute; (reflexivity || discriminate). Qed.

End WatchDogFacts.

(** ** Further facts about fim_alert.py and test_fim_alerts.py *)

Module FimAlertExtras.
Import Py FimAlert FimAlertExt FimAlertFacts.
Local Open Scope py_scope.

Section Callers.

Variable json_loads : string -> Outcome PyVal.

(** The constructor on a configuration file that parses. *)
Lemma init_parsed (write_result : option Exn) (config_file : string) (w : World)
    (c : ConfigParser) :
  fs w !! config_file = Some (Parsed c) ->
  __init__ json_loads write_result config_file w
  = match manager_from json_loads c with
    | Ret mgr => (Ret mgr, add_log INFO "FIM Alert Manager initialized" w)
    | Raise e => (Raise e, w)
    end.
Proof.
  intros Hfile. unfold __init__, _load_config, manager_from.
  unfold bind at 1. unfold bind at 1. unfold get at 1. rewrite Hfile. unfold ret at 1.
  repeat (unfold bind at 1, lift at 1;
          match goal with
          | |- context [match ?o with Ret _ => _ | Raise _ => _ end] =>
              destruct o; cbn [obind]; [|reflexivity]
          end).
  reflexivity.
Qed.

(** The constructor on a file the parser rejects, and on one that cannot
    be opened (read as an empty configuration). *)
Lemma init_unparsable (write_result : option Exn) (config_file : string) (w : World)
    (e : Exn) :
  fs w !! config_file = Some (Unparsable e) ->
  __init__ json_loads write_result config_file w = (Raise e, w).
Proof.
  intros Hfile. unfold __init__, _load_config.
  unfold bind at 1. unfold bind at 1. unfold get at 1. rewrite Hfile. reflexivity.
Qed.

Lemma init_unopenable (write_result : option Exn) (config_file : string) (w : World) :
  fs w !! config_file = Some Unopenable ->
  __init__ json_loads write_result config_file w = (Raise (NoSectionError "Email"), w).
Proof.
  intros Hfile. unfold __init__, _load_config.
  unfold bind at 1. unfold bind at 1. unfold get at 1. rewrite Hfile. reflexivity.
Qed.

(** What a manager read from a configuration holds. *)
Lemma manager_from_fields (c : ConfigParser) (mgr : FIMAlertManager) :
  manager_from json_loads c = Ret mgr ->
  config mgr = c /\ alert_history mgr = ∅
  /\ cfg_getint_fallback c "Throttling" "throttle_period_seconds" 300
     = Ret (throttle_period mgr).
Proof.
  unfold manager_from.
  repeat match goal with
         | |- obind ?o _ = _ -> _ => destruct o eqn:?; cbn [obind]; [|discriminate]
         end.
  intros [= <-]. cbn. auto.
Qed.

(** X1: when the configuration file exists the constructor never writes
    it, whatever it holds: the files and the outbox are as before, a
    successful construction adds the record "FIM Alert Manager initialized"
    and nothing else, and a construction that raises leaves the world as it
    was. *)
Theorem existing_config_untouched (write_result : option Exn) (config_file : string)
    (w : World) (f : IniFile) :
  fs w !! config_file = Some f ->
  fs (snd (__init__ json_loads write_result config_file w)) = fs w
  /\ outbox (snd (__init__ json_loads write_result config_file w)) = outbox w
  /\ match fst (__init__ json_loads write_result config_file w) with
     | Ret _ =>
         log (snd (__init__ json_loads write_result config_file w))
         = (log w ++ [{| levelname := INFO; message := "FIM Alert Manager initialized" |}])%list
     | Raise _ => snd (__init__ json_loads write_result config_file w) = w
     end.
Proof.
  intros Hfile. destruct f as [c|e|].
  - rewrite (init_parsed _ _ _ _ Hfile).
    destruct (manager_from json_loads c); cbn; auto.
  - rewrite (init_unparsable _ _ _ _ Hfile). cbn. auto.
  - rewrite (init_unopenable _ _ _ Hfile). cbn. auto.
Qed.

(** X2: when the configuration file is absent and cannot be created, the
    constructor raises the error of the write and leaves no trace: nothing
    is logged and no file appears. *)
Theorem unwritable_defaults_raise (e : Exn) (config_file : string) (w : World) :
  fs w !! config_file = None ->
  __init__ json_loads (Some e) config_file w = (Raise e, w).
Proof.
  intros Hfile. unfold __init__, _load_config.
  unfold bind at 1. unfold bind at 1. unfold get at 1. rewrite Hfile. reflexivity.
Qed.

(** X3: a configuration file without a [Throttling] section gives the
    fallbacks: the manager built from it has a period of 300 s and allows 3
    alerts per file. *)
Theorem missing_throttling_fallbacks (write_result : option Exn) (config_file : string)
    (w w' : World) (c : ConfigParser) (mgr : FIMAlertManager) :
  fs w !! config_file = Some (Parsed c) ->
  sections c !! "Throttling" = None ->
  __init__ json_loads write_result config_file w = (Ret mgr, w') ->
  throttle_period mgr = 300
  /\ cfg_getint_fallback (config mgr) "Throttling" "max_alerts_per_file" 3 = Ret 3.
Proof.
  intros Hfile Hsec. rewrite (init_parsed _ _ _ _ Hfile).
  destruct (manager_from json_loads c) as [m|] eqn:Hm; [|discriminate].
  intros [= -> _]. apply manager_from_fields in Hm as (Hc & _ & Hp).
  rewrite Hc. revert Hp. unfold cfg_getint_fallback, cfg_get, unify_values.
  rewrite Hsec. cbn. intros [= <-]. auto.
Qed.

End Callers.

Lemma existing_config_untouched_witness :
  fs (snd (__init__ sample_json_loads None "alert_config.ini"
             (world_with "alert_config.ini" (Parsed config_60_3))))
  = {[ "alert_config.ini" := Parsed config_60_3 ]}.
Proof.
  exact (proj1 (existing_config_untouched sample_json_loads None "alert_config.ini"
                  (world_with "alert_config.ini" (Parsed config_60_3))
                  (Parsed config_60_3) eq_refl)).
Defined.

Lemma unwritable_defaults_raise_witness :
  __init__ sample_json_loads (Some permission_error) "alert_config.ini" empty_world
  = (Raise permission_error, empty_world).
Proof.
  exact (unwritable_defaults_raise sample_json_loads permission_error "alert_config.ini"
           empty_world eq_refl).
Defined.

Lemma missing_throttling_fallbacks_witness :
  throttle_period (manager_of config_no_throttling 300 ∅) = 300
  /\ cfg_getint_fallback (config (manager_of config_no_throttling 300 ∅))
       "Throttling" "max_alerts_per_file" 3 = Ret 3.
Proof.
  refine (missing_throttling_fallbacks sample_json_loads None "alert_config.ini"
            (world_with "alert_config.ini" (Parsed config_no_throttling)) _
            config_no_throttling (manager_of config_no_throttling 300 ∅)
            eq_refl eq_refl _).
  vm_compute. reflexivity.
Defined.

Section Events.

Variable json_loads : string -> Outcome PyVal.

(** One event whose alert is delivered: the manager is built, the check
    passes on its empty history, the message goes out. *)
Lemma handle_event_delivered (write_result : option Exn) (env : Env)
    (event_type file_path : string) (old_hash new_hash : option string) (w : World)
    (c : ConfigParser) (mgr : FIMAlertManager) (maxn : Z) (to level : string) :
  fs w !! "alert_config.ini" = Some (Parsed c) ->
  manager_from json_loads c = Ret mgr ->
  cfg_getint_fallback c "Throttling" "max_alerts_per_file" 3 = Ret maxn ->
  alert_level_of c event_type = Ret level ->
  join_val ", " (recipient_emails (email_config mgr)) = Ret to ->
  smtp_result env = None ->
  handle_watchdog_event json_loads write_result env event_type file_path old_hash new_hash w
  = (Ret tt,
     add_log INFO ("Alert sent for " ++ event_type ++ " on " ++ file_path)
       (add_outbox (alert_of mgr env level event_type file_path to
                      (hash_details old_hash new_hash))
          (add_log INFO "FIM Alert Manager initialized" w))).
Proof.
  intros Hfile Hm Hmax Hlevel Hto Hsmtp.
  destruct (manager_from_fields json_loads c mgr Hm) as (Hc & Hh & _).
  unfold handle_watchdog_event. unfold bind at 1. rewrite (init_parsed _ _ _ _ _ Hfile), Hm.
  unfold bind at 1. unfold with_manager. rewrite send_alert_cases. cbn [self world].
  rewrite (should_send_first mgr _ _ maxn), Hc, Hlevel, Hto, Hsmtp;
    [reflexivity | now rewrite Hc |].
  rewrite Hh. apply lookup_empty.
Qed.

(** X4: through [handle_watchdog_event] the throttle never engages.  Each
    call builds a manager of its own, with an empty history, so with a
    configuration file that can be read and a transport that works every
    event whose alert level can be got is delivered, however many came
    before for the same file and whatever [max_alerts_per_file] says. *)
Theorem handle_events_never_throttled (events : list Event) (w : World)
    (c : ConfigParser) (mgr : FIMAlertManager) (maxn : Z) (to : string) :
  fs w !! "alert_config.ini" = Some (Parsed c) ->
  manager_from json_loads c = Ret mgr ->
  cfg_getint_fallback c "Throttling" "max_alerts_per_file" 3 = Ret maxn ->
  join_val ", " (recipient_emails (email_config mgr)) = Ret to ->
  Forall (fun ev => smtp_result (ev_env ev) = None
                    /\ returns (alert_level_of c (ev_type ev)) = true) events ->
  fst (handle_events json_loads events w) = repeat (Ret tt) (length events)
  /\ length (outbox (snd (handle_events json_loads events w)))
     = (length (outbox w) + length events)%nat
  /\ fs (snd (handle_events json_loads events w)) = fs w.
Proof.
  intros Hfile Hm Hmax Hto Hall. revert w Hfile.
  induction Hall as [|ev events [Hsmtp Hlevel] _ IH]; intros w Hfile; cbn [handle_events].
  - cbn. split; [reflexivity|]. split; [lia | reflexivity].
  - destruct (alert_level_of c (ev_type ev)) as [level|] eqn:Hlev; [|discriminate].
    rewrite (handle_event_delivered _ _ _ _ _ _ _ c mgr maxn to level
               Hfile Hm Hmax Hlev Hto Hsmtp).
    match goal with
    | |- context [handle_events json_loads events ?w1] =>
        destruct (IH w1) as (Hr & Hout & Hfs); [exact Hfile|];
        destruct (handle_events json_loads events w1) as [rs w2]
    end.
    cbn [fst snd] in *. rewrite Hr, Hout, Hfs. cbn. rewrite length_app. cbn.
    split; [reflexivity|]. split; [lia | reflexivity].
Qed.

(** X5: [handle_watchdog_event] reports hashes only in pairs.  When the
    old or the new hash is missing or empty -- a created or a deleted file
    -- the message that goes out has no "Additional Details" part: the hash
    that is known is dropped as well. *)
Theorem one_sided_hash_dropped (write_result : option Exn) (env : Env)
    (event_type file_path : string) (old_hash new_hash : option string) (w : World)
    (c : ConfigParser) (mgr : FIMAlertManager) (maxn : Z) (to level : string) :
  fs w !! "alert_config.ini" = Some (Parsed c) ->
  manager_from json_loads c = Ret mgr ->
  cfg_getint_fallback c "Throttling" "max_alerts_per_file" 3 = Ret maxn ->
  alert_level_of c event_type = Ret level ->
  join_val ", " (recipient_emails (email_config mgr)) = Ret to ->
  smtp_result env = None ->
  (truthy old_hash && truthy new_hash)%bool = false ->
  outbox (snd (handle_watchdog_event json_loads write_result env event_type file_path
                 old_hash new_hash w))
  = (outbox w ++ [alert_of mgr env level event_type file_path to []])%list.
Proof.
  intros Hfile Hm Hmax Hlevel Hto Hsmtp Hone.
  rewrite (handle_event_delivered _ _ _ _ _ _ _ c mgr maxn to level
             Hfile Hm Hmax Hlevel Hto Hsmtp).
  cbn. unfold hash_details. rewrite Hone. now destruct old_hash, new_hash.
Qed.

End Events.

Lemma handle_events_never_throttled_witness :
  fst (handle_events sample_json_loads
         [event_at 0 "/etc/passwd"; event_at 1 "/etc/passwd"; event_at 2 "/etc/passwd";
          event_at 3 "/etc/passwd"; event_at 4 "/etc/passwd"]
         (world_with "alert_config.ini" (Parsed config_60_3)))
  = repeat (Ret tt) 5
  /\ length (outbox (snd (handle_events sample_json_loads
                            [event_at 0 "/etc/passwd"; event_at 1 "/etc/passwd";
                             event_at 2 "/etc/passwd"; event_at 3 "/etc/passwd";
                             event_at 4 "/etc/passwd"]
                            (world_with "alert_config.ini" (Parsed config_60_3)))))
     = 5%nat
  /\ fs (snd (handle_events sample_json_loads
                [event_at 0 "/etc/passwd"; event_at 1 "/etc/passwd";
                 event_at 2 "/etc/passwd"; event_at 3 "/etc/passwd";
                 event_at 4 "/etc/passwd"]
                (world_with "alert_config.ini" (Parsed config_60_3))))
     = {[ "alert_config.ini" := Parsed config_60_3 ]}.
Proof.
  apply (handle_events_never_throttled sample_json_loads
           [event_at 0 "/etc/passwd"; event_at 1 "/etc/passwd"; event_at 2 "/etc/passwd";
            event_at 3 "/etc/passwd"; event_at 4 "/etc/passwd"]
           (world_with "alert_config.ini" (Parsed config_60_3))
           config_60_3 (manager_of config_60_3 60 ∅) 3
           "admin@example.com, security@example.com");
    try reflexivity.
  repeat constructor.
Defined.

Lemma one_sided_hash_dropped_witness :
  outbox (snd (handle_watchdog_event sample_json_loads None (delivered_at 0)
                 "created" "/srv/new.txt" None (Some "def456")
                 (world_with "alert_config.ini" (Parsed config_60_3))))
  = [alert_of (manager_of config_60_3 60 ∅) (delivered_at 0) "LOW" "created" "/srv/new.txt"
       "admin@example.com, security@example.com" []].
Proof.
  exact (one_sided_hash_dropped sample_json_loads None (delivered_at 0)
           "created" "/srv/new.txt" None (Some "def456")
           (world_with "alert_config.ini" (Parsed config_60_3))
           config_60_3 (manager_of config_60_3 60 ∅) 3
           "admin@example.com, security@example.com" "LOW"
           eq_refl eq_refl eq_refl eq_refl eq_refl eq_refl eq_refl).
Defined.

(** *** Runs of [send_alert] on one manager *)

(** No call changes the settings of the manager. *)
Lemma send_alert_settings (env : Env) (event_type path : string)
    (details : list (string * string)) (s : State) :
  same_settings (self s) (self (snd (send_alert env event_type path details s))).
Proof.
  rewrite send_alert_cases.
  destruct (_should_send_alert _ _ _) as [[|]|e]; try (repeat split; reflexivity).
  destruct (alert_level_of _ _) as [level|e]; try (repeat split; reflexivity).
  destruct (join_val _ _) as [to|e]; try (repeat split; reflexivity).
  destruct (smtp_result env); [repeat split; reflexivity|]. apply update_keeps.
Qed.

(** The check looks at the settings and at the entry of its own path
    only. *)
Lemma should_send_local (m1 m2 : FIMAlertManager) (now : float) (path : string) :
  same_settings m1 m2 ->
  alert_history m1 !! path = alert_history m2 !! path ->
  _should_send_alert m1 now path = _should_send_alert m2 now path.
Proof.
  intros (Hc & _ & Hp) Hh. unfold _should_send_alert. now rewrite Hc, Hp, Hh.
Qed.

Lemma update_local (m1 m2 : FIMAlertManager) (now : float) (path : string) :
  same_settings m1 m2 ->
  alert_history m1 !! path = alert_history m2 !! path ->
  alert_history (_update_alert_history m1 now path) !! path
  = alert_history (_update_alert_history m2 now path) !! path.
Proof.
  intros (_ & _ & Hp) Hh. unfold _update_alert_history. rewrite Hp, <- Hh.
  destruct (alert_history m1 !! path) as [[last c]|]; [destruct (float_lt_int _ _)|];
    cbn; now rewrite !lookup_insert_eq.
Qed.

(** One call keeps the counts within the limit when its two clock readings
    are in order. *)
Lemma step_counts_bounded (env : Env) (event_type path : string)
    (details : list (string * string)) (s : State) (maxn : Z) :
  cfg_getint_fallback (config (self s)) "Throttling" "max_alerts_per_file" 3 = Ret maxn ->
  PrimFloat.leb (t_check env) (t_update env) = true ->
  counts_bounded maxn (alert_history (self s)) ->
  counts_bounded maxn (alert_history (self (snd (send_alert env event_type path details s)))).
Proof.
  intros Hmax Hclock Hinv. rewrite send_alert_cases.
  destruct (_should_send_alert _ _ _) as [[|]|e] eqn:Hcheck; try exact Hinv.
  destruct (alert_level_of _ _) as [level|e]; try exact Hinv.
  destruct (join_val _ _) as [to|e]; try exact Hinv.
  destruct (smtp_result env); [exact Hinv|]. cbn [snd self].
  unfold _should_send_alert in Hcheck. rewrite Hmax in Hcheck. cbn [obind] in Hcheck.
  unfold _update_alert_history.
  assert (forall t n, 1 <= n <= Z.max 1 maxn ->
            counts_bounded maxn (<[path := (t, n)]> (alert_history (self s)))) as Hins.
  { intros t n Hn p last c. rewrite lookup_insert. case_decide.
    - intros [= <- <-]. exact Hn.
    - apply Hinv. }
  destruct (alert_history (self s) !! path) as [[last c]|] eqn:Hentry; cbn.
  - destruct (float_lt_int (t_update env - last) _) eqn:Hu; cbn; [|apply Hins; lia].
    apply Hins. pose proof (Hinv _ _ _ Hentry) as Hc.
    rewrite (FloatFacts.float_sub_mono _ _ _ _ Hclock Hu) in Hcheck.
    destruct (Z.ltb_spec c maxn); [lia | discriminate].
  - apply Hins. lia.
Qed.

(** X6: the counts stay within the limit.  Starting from a history whose
    counts lie between 1 and [max_alerts_per_file] -- the empty history for
    one -- every run of [send_alert] calls, on whatever files, in which no
    call sees the clock go backwards between its check and its update, ends
    in such a history. *)
Theorem counts_stay_bounded (calls : list Call) (s : State) (maxn : Z) :
  cfg_getint_fallback (config (self s)) "Throttling" "max_alerts_per_file" 3 = Ret maxn ->
  Forall (fun c => PrimFloat.leb (t_check (call_env c)) (t_update (call_env c)) = true)
    calls ->
  counts_bounded maxn (alert_history (self s)) ->
  counts_bounded maxn (alert_history (self (snd (run_calls calls s)))).
Proof.
  intros Hmax Hall. revert s Hmax.
  induction Hall as [|c calls Hclock _ IH]; intros s Hmax Hinv; cbn [run_calls]; [exact Hinv|].
  pose proof (step_counts_bounded (call_env c) (call_type c) (call_path c) (call_details c)
                s maxn Hmax Hclock Hinv) as Hstep.
  pose proof (send_alert_settings (call_env c) (call_type c) (call_path c) (call_details c) s)
    as (Hc & _ & _).
  destruct (send_alert _ _ _ _ s) as [r s1]. cbn [snd] in *.
  specialize (IH s1). destruct (run_calls calls s1) as [rs s2]. cbn [snd] in *.
  apply IH; [now rewrite Hc | exact Hstep].
Qed.

(** X7: a file that has used up its alerts stays silent.  With the count
    of a file at or above the limit, any run of calls for that file whose
    checks the code finds inside the period of the last delivered alert is
    denied throughout: every call returns [False], no message is handed to SMTP,
    and the manager is left as it was, so the denials neither extend nor
    shorten the period. *)
Theorem saturated_file_stays_silent (calls : list Call) (s : State) (path : string)
    (maxn : Z) (last : float) (c : Z) :
  cfg_getint_fallback (config (self s)) "Throttling" "max_alerts_per_file" 3 = Ret maxn ->
  alert_history (self s) !! path = Some (last, c) ->
  maxn <= c ->
  Forall (fun cl => call_path cl = path
                    /\ float_lt_int (t_check (call_env cl) - last) (throttle_period (self s))
                       = true)
    calls ->
  fst (run_calls calls s) = repeat (Ret false) (length calls)
  /\ self (snd (run_calls calls s)) = self s
  /\ outbox (world (snd (run_calls calls s))) = outbox (world s).
Proof.
  intros Hmax Hentry Hfull Hall.
  remember (self s) as mgr eqn:Hmgr. revert s Hmgr.
  induction Hall as [|cl calls [Hpath Hin] _ IH]; intros s Hmgr; cbn [run_calls].
  - cbn. auto.
  - rewrite send_alert_cases, <- Hmgr, Hpath.
    rewrite (should_send_within mgr _ last c path maxn Hmax Hentry Hin).
    destruct (Z.ltb_spec c maxn); [lia|].
    match goal with
    | |- context [run_calls calls ?s1] =>
        destruct (IH s1) as (Hr & Hs & Ho); [cbn [self in_state]; exact Hmgr|];
        destruct (run_calls calls s1) as [rs s2]
    end.
    cbn [fst snd] in *. rewrite Hr, Hs, Ho. cbn. auto.
Qed.

(** X8: deliveries that fail are not counted.  For a file without
    history, any run of calls whose alert level can be got and whose SMTP
    session fails is admitted every time: each call opens a session, logs the failure and returns [False],
    and the manager never learns of the attempts. *)
Theorem failed_deliveries_not_counted (calls : list Call) (s : State) (path : string)
    (maxn : Z) (to : string) :
  cfg_getint_fallback (config (self s)) "Throttling" "max_alerts_per_file" 3 = Ret maxn ->
  alert_history (self s) !! path = None ->
  join_val ", " (recipient_emails (email_config (self s))) = Ret to ->
  Forall (fun cl => call_path cl = path
                    /\ returns (alert_level_of (config (self s)) (call_type cl)) = true
                    /\ is_Some (smtp_result (call_env cl))) calls ->
  fst (run_calls calls s) = repeat (Ret false) (length calls)
  /\ self (snd (run_calls calls s)) = self s
  /\ length (outbox (world (snd (run_calls calls s))))
     = (length (outbox (world s)) + length calls)%nat.
Proof.
  intros Hmax Hentry Hto Hall.
  remember (self s) as mgr eqn:Hmgr. revert s Hmgr.
  induction Hall as [|cl calls (Hpath & Hlevel & e & He) _ IH]; intros s Hmgr; cbn [run_calls].
  - cbn. split; [reflexivity|]. split; [auto | lia].
  - rewrite send_alert_cases, <- Hmgr, Hpath.
    destruct (alert_level_of (config mgr) (call_type cl)) as [level|]; [|discriminate].
    rewrite (should_send_first mgr _ path maxn Hmax Hentry), Hto, He. cbv beta iota zeta.
    match goal with
    | |- context [run_calls calls ?s1] =>
        destruct (IH s1) as (Hr & Hs & Ho); [cbn [self in_state]; exact Hmgr|];
        destruct (run_calls calls s1) as [rs s2]
    end.
    cbn [fst snd] in *. rewrite Hr, Hs, Ho. cbn. rewrite length_app. cbn.
    split; [reflexivity|]. split; [reflexivity | lia].
Qed.

Lemma counts_stay_bounded_witness :
  counts_bounded 3
    (alert_history
       (self (snd (run_calls [call_at 0 "/etc/passwd"; call_at 10 "/etc/hosts";
                              call_at 20 "/etc/passwd"; call_at 30 "/etc/passwd";
                              call_at 40 "/etc/passwd"]
                     (state_60_3 ∅))))).
Proof.
  apply (counts_stay_bounded
           [call_at 0 "/etc/passwd"; call_at 10 "/etc/hosts"; call_at 20 "/etc/passwd";
            call_at 30 "/etc/passwd"; call_at 40 "/etc/passwd"]
           (state_60_3 ∅) 3 eq_refl).
  - repeat constructor.
  - intros p last c Hp. cbn in Hp. rewrite lookup_empty in Hp. discriminate.
Defined.

Lemma saturated_file_stays_silent_witness :
  fst (run_calls [call_at 30 "/etc/passwd"; call_at 40 "/etc/passwd"; call_at 50 "/etc/passwd"]
         (state_60_3 {[ "/etc/passwd" := (20%float, 3) ]}))
  = [Ret false; Ret false; Ret false]
  /\ self (snd (run_calls [call_at 30 "/etc/passwd"; call_at 40 "/etc/passwd";
                           call_at 50 "/etc/passwd"]
                  (state_60_3 {[ "/etc/passwd" := (20%float, 3) ]})))
     = manager_of config_60_3 60 {[ "/etc/passwd" := (20%float, 3) ]}
  /\ outbox (world (snd (run_calls [call_at 30 "/etc/passwd"; call_at 40 "/etc/passwd";
                                    call_at 50 "/etc/passwd"]
                           (state_60_3 {[ "/etc/passwd" := (20%float, 3) ]}))))
     = [].
Proof.
  apply (saturated_file_stays_silent
           [call_at 30 "/etc/passwd"; call_at 40 "/etc/passwd"; call_at 50 "/etc/passwd"]
           (state_60_3 {[ "/etc/passwd" := (20%float, 3) ]}) "/etc/passwd" 3 20%float 3);
    [reflexivity | reflexivity | lia |].
  repeat constructor.
Defined.

Lemma failed_deliveries_not_counted_witness :
  fst (run_calls [failing_at 0 "/etc/passwd"; failing_at 1 "/etc/passwd";
                  failing_at 2 "/etc/passwd"; failing_at 3 "/etc/passwd"]
         (state_60_3 ∅))
  = [Ret false; Ret false; Ret false; Ret false]
  /\ self (snd (run_calls [failing_at 0 "/etc/passwd"; failing_at 1 "/etc/passwd";
                           failing_at 2 "/etc/passwd"; failing_at 3 "/etc/passwd"]
                  (state_60_3 ∅)))
     = manager_of config_60_3 60 ∅
  /\ length (outbox (world (snd (run_calls [failing_at 0 "/etc/passwd";
                                            failing_at 1 "/etc/passwd";
                                            failing_at 2 "/etc/passwd";
                                            failing_at 3 "/etc/passwd"]
                                   (state_60_3 ∅)))))
     = 4%nat.
Proof.
  apply (failed_deliveries_not_counted
           [failing_at 0 "/etc/passwd"; failing_at 1 "/etc/passwd";
            failing_at 2 "/etc/passwd"; failing_at 3 "/etc/passwd"]
           (state_60_3 ∅) "/etc/passwd" 3 "admin@example.com, security@example.com");
    [reflexivity | reflexivity | reflexivity |].
  repeat constructor; eexists; reflexivity.
Defined.

(** Two states whose managers have the same settings and the same entry
    for [path] stay so after a call on [path], which returns the same in
    both. *)
Lemma step_same_path (env : Env) (event_type path : string)
    (details : list (string * string)) (s1 s2 : State) :
  same_settings (self s1) (self s2) ->
  alert_history (self s1) !! path = alert_history (self s2) !! path ->
  fst (send_alert env event_type path details s1)
  = fst (send_alert env event_type path details s2)
  /\ alert_history (self (snd (send_alert env event_type path details s1))) !! path
     = alert_history (self (snd (send_alert env event_type path details s2))) !! path.
Proof.
  intros Hset Hh. rewrite !send_alert_cases.
  rewrite (should_send_local _ _ (t_check env) path Hset Hh).
  destruct Hset as (Hc & He & Hp). rewrite He, Hc.
  destruct (_should_send_alert (self s2) _ _) as [[|]|e]; try (split; [reflexivity|exact Hh]).
  destruct (alert_level_of _ _) as [level|e]; try (split; [reflexivity|exact Hh]).
  destruct (join_val _ _) as [to|e]; try (split; [reflexivity|exact Hh]).
  destruct (smtp_result env); [split; [reflexivity|exact Hh]|].
  split; [reflexivity|]. cbn [snd self]. apply update_local; [repeat split|]; assumption.
Qed.

(** A call on another path leaves the entry of [path] alone. *)
Lemma step_other_path (env : Env) (event_type path q : string)
    (details : list (string * string)) (s : State) :
  q <> path ->
  alert_history (self (snd (send_alert env event_type q details s))) !! path
  = alert_history (self s) !! path.
Proof.
  intros Hne. rewrite send_alert_cases.
  destruct (_should_send_alert _ _ _) as [[|]|e]; try reflexivity.
  destruct (alert_level_of _ _) as [level|e]; try reflexivity.
  destruct (join_val _ _) as [to|e]; try reflexivity.
  destruct (smtp_result env); [reflexivity|]. cbn [snd self]. apply update_other. congruence.
Qed.

Lemma same_settings_trans (m1 m2 m3 : FIMAlertManager) :
  same_settings m1 m2 -> same_settings m2 m3 -> same_settings m1 m3.
Proof. intros (? & ? & ?) (? & ? & ?). repeat split; congruence. Qed.

Lemma same_settings_sym (m1 m2 : FIMAlertManager) :
  same_settings m1 m2 -> same_settings m2 m1.
Proof. intros (? & ? & ?). repeat split; congruence. Qed.

(** X9: files are throttled independently.  In any run of calls, what the
    calls on one file return is what they would return had the calls on all
    other files never been made (the same clock readings and SMTP outcomes
    given); this holds for any two managers with the same settings and the
    same entry for the file. *)
Theorem other_files_do_not_interfere (calls : list Call) (s1 s2 : State) (path : string) :
  same_settings (self s1) (self s2) ->
  alert_history (self s1) !! path = alert_history (self s2) !! path ->
  results_on path calls (fst (run_calls calls s1))
  = fst (run_calls (filter (fun c => call_path c = path) calls) s2).
Proof.
  revert s1 s2. induction calls as [|c calls IH]; intros s1 s2 Hset Hh; cbn [run_calls].
  - reflexivity.
  - rewrite filter_cons. unfold results_on.
    pose proof (send_alert_settings (call_env c) (call_type c) (call_path c)
                  (call_details c) s1) as Hset1.
    destruct (decide (call_path c = path)) as [Hp|Hp].
    + cbn [run_calls].
      pose proof (send_alert_settings (call_env c) (call_type c) (call_path c)
                    (call_details c) s2) as Hset2.
      rewrite Hp in *.
      destruct (step_same_path (call_env c) (call_type c) path (call_details c) s1 s2 Hset Hh)
        as (Hr & Hh').
      destruct (send_alert _ _ _ _ s1) as [r1 t1], (send_alert _ _ _ _ s2) as [r2 t2].
      cbn [fst snd] in *. subst r2.
      assert (same_settings (self t1) (self t2)) as Hset'
        by (eauto using same_settings_trans, same_settings_sym).
      specialize (IH t1 t2 Hset' Hh'). unfold results_on in IH.
      destruct (run_calls calls t1) as [rs1 u1], (run_calls _ t2) as [rs2 u2].
      cbn [fst snd zip zip_with] in *. rewrite filter_cons. cbn [fst].
      destruct (decide (call_path c = path)); [|congruence].
      cbn. now rewrite IH.
    + pose proof (step_other_path (call_env c) (call_type c) path (call_path c)
                    (call_details c) s1 Hp) as Hh'.
      destruct (send_alert _ _ _ _ s1) as [r1 t1]. cbn [fst snd] in *.
      assert (same_settings (self t1) (self s2)) as Hset'
        by (eauto using same_settings_trans, same_settings_sym).
      specialize (IH t1 s2 Hset' (eq_trans Hh' Hh)). unfold results_on in IH.
      destruct (run_calls calls t1) as [rs1 u1].
      cbn [fst snd zip zip_with] in *. rewrite filter_cons. cbn [fst].
      destruct (decide (call_path c = path)); [congruence|]. exact IH.
Qed.

Lemma other_files_do_not_interfere_witness :
  results_on "/etc/passwd"
    [call_at 0 "/etc/passwd"; call_at 1 "/etc/hosts"; call_at 2 "/etc/passwd";
     call_at 3 "/etc/hosts"; call_at 4 "/etc/passwd"; call_at 5 "/etc/passwd"]
    (fst (run_calls [call_at 0 "/etc/passwd"; call_at 1 "/etc/hosts"; call_at 2 "/etc/passwd";
                     call_at 3 "/etc/hosts"; call_at 4 "/etc/passwd"; call_at 5 "/etc/passwd"]
            (state_60_3 ∅)))
  = fst (run_calls [call_at 0 "/etc/passwd"; call_at 2 "/etc/passwd";
                    call_at 4 "/etc/passwd"; call_at 5 "/etc/passwd"]
           (state_60_3 ∅)).
Proof.
  apply (other_files_do_not_interfere
           [call_at 0 "/etc/passwd"; call_at 1 "/etc/hosts"; call_at 2 "/etc/passwd";
            call_at 3 "/etc/hosts"; call_at 4 "/etc/passwd"; call_at 5 "/etc/passwd"]
           (state_60_3 ∅) (state_60_3 ∅) "/etc/passwd").
  - repeat split.
  - reflexivity.
Defined.

(** X10: a limit that is not a number breaks every alert.  When
    [max_alerts_per_file] is present and [int] rejects it, [send_alert]
    raises the [ValueError] of [int] -- "invalid literal for int() with base
    10: " and the [repr] of the value, cut at 200 characters -- on every
    call, also for a file never alerted on, before anything is logged or
    sent: the fallback of 3 covers a missing option only. *)
Theorem malformed_limit_raises (env : Env) (event_type path : string)
    (details : list (string * string)) (s : State) (v : string) :
  cfg_get (config (self s)) "Throttling" "max_alerts_per_file" = Ret v ->
  int_of_str v = None ->
  send_alert env event_type path details s = (Raise (invalid_literal v), s).
Proof.
  intros Hget Hint. rewrite send_alert_cases.
  unfold _should_send_alert, cfg_getint_fallback. unfold cfg_get in Hget.
  destruct (unify_values _ _) as [d|]; [|discriminate].
  destruct (d !! _) as [value|]; [|discriminate].
  rewrite Hget. cbn [obind]. unfold int. now rewrite Hint.
Qed.

(** The message of that error shows the value as [repr] does: in double
    quotes when it holds a single quote, with escapes for what does not
    print. *)
Example malformed_limit_messages :
  exn_str (invalid_literal "three") = "invalid literal for int() with base 10: 'three'"
  /\ exn_str (invalid_literal "it's 3")
     = String.append "invalid literal for int() with base 10: "
         (String dquote (String.append "it's 3" (String dquote "")))
  /\ exn_str (invalid_literal (String "009"%char "3x"))
     = "invalid literal for int() with base 10: '\t3x'".
Proof. repeat split; vm_compute; reflexivity. Qed.

Lemma malformed_limit_raises_witness :
  send_alert (delivered_at 0) "modified" "/etc/passwd" []
    {| self := manager_of config_bad_max 60 ∅; world := empty_world |}
  = (Raise (invalid_literal "three"),
     {| self := manager_of config_bad_max 60 ∅; world := empty_world |}).
Proof.
  exact (malformed_limit_raises (delivered_at 0) "modified" "/etc/passwd" []
           {| self := manager_of config_bad_max 60 ∅; world := empty_world |} "three"
           eq_refl eq_refl).
Defined.

(** X11: what a call of [send_alert] can touch.  It never changes the
    settings of the manager nor the files; it keeps every earlier message
    and log record, adding at most one message; a call that returns adds
    exactly one log record, and a call that raises changes nothing. *)
Theorem send_alert_footprint (env : Env) (event_type path : string)
    (details : list (string * string)) (s : State) :
  same_settings (self s) (self (snd (send_alert env event_type path details s)))
  /\ fs (world (snd (send_alert env event_type path details s))) = fs (world s)
  /\ (exists sent, outbox (world (snd (send_alert env event_type path details s)))
                   = (outbox (world s) ++ sent)%list /\ (length sent <= 1)%nat)
  /\ match fst (send_alert env event_type path details s) with
     | Ret _ => exists record,
                  log (world (snd (send_alert env event_type path details s)))
                  = (log (world s) ++ [record])%list
     | Raise _ => snd (send_alert env event_type path details s) = s
     end.
Proof.
  split; [apply send_alert_settings|]. rewrite send_alert_cases.
  destruct (_should_send_alert _ _ _) as [[|]|e]; cbn.
  - destruct (alert_level_of _ _) as [level|e];
      [destruct (join_val _ _) as [to|e]; [destruct (smtp_result env)|]|]; cbn;
      (split; [reflexivity|]);
      (split; [first [ exists []; rewrite app_nil_r; split; [reflexivity | cbn; lia]
                     | eexists [_]; split; [reflexivity | cbn; lia] ]
              | first [eexists; reflexivity | reflexivity] ]).
  - split; [reflexivity|]. split; [|eexists; reflexivity].
    exists []. rewrite app_nil_r. split; [reflexivity | cbn; lia].
  - split; [reflexivity|]. split; [|reflexivity].
    exists []. rewrite app_nil_r. split; [reflexivity | cbn; lia].
Qed.

Section Script.

Variable json_loads : string -> Outcome PyVal.

(** One event whose delivery fails: the failure is logged, the caller is
    told nothing. *)
Lemma handle_event_failed (write_result : option Exn) (env : Env)
    (event_type file_path : string) (old_hash new_hash : option string) (w : World)
    (c : ConfigParser) (mgr : FIMAlertManager) (maxn : Z) (to level : string) (e : Exn) :
  fs w !! "alert_config.ini" = Some (Parsed c) ->
  manager_from json_loads c = Ret mgr ->
  cfg_getint_fallback c "Throttling" "max_alerts_per_file" 3 = Ret maxn ->
  alert_level_of c event_type = Ret level ->
  join_val ", " (recipient_emails (email_config mgr)) = Ret to ->
  smtp_result env = Some e ->
  handle_watchdog_event json_loads write_result env event_type file_path old_hash new_hash w
  = (Ret tt,
     add_log ERROR ("Failed to send alert: " ++ exn_str e)
       (add_outbox (alert_of mgr env level event_type file_path to
                      (hash_details old_hash new_hash))
          (add_log INFO "FIM Alert Manager initialized" w))).
Proof.
  intros Hfile Hm Hmax Hlevel Hto Hsmtp.
  destruct (manager_from_fields json_loads c mgr Hm) as (Hc & Hh & _).
  unfold handle_watchdog_event. unfold bind at 1. rewrite (init_parsed _ _ _ _ _ Hfile), Hm.
  unfold bind at 1. unfold with_manager. rewrite send_alert_cases. cbn [self world].
  rewrite (should_send_first mgr _ _ maxn), Hc, Hlevel, Hto, Hsmtp;
    [reflexivity | now rewrite Hc |].
  rewrite Hh. apply lookup_empty.
Qed.

(** X12: the test script reports success whatever happened to the alert.
    With a readable configuration, an alert level that can be got and a
    transport that fails, [main] still
    ends by printing "Test alert sent. Check your email and the log file.";
    the failure is in the log only.  The option [--details] changes
    nothing: the message carries the two hashes and none of the user,
    timestamp and process id collected for it. *)
Theorem main_reports_sent_after_failure (args : Args) (denv : DetailsEnv)
    (write_result : option Exn) (env : Env) (con : Console)
    (c : ConfigParser) (mgr : FIMAlertManager) (maxn : Z) (to level : string) (e : Exn) :
  fs (fim con) !! "alert_config.ini" = Some (Parsed c) ->
  manager_from json_loads c = Ret mgr ->
  cfg_getint_fallback c "Throttling" "max_alerts_per_file" 3 = Ret maxn ->
  alert_level_of c (arg_event_type args) = Ret level ->
  join_val ", " (recipient_emails (email_config mgr)) = Ret to ->
  smtp_result env = Some e ->
  main json_loads args denv write_result env con
  = (Ret tt,
     {| stdout := (stdout con
                   ++ [("Testing FIM Alert System with " ++ arg_event_type args
                        ++ " event on " ++ arg_file_path args)%string;
                       "Test alert sent. Check your email and the log file."])%list;
        fim := add_log ERROR ("Failed to send alert: " ++ exn_str e)
                 (add_outbox
                    (alert_of mgr env level (arg_event_type args) (arg_file_path args) to
                       (hash_details (Some (arg_old_hash args)) (Some (arg_new_hash args))))
                    (add_log INFO "FIM Alert Manager initialized" (fim con))) |}).
Proof.
  intros Hfile Hm Hmax Hlevel Hto Hsmtp.
  unfold main, bind, print, modify, in_fim. cbn [fim stdout].
  rewrite (handle_event_failed _ _ _ _ _ _ _ c mgr maxn to level e
             Hfile Hm Hmax Hlevel Hto Hsmtp).
  cbn [fim stdout]. rewrite <- app_assoc. reflexivity.
Qed.

End Script.

Lemma main_reports_sent_after_failure_witness :
  stdout (snd (main sample_json_loads
                 {| arg_event_type := "modified"; arg_file_path := "/etc/passwd";
                    arg_old_hash := "abc123"; arg_new_hash := "def456";
                    arg_details := true |}
                 {| env_user := None; env_now := "2024-01-01 00:00:00"; env_pid := "4242" |}
                 None
                 {| t_check := 0; t_stamp := "2024-01-01 00:00:00";
                    smtp_result := Some smtp_down; t_update := 0 |}
                 {| stdout := [];
                    fim := world_with "alert_config.ini" (Parsed config_60_3) |}))
  = ["Testing FIM Alert System with modified event on /etc/passwd";
     "Test alert sent. Check your email and the log file."].
Proof.
  exact (f_equal (fun r => stdout (snd r))
           (main_reports_sent_after_failure sample_json_loads
              {| arg_event_type := "modified"; arg_file_path := "/etc/passwd";
                 arg_old_hash := "abc123"; arg_new_hash := "def456";
                 arg_details := true |}
              {| env_user := None; env_now := "2024-01-01 00:00:00"; env_pid := "4242" |}
              None
              {| t_check := 0; t_stamp := "2024-01-01 00:00:00";
                 smtp_result := Some smtp_down; t_update := 0 |}
              {| stdout := [];
                 fim := world_with "alert_config.ini" (Parsed config_60_3) |}
              config_60_3 (manager_of config_60_3 60 ∅) 3
              "admin@example.com, security@example.com" "MEDIUM" smtp_down
              eq_refl eq_refl eq_refl eq_refl eq_refl eq_refl)).
Defined.

End FimAlertExtras.


(** ** Further facts about project.py *)

Module ProjectExtras.
Import Py Project ProjectExt ProjectFacts.
Local Open Scope py_scope.

Lemma hex_digit_is_hex (x : N) : is_hex (Sha256.hex_digit (N.land x 15)) = true.
Proof.
  change 15%N with (N.ones 4). rewrite N.land_ones.
  assert (x mod 2 ^ 4 < 16)%N as Hy by (apply N.mod_upper_bound; discriminate).
  revert Hy. generalize (x mod 2 ^ 4)%N. intros y Hy.
  assert (y = 0 \/ y = 1 \/ y = 2 \/ y = 3 \/ y = 4 \/ y = 5 \/ y = 6 \/ y = 7 \/ y = 8
          \/ y = 9 \/ y = 10 \/ y = 11 \/ y = 12 \/ y = 13 \/ y = 14 \/ y = 15)%N
    as Hcases by lia.
  repeat (destruct Hcases as [-> | Hcases]; [reflexivity|]). now subst.
Qed.

Lemma hexdigest_is_hex (data : list Byte.byte) :
  Forall (fun c => is_hex c = true) (list_ascii_of_string (Sha256.hexdigest data)).
Proof.
  unfold Sha256.hexdigest, Sha256.hex_of_words, Sha256.hex8. cbn [list_ascii_of_string].
  repeat (constructor; [apply hex_digit_is_hex|]). constructor.
Qed.

(** X13: what [calculate_hash] does with a failure depends on its class.
    Either it returns a digest of 64 lower-case hexadecimal digits and logs
    nothing; or opening or reading the file raises an [OSError] (or a
    subclass: [PermissionError], [FileNotFoundError], ...) and it returns
    [None] after logging one ERROR record naming the file and the error; or
    another exception is raised, which the [except] clause does not catch:
    it goes on to the caller and nothing is logged. *)
Theorem calculate_hash_outcomes (disk : string -> FileNode) (file_path : string) (w : World) :
  (exists h, calculate_hash disk file_path w = (Ret (Some h), w)
             /\ hash_file (open_rb disk file_path) = Ret h
             /\ String.length h = 64%nat
             /\ Forall (fun c => is_hex c = true) (list_ascii_of_string h))
  \/ (exists e, calculate_hash disk file_path w
                = (Ret None, {| log := (log w ++ [read_failure file_path e])%list;
                                written := written w |})
                /\ hash_file (open_rb disk file_path) = Raise e
                /\ is_OSError e = true)
  \/ (exists e, calculate_hash disk file_path w = (Raise e, w)
                /\ hash_file (open_rb disk file_path) = Raise e
                /\ is_OSError e = false).
Proof.
  rewrite calculate_hash_cases.
  destruct (hash_file (open_rb disk file_path)) as [h|e] eqn:Hh.
  - left. exists h. split; [reflexivity|]. split; [reflexivity|].
    destruct (open_rb disk file_path) as [e|reads fault]; cbn in Hh; [discriminate|].
    destruct (read_blocks reads fault []); cbn in Hh; [|discriminate].
    injection Hh as <-. split; [reflexivity | apply hexdigest_is_hex].
  - right. destruct (is_OSError e) eqn:Hos; [left|right]; exists e; auto.
Qed.

(** A path with a NUL character in it is refused by [open] with a
    [ValueError], whatever is on the disk: [calculate_hash] raises, and so
    does a [create_baseline] that meets such a path. *)
Lemma nul_path_raises (disk : string -> FileNode) (w : World) :
  calculate_hash disk nul_path w = (Raise (ValueError "embedded null byte"), w).
Proof. rewrite calculate_hash_cases. reflexivity. Qed.

Lemma read_blocks_concat (reads : list (list Byte.byte)) (fault : option Exn)
    (acc : list Byte.byte) :
  Forall (fun block => block <> []) reads ->
  read_blocks reads fault acc
  = match fault with
    | None => Ret (acc ++ concat reads)%list
    | Some e => Raise e
    end.
Proof.
  intros Hall. revert acc. induction Hall as [|block reads Hne _ IH]; intros acc; cbn.
  - destruct fault; [reflexivity|]. now rewrite app_nil_r.
  - destruct block as [|b block]; [congruence|]. rewrite IH.
    destruct fault; [reflexivity|]. now rewrite <- app_assoc.
Qed.

(** X14: the digest does not depend on how the reads cut the file.  For
    blocks none of which is empty, the digest of a file read to its end is
    the SHA-256 of the blocks put together, so two ways of cutting the same
    content give the same digest; and when a read fails, however much was
    read before, the error is raised and no digest of the part read comes
    out. *)
Theorem digest_ignores_block_boundaries (reads : list (list Byte.byte)) :
  Forall (fun block => block <> []) reads ->
  hash_file (Opened reads None) = Ret (Sha256.hexdigest (concat reads))
  /\ forall e, hash_file (Opened reads (Some e)) = Raise e.
Proof.
  intros Hall. split; [|intros e]; cbn [hash_file]; now rewrite read_blocks_concat.
Qed.

Lemma digest_ignores_block_boundaries_witness :
  hash_file (Opened [list_byte_of_string "wor"; list_byte_of_string "ld"] None)
  = Ret (Sha256.hexdigest (list_byte_of_string "world"))
  /\ forall e, hash_file (Opened [list_byte_of_string "wor"; list_byte_of_string "ld"] (Some e))
               = Raise e.
Proof.
  apply (digest_ignores_block_boundaries
           [list_byte_of_string "wor"; list_byte_of_string "ld"]).
  repeat constructor; discriminate.
Defined.

Lemma dict_set_fresh (d : list (string * string)) (k v : string) :
  k ∉ d.*1 -> dict_set d k v = (d ++ [(k, v)])%list.
Proof.
  induction d as [|[k0 v0] d IH]; cbn; intros Hk; [reflexivity|].
  apply not_elem_of_cons in Hk as [Hne Hk].
  destruct (String.eqb_spec k0 k); [congruence|]. now rewrite IH.
Qed.

(** With no path twice in the list, the loop appends the files it can hash
    in the order of the list. *)
Lemma baseline_appends (disk : string -> FileNode) (files : list string)
    (baseline : list (string * string)) :
  NoDup (baseline.*1 ++ files) ->
  foldl (add_hashed disk) baseline files = (baseline ++ hashed disk files)%list.
Proof.
  revert baseline. induction files as [|file rest IH]; intros baseline Hnd; cbn [foldl].
  - unfold hashed. cbn. now rewrite app_nil_r.
  - apply NoDup_app in Hnd as (Hb & Hdisj & Hfiles).
    apply NoDup_cons in Hfiles as [Hfile Hrest].
    assert (file ∉ baseline.*1) as Hfresh by (intros Hin; apply (Hdisj _ Hin); left).
    unfold hashed. cbn [omap list_omap]. unfold add_hashed.
    destruct (hash_file (open_rb disk file)) as [h|e] eqn:Hh.
    + destruct (String.eqb_spec h "") as [->|_]; [now apply hash_file_nonempty in Hh|].
      rewrite (dict_set_fresh _ _ _ Hfresh), IH.
      * cbn. now rewrite <- app_assoc.
      * rewrite fmap_app. cbn. rewrite <- app_assoc. cbn.
        apply NoDup_app. split; [exact Hb|]. split; [|now apply NoDup_cons].
        intros x Hx Hin. apply (Hdisj _ Hx). exact Hin.
    + apply IH. apply NoDup_app. split; [exact Hb|]. split; [|exact Hrest].
      intros x Hx Hin. apply (Hdisj _ Hx). now right.
Qed.

Lemma hashed_failures_length (disk : string -> FileNode) (files : list string) :
  (length (hashed disk files) + length (read_failures disk files))%nat = length files.
Proof.
  unfold hashed, read_failures. induction files as [|file rest IH]; cbn; [reflexivity|].
  destruct (hash_file (open_rb disk file)); cbn; rewrite ?length_app; cbn; lia.
Qed.

(** X15: the snapshot lists the files in the order of the walk, and every
    file is accounted for.  When [os.walk] gives no path twice, no file
    fails but with an [OSError] and the snapshot can be written, the
    document holds the files that could be
    hashed, each with its digest, in the order [find_files] returned them (a
    directory's own files before those of its sub-directories); the number
    the closing log record gives is the number of its members; and that
    number plus the number of ERROR records logged is the number of files
    found. *)
Theorem snapshot_in_walk_order (env : Env) (directory : string) (w : World) :
  makedirs_result env = None ->
  open_result env = None ->
  dump_result env = None ->
  os_failures (disk env) (find_files directory (tree env)) = true ->
  NoDup (find_files directory (tree env)) ->
  let files := find_files directory (tree env) in
  written (snd (create_baseline env directory w)) !! baseline_file_of env
  = Some (Complete (json_of (hashed (disk env) files)))
  /\ log (snd (create_baseline env directory w))
     = (log w ++ read_failures (disk env) files
        ++ [{| levelname := INFO;
               message := "Baseline created with " ++ pretty (length (hashed (disk env) files))
                          ++ " files. Saved to " ++ baseline_file_of env |}])%list
  /\ (length (hashed (disk env) files) + length (read_failures (disk env) files))%nat
     = length files.
Proof.
  intros Hmk Hopen Hdump Hos Hnd files. subst files.
  rewrite (create_baseline_run env directory w Hmk Hopen Hdump Hos).
  cbv zeta. cbn [snd written log].
  rewrite (baseline_appends (disk env) _ []) by exact Hnd. cbn [app].
  split; [apply lookup_insert_eq|]. split; [reflexivity | apply hashed_failures_length].
Qed.

Lemma snapshot_in_walk_order_witness :
  written (snd (create_baseline sample_env "root" empty_world))
    !! "baselines/baseline_20240101_000000.json"
  = Some (Complete (json_of (hashed (disk sample_env)
                               ["root/a.txt"; "root/b.txt"; "root/sub/c.txt"])))
  /\ log (snd (create_baseline sample_env "root" empty_world))
     = ([] ++ read_failures (disk sample_env) ["root/a.txt"; "root/b.txt"; "root/sub/c.txt"]
        ++ [{| levelname := INFO;
               message := "Baseline created with "
                          ++ pretty (length (hashed (disk sample_env)
                                               ["root/a.txt"; "root/b.txt"; "root/sub/c.txt"]))
                          ++ " files. Saved to baselines/baseline_20240101_000000.json" |}])%list
  /\ (length (hashed (disk sample_env) ["root/a.txt"; "root/b.txt"; "root/sub/c.txt"])
      + length (read_failures (disk sample_env)
                  ["root/a.txt"; "root/b.txt"; "root/sub/c.txt"]))%nat
     = 3%nat.
Proof.
  apply (snapshot_in_walk_order sample_env "root" empty_world
           eq_refl eq_refl eq_refl eq_refl).
  apply (bool_decide_unpack _). vm_compute. reflexivity.
Defined.

(** X16: a snapshot that cannot be written is an error, not a log entry.
    If the directory [baselines] cannot be made, [create_baseline] raises at
    once: no file is read, nothing is logged.  If the snapshot file cannot
    be opened, it raises after hashing: the read failures are in the log,
    the record "Baseline created" is not, and the files are as they were.
    If the file opens and the write fails, it raises as well, and the file
    is left with a part of the document at most: [open] has created it, or
    emptied the snapshot that was there under that name. *)
Theorem unwritable_snapshot_raises (env : Env) (directory : string) (w : World) (e : Exn) :
  (makedirs_result env = Some e ->
   create_baseline env directory w = (Raise e, w))
  /\ (makedirs_result env = None ->
      os_failures (disk env) (find_files directory (tree env)) = true ->
      open_result env = Some e ->
      create_baseline env directory w
      = (Raise e,
         {| log := (log w ++ read_failures (disk env) (find_files directory (tree env)))%list;
            written := written w |}))
  /\ (makedirs_result env = None ->
      os_failures (disk env) (find_files directory (tree env)) = true ->
      open_result env = None ->
      dump_result env = Some e ->
      create_baseline env directory w
      = (Raise e,
         {| log := (log w ++ read_failures (disk env) (find_files directory (tree env)))%list;
            written :=
              <[baseline_file_of env :=
                  Partial (json_of (foldl (add_hashed (disk env)) []
                                      (find_files directory (tree env))))]> (written w) |})).
Proof.
  split; [|split].
  - intros Hmk. unfold create_baseline. rewrite Hmk. reflexivity.
  - intros Hmk Hos Hopen. unfold create_baseline. rewrite Hmk, Hopen.
    unfold bind at 1. unfold ret at 1. unfold bind at 1. rewrite (hash_files_run _ _ _ _ Hos).
    reflexivity.
  - intros Hmk Hos Hopen Hdump. unfold create_baseline. rewrite Hmk, Hopen, Hdump.
    unfold bind at 1. unfold ret at 1. unfold bind at 1. rewrite (hash_files_run _ _ _ _ Hos).
    reflexivity.
Qed.

Lemma unwritable_snapshot_raises_witness :
  create_baseline sample_env_read_only "root" earlier_snapshot
  = (Raise permission_denied,
     {| log := [read_failure "root/b.txt" permission_denied];
        written := {[ "baselines/baseline_20240101_000000.json" := Complete (json_of []) ]} |})
  /\ written (snd (create_baseline sample_env_full_disk "root" earlier_snapshot))
       !! "baselines/baseline_20240101_000000.json"
     = Some (Partial (json_of (hashed (disk sample_env) ["root/a.txt"; "root/sub/c.txt"]))).
Proof.
  split.
  - exact (proj1 (proj2 (unwritable_snapshot_raises sample_env_read_only "root"
                           earlier_snapshot permission_denied))
             eq_refl eq_refl eq_refl).
  - rewrite (proj2 (proj2 (unwritable_snapshot_raises sample_env_full_disk "root"
                             earlier_snapshot no_space))
               eq_refl eq_refl eq_refl eq_refl).
    vm_compute. reflexivity.
Defined.

(** X17: [find_files] returns exactly the files of the walk: a path is in
    the list if and only if it is the path [os.walk] gives to an entry that
    is not a directory, in the directory itself or at any depth below
    it. *)
Theorem find_files_exact (directory : string) (t : Tree) (p : string) :
  p ∈ find_files directory t <-> listed directory t p.
Proof.
  split.
  - revert directory p. induction t as [dirs files IH] using Tree_nested_ind.
    intros directory p Hin. cbn [find_files] in Hin.
    apply elem_of_app in Hin as [Hhere|Hbelow].
    + apply list_elem_of_fmap in Hhere as (file & -> & Hfile).
      now apply listed_here.
    + apply list_elem_of_In, in_flat_map in Hbelow as ([name sub] & Hdir & Hsub).
      apply list_elem_of_In in Hdir, Hsub.
      pose proof (proj1 (Forall_forall _ _) IH (name, sub) Hdir) as IHsub.
      eapply listed_below; [exact Hdir|]. now apply IHsub.
  - intros Hlisted.
    induction Hlisted as [directory dirs files file Hfile
                         | directory dirs files name sub p Hdir _ IH];
      cbn [find_files]; apply elem_of_app; [left|right].
    + now apply list_elem_of_fmap_2.
    + apply list_elem_of_In, in_flat_map. exists (name, sub).
      split; now apply list_elem_of_In.
Qed.

Lemma append_inj_head (s a b : string) : s ++ a = s ++ b -> a = b.
Proof. induction s as [|c s IH]; cbn; [auto|]. intros [= H]. auto. Qed.

Lemma append_length (a b : string) :
  String.length (a ++ b) = (String.length a + String.length b)%nat.
Proof.
  induction a as [|c a IH]; [reflexivity|].
  change (S (String.length (a ++ b)) = S (String.length a + String.length b)).
  now f_equal.
Qed.

Lemma append_inj_tail (a b t : string) : a ++ t = b ++ t -> a = b.
Proof.
  revert b. induction a as [|c a IH]; intros [|c' b] H.
  - reflexivity.
  - apply (f_equal String.length) in H. rewrite !append_length in H. cbn in H. lia.
  - apply (f_equal String.length) in H. rewrite !append_length in H. cbn in H. lia.
  - cbn in H. injection H as -> H. f_equal. now apply IH.
Qed.

(** Snapshots have the same name exactly when their timestamps are the
    same. *)
Lemma baseline_file_inj (env1 env2 : Env) :
  baseline_file_of env1 = baseline_file_of env2 <-> timestamp env1 = timestamp env2.
Proof.
  split.
  - rewrite !baseline_file_name. intros H.
    apply (append_inj_head "baselines/baseline_") in H. now apply append_inj_tail in H.
  - unfold baseline_file_of. now intros ->.
Qed.

(** X18: two baselines made within the same second leave one snapshot.
    The name of a snapshot holds the time to the second, so when a second
    run reads the same timestamp as the first, the first snapshot is
    replaced by what the second run writes; with different timestamps the
    first snapshot is kept.  (Both runs complete: the snapshot can be
    written and no file fails but with an [OSError].) *)
Theorem same_second_overwrites (env1 env2 : Env) (directory1 directory2 : string)
    (w : World) :
  makedirs_result env1 = None -> open_result env1 = None -> dump_result env1 = None ->
  os_failures (disk env1) (find_files directory1 (tree env1)) = true ->
  makedirs_result env2 = None -> open_result env2 = None -> dump_result env2 = None ->
  os_failures (disk env2) (find_files directory2 (tree env2)) = true ->
  let w1 := snd (create_baseline env1 directory1 w) in
  let w2 := snd (create_baseline env2 directory2 w1) in
  (timestamp env1 = timestamp env2 ->
   written w2 !! baseline_file_of env1
   = written (snd (create_baseline env2 directory2 w)) !! baseline_file_of env2)
  /\ (timestamp env1 <> timestamp env2 ->
      written w2 !! baseline_file_of env1 = written w1 !! baseline_file_of env1
      /\ is_Some (written w1 !! baseline_file_of env1)).
Proof.
  intros Hmk1 Ho1 Hd1 Hos1 Hmk2 Ho2 Hd2 Hos2 w1 w2. subst w1 w2.
  rewrite (create_baseline_run env2 directory2 _ Hmk2 Ho2 Hd2 Hos2).
  rewrite (create_baseline_run env2 directory2 w Hmk2 Ho2 Hd2 Hos2).
  rewrite (create_baseline_run env1 directory1 w Hmk1 Ho1 Hd1 Hos1).
  cbv zeta. cbn [snd written]. split.
  - intros Hts. apply baseline_file_inj in Hts. rewrite Hts.
    now rewrite !lookup_insert_eq.
  - intros Hts. rewrite lookup_insert_ne.
    + rewrite lookup_insert_eq. eauto.
    + intros Heq. apply Hts. symmetry. now apply baseline_file_inj.
Qed.

Lemma same_second_overwrites_witness :
  written (snd (create_baseline sample_env "other"
                  (snd (create_baseline sample_env "root" empty_world))))
    !! "baselines/baseline_20240101_000000.json"
  = written (snd (create_baseline sample_env "other" empty_world))
      !! "baselines/baseline_20240101_000000.json"
  /\ (written (snd (create_baseline sample_env_later "other"
                      (snd (create_baseline sample_env "root" empty_world))))
        !! "baselines/baseline_20240101_000000.json"
      = written (snd (create_baseline sample_env "root" empty_world))
          !! "baselines/baseline_20240101_000000.json"
      /\ is_Some (written (snd (create_baseline sample_env "root" empty_world))
                    !! "baselines/baseline_20240101_000000.json")).
Proof.
  split.
  - exact (proj1 (same_second_overwrites sample_env sample_env "root" "other" empty_world
                    eq_refl eq_refl eq_refl eq_refl eq_refl eq_refl eq_refl eq_refl) eq_refl).
  - apply (proj2 (same_second_overwrites sample_env sample_env_later "root" "other"
                    empty_world eq_refl eq_refl eq_refl eq_refl eq_refl eq_refl eq_refl
                    eq_refl)).
    discriminate.
Defined.

End ProjectExtras.


(** ** Further facts about WatchDog.py *)

Module WatchDogExtras.
Import Py WatchDog WatchDogExt.
Local Open Scope py_scope.

Section Handler.

Variable abspath : string -> string.

(** X19: the handler only ever appends, and at most one record per event.
    Whatever the event, [dispatch] returns normally and leaves the earlier
    records in place, adding no record or one INFO record; and a created,
    modified or deleted entry that is not the log file always gets its
    record, which names the path as reported and the user the handler was
    built with. *)
Theorem events_logged_once (self : CustomLoggingEventHandler) (event : FileSystemEvent)
    (log : list LogRecord) :
  (exists records,
     dispatch abspath self event log = (Ret tt, (log ++ records)%list)
     /\ (length records <= 1)%nat
     /\ Forall (fun r => levelname r = INFO) records)
  /\ (event_type event = Created \/ event_type event = Modified
      \/ event_type event = Deleted ->
      abspath (src_path event) <> log_file self ->
      dispatch abspath self event log
      = (Ret tt,
         (log ++ [{| levelname := INFO;
                     message := verb_of (event_type event) ++ " " ++ kind_of event ++ ": "
                                ++ src_path event ++ " - userid:" ++ user self |}])%list)).
Proof.
  split.
  - unfold dispatch, on_created, on_modified, on_deleted, on_moved.
    destruct (event_type event);
      try (destruct (should_ignore abspath self (src_path event)));
      try (destruct (should_ignore abspath self (dest_path event)));
      cbn;
      first [ exists []; rewrite app_nil_r; repeat split; [cbn; lia | constructor]
            | eexists [_]; repeat split; [cbn; lia | repeat constructor] ].
  - intros Hkind Hother.
    assert (should_ignore abspath self (src_path event) = false) as Hi.
    { unfold should_ignore. now apply String.eqb_neq. }
    unfold dispatch, on_created, on_modified, on_deleted.
    destruct Hkind as [Hk|[Hk|Hk]]; rewrite Hk, Hi; reflexivity.
Qed.

(** X21: a move is logged by the base name of its destination alone.  A
    move neither end of which is the log file leaves exactly one record,
    "Renamed <file or directory>: to <base name> - userid:<user>": the
    source path and the directory of the destination are not recorded. *)
Theorem moves_logged_by_base_name (self : CustomLoggingEventHandler) (event : FileSystemEvent)
    (log : list LogRecord) :
  event_type event = Moved ->
  abspath (src_path event) <> log_file self ->
  abspath (dest_path event) <> log_file self ->
  dispatch abspath self event log
  = (Ret tt,
     (log ++ [{| levelname := INFO;
                 message := "Renamed " ++ kind_of event ++ ": to "
                            ++ basename (dest_path event) ++ " - userid:" ++ user self |}])%list).
Proof.
  intros Hkind Hsrc Hdest. unfold dispatch, on_moved, should_ignore. rewrite Hkind.
  apply String.eqb_neq in Hsrc, Hdest. rewrite Hsrc, Hdest. reflexivity.
Qed.

End Handler.

Lemma moves_logged_by_base_name_witness :
  dispatch (posix_abspath "/home/fim")
    (__init__ (posix_abspath "/home/fim") "FIM_Logs.log" "briana")
    {| event_type := Moved; src_path := "/home/fim/vault/keys.txt";
       dest_path := "/home/fim/tmp/keys.old"; is_directory := false |} []
  = (Ret tt,
     [{| levelname := INFO; message := "Renamed file: to keys.old - userid:briana" |}]).
Proof.
  apply (moves_logged_by_base_name (posix_abspath "/home/fim")
           (__init__ (posix_abspath "/home/fim") "FIM_Logs.log" "briana")
           {| event_type := Moved; src_path := "/home/fim/vault/keys.txt";
              dest_path := "/home/fim/tmp/keys.old"; is_directory := false |} []);
    [reflexivity | vm_compute; discriminate | vm_compute; discriminate].
Defined.

Lemma events_logged_once_witness :
  dispatch (posix_abspath "/home/fim")
    (__init__ (posix_abspath "/home/fim") "FIM_Logs.log" "briana")
    {| event_type := Deleted; src_path := "/home/fim/vault/keys.txt";
       dest_path := ""; is_directory := false |} []
  = (Ret tt,
     [{| levelname := INFO;
         message := "Deleted file: /home/fim/vault/keys.txt - userid:briana" |}]).
Proof.
  refine (proj2 (events_logged_once (posix_abspath "/home/fim")
                   (__init__ (posix_abspath "/home/fim") "FIM_Logs.log" "briana")
                   {| event_type := Deleted; src_path := "/home/fim/vault/keys.txt";
                      dest_path := ""; is_directory := false |} []) _ _).
  - right. right. reflexivity.
  - vm_compute. discriminate.
Defined.

Lemma startswith_slash_append (a b : string) :
  startswith_slash a = true -> startswith_slash (a ++ b) = true.
Proof. destruct a; [discriminate | trivial]. Qed.

(** Under POSIX rules, a name relative to the working directory and its
    full path have the same absolute path. *)
Lemma posix_abspath_relative (cwd name : string) :
  startswith_slash cwd = true ->
  endswith_slash cwd = false ->
  startswith_slash name = false ->
  posix_abspath cwd (cwd ++ "/" ++ name) = posix_abspath cwd name.
Proof.
  intros Habs Hend Hrel. unfold posix_abspath.
  rewrite (startswith_slash_append _ _ Habs), Hrel. unfold path_join.
  rewrite Hrel, Hend. destruct cwd; [discriminate | reflexivity].
Qed.

(** X20: a log file given by a relative name is recognised under its full
    path.  With POSIX paths, a handler built with a log file name relative
    to the working directory drops the events that report the log file by
    its absolute path, which is how the watch reports them. *)
Theorem relative_log_file_recognised (cwd name usr : string) (event : FileSystemEvent)
    (log : list LogRecord) :
  startswith_slash cwd = true ->
  endswith_slash cwd = false ->
  startswith_slash name = false ->
  src_path event = cwd ++ "/" ++ name ->
  dispatch (posix_abspath cwd) (__init__ (posix_abspath cwd) name usr) event log
  = (Ret tt, log).
Proof.
  intros Habs Hend Hrel Hsrc.
  unfold dispatch, on_created, on_modified, on_deleted, on_moved, should_ignore.
  cbn [log_file __init__].
  rewrite Hsrc, (posix_abspath_relative _ _ Habs Hend Hrel), String.eqb_refl.
  now destruct (event_type event).
Qed.

Lemma relative_log_file_recognised_witness :
  dispatch (posix_abspath "/home/fim")
    (__init__ (posix_abspath "/home/fim") "FIM_Logs.log" "briana")
    {| event_type := Modified; src_path := "/home/fim/FIM_Logs.log";
       dest_path := ""; is_directory := false |} []
  = (Ret tt, []).
Proof.
  exact (relative_log_file_recognised "/home/fim" "FIM_Logs.log" "briana"
           {| event_type := Modified; src_path := "/home/fim/FIM_Logs.log";
              dest_path := ""; is_directory := false |} []
           eq_refl eq_refl eq_refl eq_refl).
Defined.

End WatchDogExtras.
